(** * Tournament point-of-sale backend

    A shallow embedding of the order sequencer and ledger
    ([server/mariadb.js], [server/firestore.js]), the catalog validation,
    the admin credential guard and session store ([server/mariadb.js]) and
    the login throttle of the HTTP boundary ([index.js]).

    Conventions of the embedding:
    - a JS number that holds a counter, a quantity, an amount or a clock
      reading is a [Z]; JS arithmetic on integers is exact below 2^53, and
      the statements that depend on it carry that bound. Where a number
      lives in JavaScript alone (the counter document and the line totals
      of the document backend) sums and products are rounded to the
      nearest double, [Js.add] and [Js.mul];
    - a JS string is a [string] whose characters are code units below 256;
    - the widths of the columns of the relational schema (INT,
      VARCHAR(10), DECIMAL(10,2)) are not modelled: amounts are whole
      numbers and identifiers are as long as they need to be; statements
      about amounts on the relational backend are for amounts the column
      holds as they are, [Order.fits_decimal_10_2];
    - [null]/[undefined] are [None];
    - a rejected promise or a thrown exception is the [Throw] result. *)

From Stdlib Require Import ZArith QArith Ascii String List Lia.
From Stdlib Require Strings.Byte.
From stdpp Require Import gmap strings list.

Local Open Scope Z_scope.

(** ** JavaScript built-ins used by the server *)

Module Js.

(** [Number.MAX_SAFE_INTEGER]: integers up to it are exact doubles. *)
Definition MAX_SAFE_INTEGER : Z := 9007199254740991.

(** The double nearest to an integer, ties going to the even significand:
    an integer of at most 53 bits is a double, a longer one keeps its 53
    leading bits. (Magnitudes are below 2^1024.) *)
Definition round53 (z : Z) : Z :=
  let a := Z.abs z in
  if a <? 2 ^ 53 then z
  else
    let e := Z.log2 a - 52 in
    let q := Z.shiftr a e in
    let r := a - Z.shiftl q e in
    let half := 2 ^ (e - 1) in
    let q' :=
      if r <? half then q
      else if half <? r then q + 1
      else if Z.even q then q else q + 1 in
    Z.sgn z * Z.shiftl q' e.

(** [a + b] and [a * b] on numbers that hold integers. *)
Definition add (a b : Z) : Z := round53 (a + b).
Definition mul (a b : Z) : Z := round53 (a * b).

Definition digit_char (d : Z) : ascii := ascii_of_nat (48 + Z.to_nat d).

(** Decimal digits of a non-negative integer, most significant first. *)
Fixpoint dec_digits (fuel : nat) (n : Z) : list ascii :=
  match fuel with
  | O => []
  | S f =>
      if n <? 10 then [digit_char n]
      else dec_digits f (n / 10) ++ [digit_char (n mod 10)]
  end.

Definition dec_fuel (n : Z) : nat := S (Z.to_nat (Z.log2 n)).

(** [Number.prototype.toString()] on an integer value. *)
Definition toString (n : Z) : string :=
  if n <? 0
  then String "-"%char (string_of_list_ascii (dec_digits (dec_fuel (- n)) (- n)))
  else string_of_list_ascii (dec_digits (dec_fuel n) n).

(** The filler of [padStart]/[padEnd]: the pad string repeated and cut to
    [n] characters ([cur] is what is left of the current repetition). *)
Fixpoint fill (n : nat) (cur pad : list ascii) : list ascii :=
  match n with
  | O => []
  | S n' =>
      match cur with
      | c :: r => c :: fill n' r pad
      | [] =>
          match pad with
          | c :: r => c :: fill n' r pad
          | [] => []
          end
      end
  end.

(** [String.prototype.padStart(targetLength, padString)]. *)
Definition padStart (targetLength : nat) (padString s : string) : string :=
  let len := String.length s in
  if (targetLength <=? len)%nat then s
  else
    match padString with
    | EmptyString => s
    | _ =>
        string_of_list_ascii
          (fill (targetLength - len) [] (list_ascii_of_string padString))
        +:+ s
    end.

(** Value of a string of decimal digits read left to right. *)
Definition digit_val (c : ascii) : Z := Z.of_nat (nat_of_ascii c) - 48.

Fixpoint dec_value_from (acc : Z) (l : list ascii) : Z :=
  match l with
  | [] => acc
  | c :: r => dec_value_from (10 * acc + digit_val c) r
  end.

Definition dec_value (s : string) : Z :=
  dec_value_from 0 (list_ascii_of_string s).

(** The characters "0" to "9". *)
Definition is_decimal_digit (c : ascii) : bool :=
  let n := nat_of_ascii c in ((48 <=? n) && (n <=? 57))%nat.

(** JS white space among the code units below 256:
    TAB, LF, VT, FF, CR, SPACE and NBSP. *)
Definition is_white_space (c : ascii) : bool :=
  let n := nat_of_ascii c in
  ((9 <=? n) && (n <=? 13) || (n =? 32) || (n =? 160))%nat.

Fixpoint trim_start (l : list ascii) : list ascii :=
  match l with
  | c :: r => if is_white_space c then trim_start r else l
  | [] => []
  end.

(** [String.prototype.trim()]. *)
Definition trim (s : string) : string :=
  string_of_list_ascii
    (rev (trim_start (rev (trim_start (list_ascii_of_string s))))).

(** Results of code that may throw, and the sequencing of [await]. *)
Inductive result (E A : Type) : Type :=
| Ok (a : A)
| Throw (e : E).
Arguments Ok {E A} a.
Arguments Throw {E A} e.

Definition bind {E A B} (r : result E A) (k : A -> result E B) : result E B :=
  match r with
  | Ok a => k a
  | Throw e => Throw e
  end.

End Js.

Global Instance result_bind {E} : MBind (Js.result E) :=
  fun A B k r => Js.bind r k.
Global Instance result_ret {E} : MRet (Js.result E) := @Js.Ok E.

(** ** Orders as the client submits them *)

Module Order.

(** One entry of [orderData.items]. *)
Record item := Item {
  name : string;
  qty : Z;
  price : Z;
}.

(** The request body handed to [submitOrder]. The body is not validated:
    [items] may be missing ([None]), and [totalAmount] is whatever the
    client computed. *)
Record order_data := OrderData {
  totalAmount : Z;
  paymentType : string;
  items : option (list item);
}.

(** [{ ...orderData, orderId: newOrderId }] *)
Record order := MkOrder {
  data : order_data;
  orderId : string;
}.

(** [newCount.toString().padStart(4, "0")] *)
Definition newOrderId (newCount : Z) : string :=
  Js.padStart 4 "0" (Js.toString newCount).

(** [orderData.paymentType === "Venmo" ? "pending" : "paid"] *)
Definition status_of (paymentType : string) : string :=
  if decide (paymentType = "Venmo") then "pending" else "paid".




End Order.

(** ** The relational backend ([server/mariadb.js]) *)

Module Maria.
Import Js Order.

(** Row of [orders]; the AUTO_INCREMENT [id] is the position in the table,
    which is kept in insertion order. *)
Record order_row := OrderRow {
  o_orderId : string;
  o_totalAmount : Z;
  o_paymentType : string;
  o_status : string;
  o_timestamp : Z;
}.

(** Row of [transactions], in insertion order as well. *)
Record tx_row := TxRow {
  t_orderId : string;
  t_item : string;
  t_quantity : Z;
  t_total : Z;
}.

(** The committed content of the database: the [count] of the row
    [meta.id = 'counter'] (absent when the row is), and the two tables. *)
Record db := Db {
  counter : option Z;
  orders : list order_row;
  transactions : list tx_row;
}.

(** The calls [submitOrder] makes on the pool and the connection. *)
Inductive op :=
| GetConnection
| BeginTransaction
| SelectCounter
| UpdateCounter
| InsertOrder
| InsertItem (k : nat)
| Commit
| Rollback.

Inductive error :=
| DbError (o : op)
| DuplicateEntry (id : string)
| TypeError (what : string).

(** A connection: what is committed, and the working copy of the open
    transaction, if any. Other connections read [committed] only. *)
Record conn := Conn {
  committed : db;
  working : option db;
}.

Definition view (c : conn) : db := default (committed c) (working c).

Definition write (d : db) (c : conn) : conn :=
  match working c with
  | Some _ => Conn (committed c) (Some d)
  | None => Conn d None
  end.

(** Code running on a connection: the connection survives an exception. *)
Definition io (A : Type) : Type := conn -> result error A * conn.

#[export] Instance io_ret : MRet io := fun A a c => (Ok a, c).
#[export] Instance io_bind : MBind io := fun A B k m c =>
  match m c with
  | (Ok a, c') => k a c'
  | (Throw e, c') => (Throw e, c')
  end.

Definition throw {A} (e : error) : io A := fun c => (Throw e, c).

Definition try_catch {A} (m : io A) (handler : error -> io A) : io A :=
  fun c =>
    match m c with
    | (Ok a, c') => (Ok a, c')
    | (Throw e, c') => handler e c'
    end.

Section WithFaults.
(** Which calls the server or the network makes fail. *)
Variable faulty : op -> bool.

Definition call {A} (o : op) (run : io A) : io A :=
  fun c => if faulty o then (Throw (DbError o), c) else run c.

Definition beginTransaction : io unit :=
  call BeginTransaction (fun c => (Ok (), Conn (view c) (Some (view c)))).

Definition commit : io unit :=
  call Commit (fun c => (Ok (), Conn (view c) None)).

Definition rollback : io unit :=
  call Rollback (fun c => (Ok (), Conn (committed c) None)).

(** [SELECT count FROM meta WHERE id = 'counter' FOR UPDATE] *)
Definition select_counter : io (option Z) :=
  call SelectCounter (fun c => (Ok (counter (view c)), c)).

(** [UPDATE meta SET count = ? WHERE id = 'counter'] *)
Definition update_counter (newCount : Z) : io unit :=
  call UpdateCounter (fun c =>
    let d := view c in
    (Ok (), write (Db ((fun _ => newCount) <$> counter d) (orders d) (transactions d)) c)).

(** [INSERT INTO orders ...]; [orderId] is UNIQUE. *)
Definition insert_order (r : order_row) : io unit :=
  call InsertOrder (fun c =>
    let d := view c in
    if bool_decide (o_orderId r ∈ o_orderId <$> orders d)
    then (Throw (DuplicateEntry (o_orderId r)), c)
    else (Ok (), write (Db (counter d) (orders d ++ [r]) (transactions d)) c)).

(** [INSERT INTO transactions ...] for the [k]-th item. *)
Definition insert_transaction (k : nat) (r : tx_row) : io unit :=
  call (InsertItem k) (fun c =>
    let d := view c in
    (Ok (), write (Db (counter d) (orders d) (transactions d ++ [r])) c)).

(** [await Promise.all(items.map(item => conn.query(...)))]: every
    query is queued on the connection and runs; the first rejection is
    the one the [await] throws. *)
Fixpoint insert_all (k : nat) (rows : list tx_row) : io unit :=
  match rows with
  | [] => mret ()
  | r :: rs => fun c =>
      let '(res1, c1) := insert_transaction k r c in
      let '(res2, c2) := insert_all (S k) rs c1 in
      (match res1 with Throw e => Throw e | Ok _ => res2 end, c2)
  end.

Definition order_row_of (now : Z) (orderData : order_data) (id : string) : order_row :=
  OrderRow id (totalAmount orderData) (paymentType orderData)
           (status_of (paymentType orderData)) now.

Definition tx_row_of (id : string) (it : item) : tx_row :=
  TxRow id (name it) (qty it) (price it * qty it).

(** The [try] block of [submitOrder]. *)
Definition submit_body (now : Z) (orderData : order_data) : io order :=
  _ ← beginTransaction;
  counterRow ← select_counter;
  current ← match counterRow with
            | Some n => mret n
            | None => throw (TypeError "counterRow[0] is undefined")
            end;
  let newCount := current + 1 in
  let id := newOrderId newCount in
  _ ← update_counter newCount;
  _ ← insert_order (order_row_of now orderData id);
  its ← match items orderData with
        | Some l => mret l
        | None => throw (TypeError "orderData.items is undefined")
        end;
  _ ← insert_all 0 (tx_row_of id <$> its);
  _ ← commit;
  mret (MkOrder orderData id).

(** [submitOrder(orderData)]: returns the order or throws. The [catch]
    block rolls back and throws the error again; [finally] releases the
    connection, after which the database is what has been committed. [now]
    is the server's CURRENT_TIMESTAMP. *)
Definition submitOrder (now : Z) (orderData : order_data) (d : db)
  : result error order * db :=
  if faulty GetConnection then (Throw (DbError GetConnection), d)
  else
    let '(r, c) :=
      try_catch (submit_body now orderData)
                (fun err => _ ← rollback; throw err)
                (Conn d None) in
    (r, committed c).

End WithFaults.

Definition no_fault : op -> bool := fun _ => false.

(** A row of the result set of the query of [getOrders]; the [t.*] columns
    are NULL on the row a LEFT JOIN makes for an order without
    transactions. [DECIMAL] columns may be NULL as well. *)
Record join_row := JoinRow {
  j_orderId : string;
  j_totalAmount : option Z;
  j_paymentType : string;
  j_status : string;
  j_timestamp : Z;
  j_item : option string;
  j_quantity : option Z;
  j_itemTotal : option Z;
}.

Definition joined (o : order_row) (t : option tx_row) : join_row :=
  JoinRow (o_orderId o) (Some (o_totalAmount o)) (o_paymentType o)
          (o_status o) (o_timestamp o)
          (t_item <$> t) (t_quantity <$> t) (t_total <$> t).

(** [FROM orders o LEFT JOIN transactions t ON o.orderId = t.orderId
    ORDER BY o.id DESC, t.id ASC]: the tables are in id order, so the
    orders are taken from the last one back and the transactions of each
    in table order. *)
Definition select_orders_join (d : db) : list join_row :=
  o ← reverse (orders d);
  match filter (fun t => t_orderId t = o_orderId o) (transactions d) with
  | [] => [joined o None]
  | ts => (fun t => joined o (Some t)) <$> ts
  end.

(** What [getOrders] returns for an order and for one of its items. *)
Record item_view := ItemView {
  i_name : string;
  i_qty : option Z;
  i_total : Z;
}.

Record order_view := OrderView {
  v_orderId : string;
  v_totalAmount : Z;
  v_paymentType : string;
  v_status : string;
  v_timestamp : Z;
  v_items : list item_view;
}.

(** [ordersMap]: a JS [Map] keeps its keys in insertion order. *)
Abbreviation orders_map := (list (string * order_view)).

Definition map_has (k : string) (m : orders_map) : bool :=
  bool_decide (k ∈ m.*1).

(** [ordersMap.get(k).items.push(it)] *)
Fixpoint map_push_item (k : string) (it : item_view) (m : orders_map) : orders_map :=
  match m with
  | [] => []
  | (k', v) :: r =>
      if decide (k = k')
      then (k', OrderView (v_orderId v) (v_totalAmount v) (v_paymentType v)
                          (v_status v) (v_timestamp v) (v_items v ++ [it])) :: r
      else (k', v) :: map_push_item k it r
  end.

(** The body of [for (const row of rows)]. *)
Definition group_row (m : orders_map) (row : join_row) : orders_map :=
  let m1 :=
    if map_has (j_orderId row) m then m
    else m ++ [(j_orderId row,
                OrderView (j_orderId row) (default 0 (j_totalAmount row))
                          (j_paymentType row) (j_status row) (j_timestamp row) [])] in
  match j_item row with
  | Some (String c s) =>
      map_push_item (j_orderId row)
        (ItemView (String c s) (j_quantity row) (default 0 (j_itemTotal row))) m1
  | _ => m1       (* [row.item] is falsy: NULL or the empty string *)
  end.

(** [getOrders()] *)
Definition getOrders (d : db) : list order_view :=
  (foldl group_row [] (select_orders_join d)).*2.

(** *** What the listing is specified to be *)

Definition item_view_of (t : tx_row) : item_view :=
  ItemView (t_item t) (Some (t_quantity t)) (t_total t).

Definition order_view_of (o : order_row) (ts : list tx_row) : order_view :=
  OrderView (o_orderId o) (o_totalAmount o) (o_paymentType o) (o_status o)
            (o_timestamp o) (item_view_of <$> ts).

(** The stored line items of an order, in insertion order. *)
Definition rows_of (d : db) (o : order_row) : list tx_row :=
  filter (fun t => t_orderId t = o_orderId o) (transactions d).

(** The listing in the words of the specification: every order, newest
    first, each with all its stored line items in insertion order. *)
Definition listOrders_as_specified (d : db) : list order_view :=
  (fun o => order_view_of o (rows_of d o)) <$> reverse (orders d).

(** The same with the line items whose stored name is empty left out. *)
Definition listOrders_named_items (d : db) : list order_view :=
  (fun o => order_view_of o (filter (fun t => t_item t <> "") (rows_of d o)))
    <$> reverse (orders d).

End Maria.

(** ** The document backend ([server/firestore.js]) *)

Module Firestore.
Import Js Order.

(** Field values of the documents the server writes. *)
Inductive value :=
| VStr (s : string)
| VNum (n : Z).

(** A collection: its documents by ascending document id, which is the
    order in which [collection.get()] returns them. *)
Abbreviation collection := (list (string * gmap string value)).

Record store := Store {
  count : option Z;            (* [meta/counter], absent before first use *)
  orders : collection;
  transactions : collection;
}.

(** [ref.set(doc)]: creates the document or overwrites it. *)
Fixpoint doc_set (id : string) (d : gmap string value) (c : collection) : collection :=
  match c with
  | [] => [(id, d)]
  | (k, v) :: r =>
      match String.compare id k with
      | Lt => (id, d) :: c
      | Eq => (id, d) :: r
      | Gt => (k, v) :: doc_set id d r
      end
  end.


Inductive op :=
| RunTransaction
| SetOrder
| BatchCommit.

Inductive error :=
| StoreError (o : op)
| TypeError (what : string).

(** The random ids [collection.doc()] generates during one submission. *)
Record auto_ids := AutoIds {
  order_doc_id : string;
  tx_doc_id : nat -> string;
}.

Definition order_doc (timestamp : string) (orderData : order_data) (id : string)
  : gmap string value :=
  <["orderId" := VStr id]>
  (<["totalAmount" := VNum (totalAmount orderData)]>
  (<["paymentType" := VStr (paymentType orderData)]>
  (<["timestamp" := VStr timestamp]>
  (<["status" := VStr (status_of (paymentType orderData))]> ∅)))).

Definition tx_doc (id : string) (it : item) : gmap string value :=
  <["orderId" := VStr id]>
  (<["item" := VStr (name it)]>
  (<["quantity" := VNum (qty it)]>
  (<["total" := VNum (Js.mul (price it) (qty it))]> ∅))).

(** [batch.set(txRef, ...)] for every item, applied by [batch.commit()]. *)
Fixpoint batch_set (ids : auto_ids) (id : string) (k : nat) (its : list item)
    (c : collection) : collection :=
  match its with
  | [] => c
  | it :: r => batch_set ids id (S k) r (doc_set (tx_doc_id ids k) (tx_doc id it) c)
  end.

Section WithFaults.
Variable faulty : op -> bool.

(** [submitOrder(orderData)]: three separate writes, the counter
    transaction, the order document and the batch of item documents. *)
Definition submitOrder (ids : auto_ids) (timestamp : string)
    (orderData : order_data) (s : store) : result error order * store :=
  if faulty RunTransaction then (Throw (StoreError RunTransaction), s)
  else
    let counter := Js.add (default 0 (count s)) 1 in
    let id := newOrderId counter in
    let s1 := Store (Some counter) (orders s) (transactions s) in
    if faulty SetOrder then (Throw (StoreError SetOrder), s1)
    else
      let s2 :=
        Store (count s1)
              (doc_set (order_doc_id ids) (order_doc timestamp orderData id) (orders s1))
              (transactions s1) in
      match items orderData with
      | None => (Throw (TypeError "orderData.items is undefined"), s2)
      | Some its =>
          if faulty BatchCommit then (Throw (StoreError BatchCommit), s2)
          else
            (Ok (MkOrder orderData id),
             Store (count s2) (orders s2)
                   (batch_set ids id 0 its (transactions s2)))
      end.

End WithFaults.

Definition no_fault : op -> bool := fun _ => false.

(** [getOrders()]: the data of every document of [orders]. *)
Definition getOrders (s : store) : list (gmap string value) :=
  snd <$> orders s.

End Firestore.

(** ** Concurrent submissions: the counter protocol of both backends *)

Module Sequencer.
Import Order.

Inductive backend := MariaDB | Firestore.

(** Where a submission stands with respect to the counter. *)
Inductive task :=
| Pending                      (* has not read the counter *)
| InTx (current : Z)           (* inside its transaction, having read [current] *)
| Assigned (id : string)       (* transaction committed, [newOrderId] is [id] *)
| Failed.                      (* threw before an id was assigned *)

(** The shared store as the sequencer sees it: the counter, the row lock
    of [SELECT ... FOR UPDATE], and the order ids in the order in which the
    transactions that made them committed. *)
Record world := World {
  counter : option Z;
  locked : bool;
  issued : list string;
  tasks : list task;
}.

Definition set_task (i : nat) (t : task) (w : world) : world :=
  World (counter w) (locked w) (issued w) (<[i := t]> (tasks w)).

(** One step of submission [i], if it can move.
    - MariaDB: [SELECT count ... FOR UPDATE] waits for the row lock, takes
      it and reads the counter; [UPDATE], the inserts and [commit] then
      publish [current + 1] and release the lock.
    - Firestore: [t.get(counterRef)] reads the counter; the commit of the
      transaction applies [t.set] when the document is as it was read, and
      otherwise [runTransaction] runs the update function again. *)
Definition fire (b : backend) (i : nat) (w : world) : option world :=
  match tasks w !! i with
  | Some Pending =>
      match b with
      | MariaDB =>
          if locked w then None
          else
            match counter w with
            | Some c => Some (World (counter w) true (issued w) (<[i := InTx c]> (tasks w)))
            | None => Some (set_task i Failed w)
            end
      | Firestore => Some (set_task i (InTx (default 0 (counter w))) w)
      end
  | Some (InTx current) =>
      let newCount := current + 1 in
      let id := newOrderId newCount in
      match b with
      | MariaDB =>
          Some (World ((fun _ => newCount) <$> counter w) false
                      (issued w ++ [id]) (<[i := Assigned id]> (tasks w)))
      | Firestore =>
          if decide (default 0 (counter w) = current)
          then Some (World (Some newCount) (locked w)
                           (issued w ++ [id]) (<[i := Assigned id]> (tasks w)))
          else Some (set_task i Pending w)
      end
  | Some (Assigned _) | Some Failed | None => None
  end.

(** An interleaving is the list of the submissions that move, in order;
    naming one that cannot move leaves the world as it is. *)
Definition run (b : backend) (schedule : list nat) (w : world) : world :=
  foldl (fun w i => default w (fire b i w)) w schedule.

(** [n] submissions arrive while the counter is [c]. *)
Definition init (c : Z) (n : nat) : world :=
  World (Some c) false [] (replicate n Pending).

Definition assigned_id (t : task) : option string :=
  match t with
  | Assigned id => Some id
  | _ => None
  end.

Definition assigned_ids (ts : list task) : list string := omap assigned_id ts.

Definition all_assigned (ts : list task) : bool :=
  forallb (fun t => bool_decide (is_Some (assigned_id t))) ts.

(** What holds of every world reached from [init c n]: the counter has
    advanced once per issued id, the ids issued are those of [c + 1]
    onwards in order, they are the ids the submissions hold, and on MariaDB
    the row lock is held by exactly the one submission that is inside its
    transaction, which has read the current counter. *)
Record invariant (b : backend) (c : Z) (n : nat) (w : world) : Prop := Invariant {
  inv_counter : counter w = Some (c + Z.of_nat (length (issued w)));
  inv_issued : issued w = newOrderId <$> seqZ (c + 1) (Z.of_nat (length (issued w)));
  inv_assigned : assigned_ids (tasks w) ≡ₚ issued w;
  inv_tasks : length (tasks w) = n;
  inv_in_tx : b = MariaDB -> forall j cur,
    tasks w !! j = Some (InTx cur) ->
    locked w = true /\ cur = c + Z.of_nat (length (issued w)) /\
    forall k cur', tasks w !! k = Some (InTx cur') -> k = j;
  inv_holder : locked w = true ->
    b = MariaDB /\ exists j cur, tasks w !! j = Some (InTx cur);
}.

(** A submission that has neither an id nor failed. *)
Definition unfinished (t : task) : bool :=
  match t with
  | Pending | InTx _ => true
  | Assigned _ | Failed => false
  end.

(** Every submission in turn, each running to its commit. *)
Definition one_by_one (n : nat) : list nat :=
  i ← seq 0 n; [i; i].

End Sequencer.

(** ** Catalog validation ([validateItemFields] of [server/mariadb.js]) *)

Module Catalog.
Import Js.

(** A JS number as far as its sign matters: finite values are rationals. *)
Inductive number :=
| NaN
| Fin (q : Q)
| PosInf
| NegInf.

(** The values a parsed JSON body can hold in a property; a property that
    is missing reads as [JUndefined]. An array or an object is kept as the
    string its [ToPrimitive] conversion gives (the empty string for [[]],
    "[object Object]" for a plain object). *)
Inductive jsval :=
| JUndefined
| JNull
| JBool (b : bool)
| JNum (n : number)
| JStr (s : string)
| JObj (primitive : string).

(** The properties [validateItemFields] destructures from the payload. *)
Record item_fields := ItemFields {
  tab : jsval;
  category : jsval;
  name : jsval;
  dataName : jsval;
  price : jsval;
}.

(** [!!v] *)
Definition truthy (v : jsval) : bool :=
  match v with
  | JUndefined | JNull => false
  | JBool b => b
  | JNum NaN => false
  | JNum (Fin q) => negb (Qnum q =? 0)
  | JNum _ => true
  | JStr s => negb (String.length s =? 0)%nat
  | JObj _ => true
  end.

(** [typeof v === 'string'] *)
Definition is_string (v : jsval) : bool :=
  match v with
  | JStr _ => true
  | _ => false
  end.

Section WithStringToNumber.
(** The numeric value of a string (ECMAScript [StringToNumber]). *)
Variable StringToNumber : string -> number.

(** [Number(v)] *)
Definition Number (v : jsval) : number :=
  match v with
  | JUndefined => NaN
  | JNull => Fin 0%Q
  | JBool b => Fin (if b then 1%Q else 0%Q)
  | JNum n => n
  | JStr s => StringToNumber s
  | JObj primitive => StringToNumber primitive
  end.

(** [Number.isNaN(p) || p < 0] *)
Definition nan_or_negative (p : number) : bool :=
  match p with
  | NaN => true
  | Fin q => Qnum q <? 0
  | PosInf => false
  | NegInf => true
  end.

(** [!v || typeof v !== 'string' || v.trim().length === 0]; the last
    operand is evaluated on strings only. *)
Definition blank (v : jsval) : bool :=
  negb (truthy v) || negb (is_string v) ||
  match v with
  | JStr s => (String.length (trim s) =? 0)%nat
  | _ => true
  end.

(** [v === s] for a string literal [s] *)
Definition strict_eq_string (v : jsval) (s : string) : bool :=
  match v with
  | JStr t => bool_decide (t = s)
  | _ => false
  end.

(** [!tab || (tab !== 'raffles' && tab !== 'concessions')] *)
Definition bad_tab (v : jsval) : bool :=
  negb (truthy v) ||
  (negb (strict_eq_string v "raffles") &&
   negb (strict_eq_string v "concessions")).

Definition msg_payload : string := "Missing item payload".
Definition msg_tab : string :=
  "'tab' is required and must be 'raffles' or 'concessions'".
Definition msg_category : string := "'category' is required".
Definition msg_name : string := "'name' is required".
Definition msg_dataName : string := "'dataName' is required".
Definition msg_price : string := "'price' must be a non-negative number".

(** [errs.push(msg)] under a condition. *)
Definition push_if (cond : bool) (msg : string) (errs : list string) : list string :=
  if cond then errs ++ [msg] else errs.

(** [validateItemFields(item)]; [None] is a payload that is [null] or
    [undefined]. *)
Definition validateItemFields (item : option item_fields) : list string :=
  match item with
  | None => [msg_payload]
  | Some it =>
      let errs := [] in
      let errs := push_if (bad_tab (tab it)) msg_tab errs in
      let errs := push_if (blank (category it)) msg_category errs in
      let errs := push_if (blank (name it)) msg_name errs in
      let errs := push_if (blank (dataName it)) msg_dataName errs in
      let p := Number (price it) in
      let errs := push_if (nan_or_negative p) msg_price errs in
      errs
  end.

End WithStringToNumber.

(** The list [validateItemFields] builds, in terms of its five tests. *)
Definition errs_of (b1 b2 b3 b4 b5 : bool) : list string :=
  push_if b5 msg_price
    (push_if b4 msg_dataName
       (push_if b3 msg_name
          (push_if b2 msg_category
             (push_if b1 msg_tab [])))).

(** *** The rules in the words of the specification *)

(** [tab] is one of the two tabs. *)
Definition valid_tab (v : jsval) : Prop :=
  v = JStr "raffles" \/ v = JStr "concessions".

(** A string that is not empty after trimming. *)
Definition nonblank (v : jsval) : Prop :=
  exists s, v = JStr s /\ trim s <> "".

(** A number that is not negative. *)
Definition non_negative (p : number) : Prop :=
  match p with
  | NaN | NegInf => False
  | Fin q => (0 <= q)%Q
  | PosInf => True
  end.

End Catalog.

(** ** Admin credential guard and session tokens ([server/mariadb.js]) *)

Module Admin.
Import Js.

(** *** Hexadecimal buffers *)

#[export] Instance byte_eq_dec : EqDecision Byte.byte := Byte.byte_eq_dec.

Definition hex_digit (n : N) : ascii :=
  match n with
  | 0%N => "0" | 1%N => "1" | 2%N => "2" | 3%N => "3"
  | 4%N => "4" | 5%N => "5" | 6%N => "6" | 7%N => "7"
  | 8%N => "8" | 9%N => "9" | 10%N => "a" | 11%N => "b"
  | 12%N => "c" | 13%N => "d" | 14%N => "e" | _ => "f"
  end%char.

Definition hex_val (c : ascii) : option N :=
  let n := N_of_ascii c in
  if (48 <=? n)%N && (n <=? 57)%N then Some (n - 48)%N
  else if (97 <=? n)%N && (n <=? 102)%N then Some (n - 87)%N
  else if (65 <=? n)%N && (n <=? 70)%N then Some (n - 55)%N
  else None.

(** [buf.toString('hex')] *)
Definition toString_hex (buf : list Byte.byte) : string :=
  string_of_list_ascii
    (b ← buf;
     let n := Byte.to_N b in [hex_digit (n / 16); hex_digit (n mod 16)]).

Fixpoint decode_hex (l : list ascii) : list Byte.byte :=
  match l with
  | c1 :: c2 :: r =>
      match hex_val c1, hex_val c2 with
      | Some h, Some k =>
          match Byte.of_N (16 * h + k) with
          | Some b => b :: decode_hex r
          | None => []
          end
      | _, _ => []
      end
  | _ => []
  end.

(** [Buffer.from(s, 'hex')]: decoding stops at the first pair that is not
    two hexadecimal digits; a trailing single character is dropped. *)
Definition Buffer_from_hex (s : string) : list Byte.byte :=
  decode_hex (list_ascii_of_string s).

Inductive error :=
| QueryError              (* [meta_text] missing or another database error *)
| DerivationError         (* [pbkdf2Sync] threw *)
| RangeError.             (* [timingSafeEqual] on buffers of different lengths *)

(** [crypto.timingSafeEqual(a, b)] *)
Definition timingSafeEqual (a b : list Byte.byte) : result error bool :=
  if decide (length a = length b)
  then Ok (bool_decide (a = b))
  else Throw RangeError.

(** The table [meta_text (id PRIMARY KEY, value TEXT)]: [None] when a query
    on it fails, and a NULL [value] is [Some None]. *)
Record cred_store := CredStore {
  meta_text : option (gmap string (option string));
}.

(** [pool.query(`SELECT value FROM meta_text WHERE id = ...`).then(r => r[0])]
    followed by [row && row[0] ? row[0].value : null]. *)
Definition select_value (st : cred_store) (id : string) : result error (option string) :=
  match meta_text st with
  | None => Throw QueryError
  | Some t => Ok (mjoin (t !! id))
  end.

(** [!s] for a string or [null] *)
Definition falsy (s : option string) : bool :=
  match s with
  | Some (String _ _) => false
  | _ => true
  end.

Definition ITERATIONS : Z := 100000.
Definition KEYLEN : Z := 64.
Definition DIGEST : string := "sha512".

Section WithKdf.
(** [crypto.pbkdf2Sync(password, salt, iterations, keylen, digest)];
    [None] when it throws. *)
Variable pbkdf2Sync : string -> string -> Z -> Z -> string -> option (list Byte.byte).

(** The [try] block of [validateAdminPassword]. *)
Definition validate_body (password : string) (st : cred_store) : result error bool :=
  storedHash ← select_value st "admin_hash";
  storedSalt ← select_value st "admin_salt";
  if falsy storedHash || falsy storedSalt then mret false
  else
    let storedHash := default "" storedHash in
    let storedSalt := default "" storedSalt in
    match pbkdf2Sync password storedSalt ITERATIONS KEYLEN DIGEST with
    | None => Throw DerivationError
    | Some buf =>
        let derived := toString_hex buf in
        timingSafeEqual (Buffer_from_hex derived) (Buffer_from_hex storedHash)
    end.

(** [validateAdminPassword(password)]: the [catch] returns [false]. *)
Definition validateAdminPassword (password : string) (st : cred_store) : bool :=
  match validate_body password st with
  | Ok b => b
  | Throw _ => false
  end.

End WithKdf.

(** *** Session tokens: [adminTokens], token to expiry in ms *)

Definition ADMIN_TOKEN_TTL : Z := 1000 * 60 * 30.

(** [createAdminToken()]; [token] is [randomBytes(24).toString('hex')] and
    [now] is [Date.now()]. *)
Definition createAdminToken (now : Z) (token : string) (adminTokens : gmap string Z)
  : string * gmap string Z :=
  let expiry := now + ADMIN_TOKEN_TTL in
  (token, <[token := expiry]> adminTokens).

(** [validateAdminToken(token)] *)
Definition validateAdminToken (now : Z) (token : string) (adminTokens : gmap string Z)
  : bool * gmap string Z :=
  match adminTokens !! token with
  | None => (false, adminTokens)
  | Some exp =>
      if exp =? 0 then (false, adminTokens)           (* [!exp] *)
      else if now >? exp then (false, delete token adminTokens)
      else (true, <[token := now + ADMIN_TOKEN_TTL]> adminTokens)
  end.

(** [revokeAdminToken(token)] *)
Definition revokeAdminToken (token : string) (adminTokens : gmap string Z)
  : bool * gmap string Z :=
  match token with
  | EmptyString => (false, adminTokens)
  | _ => (bool_decide (is_Some (adminTokens !! token)), delete token adminTokens)
  end.

End Admin.

(** ** The login throttle ([POST /api/admin/login] of [index.js]) *)

Module Login.

Definition MAX_ATTEMPTS : Z := 5.
Definition ATTEMPT_WINDOW_MS : Z := 1000 * 60 * 10.
Definition LOCK_TIME_MS : Z := 1000 * 60 * 15.

(** A value of [loginAttempts]. *)
Record attempt := Attempt {
  count : Z;
  firstAt : Z;
  lockedUntil : Z;
}.

(** The state the handler works on; [guardCalls] records the passwords
    handed to [validateAdminPassword], in order. *)
Record state := State {
  loginAttempts : gmap string attempt;
  adminTokens : gmap string Z;
  guardCalls : list string;
}.

Inductive response :=
| TooManyAttempts             (* 429 *)
| MissingPassword             (* 400 *)
| InvalidPassword             (* 401 *)
| LoggedIn (token : string).  (* 200 and the [admin_token] cookie *)

Section WithGuard.
(** [validateAdminPassword] on the credentials in store. *)
Variable validateAdminPassword : string -> bool.

(** [record.count >= MAX_ATTEMPTS] sets [record.lockedUntil]. *)
Definition lock_if_exhausted (now : Z) (record : attempt) : attempt :=
  if count record >=? MAX_ATTEMPTS
  then Attempt (count record) (firstAt record) (now + LOCK_TIME_MS)
  else record.

(** The update of [record] after a failed verification. *)
Definition record_failure (now : Z) (record : attempt) : attempt :=
  lock_if_exhausted now
    (if now - firstAt record >? ATTEMPT_WINDOW_MS
     then Attempt 1 now (lockedUntil record)
     else Attempt (count record + 1) (firstAt record) (lockedUntil record)).

(** [record.lockedUntil && now < record.lockedUntil] *)
Definition is_locked (now : Z) (record : attempt) : bool :=
  negb (lockedUntil record =? 0) && (now <? lockedUntil record).

(** The handler. [now] is [Date.now()], [ip] the client key, [password]
    the [password] property of the body ([None] when missing) and [token]
    the random token [createAdminToken] would draw. *)
Definition login (now : Z) (token : string) (ip : string) (password : option string)
    (st : state) : response * state :=
  let record := default (Attempt 0 now 0) (loginAttempts st !! ip) in
  if is_locked now record then (TooManyAttempts, st)
  else
    match password with
    | None | Some EmptyString => (MissingPassword, st)
    | Some pw =>
        let ok := validateAdminPassword pw in
        let calls := guardCalls st ++ [pw] in
        if negb ok then
          (InvalidPassword,
           State (<[ip := record_failure now record]> (loginAttempts st))
                 (adminTokens st) calls)
        else
          let '(tok, tokens) := Admin.createAdminToken now token (adminTokens st) in
          (LoggedIn tok, State (delete ip (loginAttempts st)) tokens calls)
    end.

(** A client sending one request after the other. *)
Fixpoint login_all (token : string) (ip : string) (reqs : list (Z * option string))
    (st : state) : list response * state :=
  match reqs with
  | [] => ([], st)
  | (now, password) :: rest =>
      let '(r, st1) := login now token ip password st in
      let '(rs, st2) := login_all token ip rest st1 in
      (r :: rs, st2)
  end.

End WithGuard.

End Login.

(** Unfolds what a connection shows and how it is written to. *)
Ltac conn_simpl := repeat (unfold Maria.view, Maria.write; simpl).

(** ** Sample data *)

Module Samples.

(** Document ids as [collection.doc()] could have drawn them. *)
Definition sample_ids : Firestore.auto_ids :=
  Firestore.AutoIds "order-doc-1" (fun k => "tx-doc-" +:+ Js.toString (Z.of_nat k)).

Definition retry_ids : Firestore.auto_ids :=
  Firestore.AutoIds "order-doc-2" (fun k => "tx-doc-retry-" +:+ Js.toString (Z.of_nat k)).

(** A stand-in for the key derivation, for running the guard: the bytes of
    the salt followed by those of the password. *)
Definition toy_kdf (password salt : string) (iterations keylen : Z) (digest : string)
  : option (list Byte.byte) :=
  Some (String.list_byte_of_string (salt +:+ password)).

(** A credential table seeded with the password "hunter2" and the salt
    "NaCl" under [toy_kdf]. *)
Definition toy_credentials : Admin.cred_store :=
  Admin.CredStore
    (Some (<["admin_hash" := Some "4e61436c68756e74657232"]>
          (<["admin_salt" := Some "NaCl"]> ∅))).

End Samples.

(** ** The admin gate of the HTTP boundary ([index.js]) *)

Module Gate.
Import Js.

(** The two headers [tokenFromReq] reads; [None] is a header that is not
    sent. *)
Record request := Request {
  authorization : option string;
  cookie : option string;
}.

(** [s.split(sep)] for a separator of one character. *)
Fixpoint split_on (sep : ascii) (s : list ascii) : list (list ascii) :=
  match s with
  | [] => [[]]
  | c :: r =>
      if decide (c = sep) then [] :: split_on sep r
      else
        match split_on sep r with
        | p :: ps => (c :: p) :: ps
        | [] => [[c]]
        end
  end.

Definition split (sep : ascii) (s : string) : list string :=
  string_of_list_ascii <$> split_on sep (list_ascii_of_string s).

(** The rest of [s] after the prefix [p]. *)
Fixpoint strip_prefix (p s : list ascii) : option (list ascii) :=
  match p, s with
  | [], _ => Some s
  | a :: p', b :: s' => if decide (a = b) then strip_prefix p' s' else None
  | _ :: _, [] => None
  end.

(** The longest run of characters other than [;], as [[^;]+] takes it. *)
Fixpoint value_run (s : list ascii) : list ascii :=
  match s with
  | c :: r => if decide (c = ";"%char) then [] else c :: value_run r
  | [] => []
  end.

Definition cookie_value (s : list ascii) : option (list ascii) :=
  match value_run s with
  | [] => None
  | v => Some v
  end.

(** [/(^|; )admin_token=([^;]+)/] tried at one position: group 2 when it
    matches there. [at_start] says whether the position is the beginning of
    the input, where [^] matches. *)
Definition match_at (at_start : bool) (s : list ascii) : option (list ascii) :=
  let anchored :=
    if at_start
    then strip_prefix (list_ascii_of_string "admin_token=") s ≫= cookie_value
    else None in
  match anchored with
  | Some v => Some v
  | None => strip_prefix (list_ascii_of_string "; admin_token=") s ≫= cookie_value
  end.

(** [cookieHeader.match(...)]: the match at the leftmost position. *)
Fixpoint match_from (at_start : bool) (s : list ascii) : option (list ascii) :=
  match match_at at_start s with
  | Some v => Some v
  | None =>
      match s with
      | [] => None
      | _ :: r => match_from false r
      end
  end.

(** [tokenFromReq(req)]; [None] is [null]. *)
Definition tokenFromReq (req : request) : option string :=
  let auth := default "" (authorization req) in
  match split " " auth with
  | [first; second] =>
      if decide (first = "Bearer") then Some second
      else
        string_of_list_ascii <$>
          match_from true (list_ascii_of_string (default "" (cookie req)))
  | _ =>
      string_of_list_ascii <$>
        match_from true (list_ascii_of_string (default "" (cookie req)))
  end.

(** [isAdminConfigured()]: whether the query finds a row [admin_hash];
    [false] when the query fails. *)
Definition isAdminConfigured (st : Admin.cred_store) : bool :=
  match Admin.meta_text st with
  | None => false
  | Some t => bool_decide (is_Some (t !! "admin_hash"))
  end.

(** What [requireAdmin] does with a request. *)
Inductive verdict :=
| Next                          (* [next()] *)
| Unauthorized                  (* 401 'Unauthorized' *)
| InvalidOrExpired.             (* 401 'Invalid or expired token' *)

(** [requireAdmin(req, res, next)]. [allow_unauth] is
    [process.env.ALLOW_UNAUTH_ADMIN], [now] is [Date.now()]. *)
Definition requireAdmin (allow_unauth : option string) (st : Admin.cred_store)
    (now : Z) (req : request) (adminTokens : gmap string Z)
  : verdict * gmap string Z :=
  if decide (allow_unauth = Some "true") then (Next, adminTokens)
  else if negb (isAdminConfigured st) then (Next, adminTokens)
  else
    match tokenFromReq req with
    | None | Some EmptyString => (Unauthorized, adminTokens)
    | Some token =>
        let '(ok, tokens) := Admin.validateAdminToken now token adminTokens in
        if ok then (Next, tokens) else (InvalidOrExpired, tokens)
    end.

(** [POST /api/admin/logout]: revokes the token of the request, if it
    carries one; the answer is [{ ok: true }] either way. *)
Definition logout (req : request) (adminTokens : gmap string Z) : gmap string Z :=
  match tokenFromReq req with
  | None | Some EmptyString => adminTokens
  | Some token => (Admin.revokeAdminToken token adminTokens).2
  end.

End Gate.

(** ** Catalog items: CRUD of [server/mariadb.js] and its routes *)

Module Items.
Import Js Catalog.

(** The body of an admin request, as [createItem] and [updateItem]
    destructure it. *)
Record payload := Payload {
  fields : item_fields;
  color : jsval;
  orderIndex : jsval;
}.

(** [a || b] *)
Definition js_or (a b : jsval) : jsval := if truthy a then a else b.

(** A row of [items]: the AUTO_INCREMENT id and the values bound to the
    statement that wrote it. *)
Record row := Row {
  r_id : Z;
  r_tab : jsval;
  r_category : jsval;
  r_name : jsval;
  r_dataName : jsval;
  r_price : jsval;
  r_color : jsval;
  r_orderIndex : jsval;
}.

(** The table in id order, and the id the next insert gets. *)
Record table := Table {
  next_id : Z;
  rows : list row;
}.

(** The object the CRUD functions return. *)
Record item_object := ItemObject {
  o_id : number;
  o_tab : jsval;
  o_category : jsval;
  o_name : jsval;
  o_dataName : jsval;
  o_price : number;
  o_color : jsval;
  o_orderIndex : jsval;
}.

Inductive error := QueryFailed.

(** The values bound to [INSERT] and [UPDATE], in the order of the
    placeholders:
    [[tab, category, name, dataName, price || 0, color || 'gray-600',
      orderIndex || 0]]. *)
Definition values (item : payload) : list jsval :=
  [tab (fields item); category (fields item); name (fields item);
   dataName (fields item);
   js_or (price (fields item)) (JNum (Fin 0%Q));
   js_or (color item) (JStr "gray-600");
   js_or (orderIndex item) (JNum (Fin 0%Q))].

Definition bound_row (id : Z) (item : payload) : row :=
  Row id (tab (fields item)) (category (fields item)) (name (fields item))
      (dataName (fields item))
      (js_or (price (fields item)) (JNum (Fin 0%Q)))
      (js_or (color item) (JStr "gray-600"))
      (js_or (orderIndex item) (JNum (Fin 0%Q))).

(** *** What the statement is once the driver has written the values in

    [pool.query(sql, values)] puts each value into the text of the
    statement: [undefined] and [null] as NULL, a number by its
    [toString()]. *)

(** The value is written NULL. *)
Definition is_null (v : jsval) : bool :=
  match v with
  | JUndefined | JNull => true
  | _ => false
  end.

(** The value is written as one of the bare words [NaN], [Infinity],
    [-Infinity]. They are no SQL literals: the server reads a column name
    and rejects the statement. *)
Definition bare_word (n : number) : bool :=
  match n with
  | Fin _ => false
  | NaN | PosInf | NegInf => true
  end.

Definition unwritable (item : payload) : bool :=
  existsb (fun v => match v with JNum n => bare_word n | _ => false end)
          (values item).

(** [tab], [category] and [name] are declared NOT NULL. *)
Definition null_in_not_null (item : payload) : bool :=
  is_null (tab (fields item)) || is_null (category (fields item)) ||
  is_null (name (fields item)).

(** [WHERE id = ?] on the INT column [id]. *)
Definition id_matches (id : number) (r : row) : bool :=
  match id with
  | Fin q => Qeq_bool q (inject_Z (r_id r))
  | NaN | PosInf | NegInf => false
  end.

(** The statements of the CRUD functions. *)
Inductive statement :=
| Insert (item : payload)
| Update (id : number) (item : payload)
| Delete (id : number).

Section WithServer.
(** The numeric value of a string, and the verdict of the database on a
    statement for reasons the model does not hold: the connection, the
    widths and types of the columns, the SQL mode. *)
Variable StringToNumber : string -> number.
Variable rejects : statement -> table -> bool.

(** [{ id, tab, category, name, dataName, price: Number(price || 0), color,
    orderIndex }] *)
Definition returned (id : number) (item : payload) : item_object :=
  ItemObject id (tab (fields item)) (category (fields item)) (name (fields item))
             (dataName (fields item))
             (Number StringToNumber (js_or (price (fields item)) (JNum (Fin 0%Q))))
             (color item) (orderIndex item).

(** [createItem(item)]. The insert is rejected when a value is written as
    a bare word or a NOT NULL column gets NULL; [id] is [res.insertId]. *)
Definition createItem (item : payload) (t : table)
  : result error item_object * table :=
  if unwritable item || null_in_not_null item || rejects (Insert item) t
  then (Throw QueryFailed, t)
  else
    (Ok (returned (Fin (inject_Z (next_id t))) item),
     Table (next_id t + 1) (rows t ++ [bound_row (next_id t) item])).

(** [updateItem(id, item)]: [UPDATE items SET ... WHERE id = ?]. The
    statement is rejected when the id or a value is written as a bare
    word, and when a row matches and a NOT NULL column would get NULL (the
    server in strict mode, its default). *)
Definition updateItem (id : number) (item : payload) (t : table)
  : result error item_object * table :=
  if bare_word id || unwritable item ||
     (null_in_not_null item && existsb (id_matches id) (rows t)) ||
     rejects (Update id item) t
  then (Throw QueryFailed, t)
  else
    (Ok (returned id item),
     Table (next_id t)
           ((fun r => if id_matches id r then bound_row (r_id r) item else r)
              <$> rows t)).

(** [deleteItem(id)]: [DELETE FROM items WHERE id = ?]; returns [{ id }]. *)
Definition deleteItem (id : number) (t : table)
  : result error number * table :=
  if bare_word id || rejects (Delete id) t
  then (Throw QueryFailed, t)
  else
    (Ok id, Table (next_id t) (filter (fun r => id_matches id r = false) (rows t))).

(** Answers of the admin routes. *)
Inductive response :=
| ItemJson (o : item_object)            (* 200 *)
| DeletedJson (id : number)             (* 200 [{ id }] *)
| ValidationFailed (details : list string)   (* 400 *)
| Rejected (v : Gate.verdict)           (* 401 *)
| InternalError.                        (* 500 *)

(** The handler of [POST /api/admin/items]. *)
Definition post_item (body : option payload) (t : table)
  : response * table :=
  match validateItemFields StringToNumber (fields <$> body), body with
  | [], Some item =>
      match createItem item t with
      | (Ok o, t') => (ItemJson o, t')
      | (Throw _, t') => (InternalError, t')
      end
  | [], None => (InternalError, t)
  | errs, _ => (ValidationFailed errs, t)
  end.

(** The handler of [PUT /api/admin/items/:id]; [id] is
    [Number(req.params.id)]. *)
Definition put_item (id : number) (body : option payload) (t : table)
  : response * table :=
  match validateItemFields StringToNumber (fields <$> body), body with
  | [], Some item =>
      match updateItem id item t with
      | (Ok o, t') => (ItemJson o, t')
      | (Throw _, t') => (InternalError, t')
      end
  | [], None => (InternalError, t)
  | errs, _ => (ValidationFailed errs, t)
  end.

(** The handler of [DELETE /api/admin/items/:id]; [id] is
    [Number(req.params.id)]. *)
Definition delete_item (id : number) (t : table)
  : response * table :=
  match deleteItem id t with
  | (Ok i, t') => (DeletedJson i, t')
  | (Throw _, t') => (InternalError, t')
  end.

(** A route behind [requireAdmin]: the handler runs when the middleware
    calls [next()]. *)
Definition behind_gate (allow_unauth : option string) (st : Admin.cred_store)
    (now : Z) (req : Gate.request) (handler : table -> response * table)
    (adminTokens : gmap string Z) (t : table)
  : response * gmap string Z * table :=
  match Gate.requireAdmin allow_unauth st now req adminTokens with
  | (Gate.Next, tokens) => let '(r, t') := handler t in (r, tokens, t')
  | (v, tokens) => (Rejected v, tokens, t)
  end.

End WithServer.

(** The primary key of [items]: no two rows share an id, and every id is
    below the next AUTO_INCREMENT value. *)
Definition well_keyed (t : table) : Prop :=
  NoDup (r_id <$> rows t) /\ Forall (fun r => r_id r < next_id t) (rows t).

End Items.

(** Sample servers and payloads. *)
Module Stock.

(** A database that is reachable and rejects no statement beyond the rules
    [Items] holds itself. *)
Definition accepting_server : Items.statement -> Items.table -> bool :=
  fun _ _ => false.

(** Sample rows: a raffle ticket as the start-up seeds it, and the ticket
    as an admin sends it, its colour and position left out. *)
Definition ticket_fields : Catalog.item_fields :=
  Catalog.ItemFields (Catalog.JStr "raffles") (Catalog.JStr "Raffles")
    (Catalog.JStr "Single Ticket") (Catalog.JStr "single_ticket")
    (Catalog.JNum (Catalog.Fin 1%Q)).

Definition ticket : Items.payload :=
  Items.Payload ticket_fields Catalog.JUndefined Catalog.JUndefined.

Definition pizza : Items.payload :=
  Items.Payload
    (Catalog.ItemFields (Catalog.JStr "concessions") (Catalog.JStr "Snacks")
       (Catalog.JStr "Pizza Slice") (Catalog.JStr "pizza")
       (Catalog.JNum (Catalog.Fin 3%Q)))
    (Catalog.JStr "gray-600") (Catalog.JNum (Catalog.Fin 1%Q)).

End Stock.

(** ** Start-up ([server/db.js]) *)

Module Boot.
Import Js.

Definition MAX_RETRIES : nat := 5.
Definition RETRY_DELAY_MS : Z := 3000.

(** How [testConnection] ends: connected at an attempt, or the error of
    the last attempt thrown; [FellThrough] is the end of the [for] loop
    reached without either. [waited] is the time spent in the delays. *)
Inductive outcome :=
| Connected (attempt : nat) (waited : Z)
| GaveUp (attempt : nat) (waited : Z)
| FellThrough.

(** The loop from [attempt] on, with [left] iterations to go; [reachable]
    says for each attempt whether the ping succeeds. *)
Fixpoint connect_from (reachable : nat -> bool) (attempt left : nat) (waited : Z)
  : outcome :=
  match left with
  | O => FellThrough
  | S l =>
      if reachable attempt then Connected attempt waited
      else if (attempt <? MAX_RETRIES)%nat
           then connect_from reachable (S attempt) l (waited + RETRY_DELAY_MS)
           else GaveUp attempt waited
  end.

(** [testConnection()]: [for (let attempt = 1; attempt <= MAX_RETRIES; attempt++)]. *)
Definition testConnection (reachable : nat -> bool) : outcome :=
  connect_from reachable 1 MAX_RETRIES 0.

(** What [initializeDatabase] works on, as far as it is modelled: the
    ledger, the items and the credential table. *)
Record database := Database {
  ledger : Maria.db;
  items : Items.table;
  credentials : Admin.cred_store;
}.

(** [process.env.ADMIN_PASSWORD] and [process.env.ADMIN_SALT]. *)
Record env := Env {
  ADMIN_PASSWORD : option string;
  ADMIN_SALT : option string;
}.

Inductive error :=
| Unreachable
| DerivationFailed.

(** [INSERT INTO meta (id, count) VALUES ('counter', 0)
    ON DUPLICATE KEY UPDATE count = count] *)
Definition seed_counter (d : Maria.db) : Maria.db :=
  match Maria.counter d with
  | Some _ => d
  | None => Maria.Db (Some 0) (Maria.orders d) (Maria.transactions d)
  end.

Section WithSeeds.
(** The rows of [seedItems], and the key derivation. *)
Variable seedItems : list Items.payload.
Variable pbkdf2Sync : string -> string -> Z -> Z -> string -> option (list Byte.byte).

(** [if (itemCount === 0)] the seed rows are inserted, in order. *)
Definition seed_items (t : Items.table) : Items.table :=
  match Items.rows t with
  | [] =>
      foldl (fun t item =>
               Items.Table (Items.next_id t + 1)
                           (Items.rows t ++ [Items.bound_row (Items.next_id t) item]))
            t seedItems
  | _ => t
  end.

(** [INSERT INTO meta_text (id, value) VALUES (?, ?)
    ON DUPLICATE KEY UPDATE value = VALUES(value)], the table being
    created first when it does not exist. *)
Definition upsert_text (id value : string) (st : Admin.cred_store) : Admin.cred_store :=
  Admin.CredStore (Some (<[id := Some value]> (default ∅ (Admin.meta_text st)))).

(** The block [if (process.env.ADMIN_PASSWORD && process.env.ADMIN_SALT)]. *)
Definition seed_credentials (e : env) (st : Admin.cred_store)
  : result error Admin.cred_store :=
  match ADMIN_PASSWORD e, ADMIN_SALT e with
  | Some (String _ _ as password), Some (String _ _ as salt) =>
      match pbkdf2Sync password salt Admin.ITERATIONS Admin.KEYLEN Admin.DIGEST with
      | None => Throw DerivationFailed
      | Some buf =>
          Ok (upsert_text "admin_salt" salt
                (upsert_text "admin_hash" (Admin.toString_hex buf) st))
      end
  | _, _ => Ok st
  end.

(** [initializeDatabase()], the statements succeeding. Each statement is
    committed on its own, so what ran before an exception stays. *)
Definition initializeDatabase (reachable : nat -> bool) (e : env) (db : database)
  : result error unit * database :=
  match testConnection reachable with
  | Connected _ _ =>
      let seeded :=
        Database (seed_counter (ledger db)) (seed_items (items db)) (credentials db) in
      match seed_credentials e (credentials db) with
      | Ok creds => (Ok (), Database (ledger seeded) (items seeded) creds)
      | Throw err => (Throw err, seeded)
      end
  | _ => (Throw Unreachable, db)
  end.

End WithSeeds.

End Boot.

(** ** A ledger over many submissions *)

Module Ledger.
Import Js Order.

(** One call of [submitOrder] on the relational backend: the calls that
    fail during it, the server's clock and the request body. *)
Record submission := Submission {
  s_faulty : Maria.op -> bool;
  s_now : Z;
  s_order : order_data;
}.

(** Submissions served one after the other. *)
Fixpoint submit_all (reqs : list submission) (d : Maria.db)
  : list (result Maria.error order) * Maria.db :=
  match reqs with
  | [] => ([], d)
  | q :: rest =>
      let '(r, d1) := Maria.submitOrder (s_faulty q) (s_now q) (s_order q) d in
      let '(rs, d2) := submit_all rest d1 in
      (r :: rs, d2)
  end.

(** The identifiers handed back by the submissions that returned. *)
Definition returned_ids (rs : list (result Maria.error order)) : list string :=
  omap (fun r => match r with Ok o => Some (orderId o) | Throw _ => None end) rs.

(** The ledger holds the orders of [c0 + 1], ..., [c0 + k] in that order,
    the counter is [c0 + k], and every transaction row belongs to an order
    (the foreign key of [transactions.orderId]). *)
Definition consistent (c0 : Z) (k : nat) (d : Maria.db) : Prop :=
  Maria.counter d = Some (c0 + Z.of_nat k) /\
  Maria.o_orderId <$> Maria.orders d = newOrderId <$> seqZ (c0 + 1) (Z.of_nat k) /\
  Forall (fun t => Maria.t_orderId t ∈ Maria.o_orderId <$> Maria.orders d)
         (Maria.transactions d).

End Ledger.

(** ** Facts about the built-ins *)

Section JsFacts.
Import Js.

(** Integers up to [MAX_SAFE_INTEGER] are doubles: sums and products that
    stay in this range are exact. *)
Lemma round53_safe (z : Z) : Z.abs z <= MAX_SAFE_INTEGER -> round53 z = z.
Proof.
  intros Hz. unfold round53. cbv zeta.
  destruct (Z.ltb_spec (Z.abs z) (2 ^ 53)) as [_|Hge]; [done|].
  unfold MAX_SAFE_INTEGER in Hz. change (2 ^ 53) with 9007199254740992 in Hge. lia.
Qed.

Lemma add_safe (a b : Z) : Z.abs (a + b) <= MAX_SAFE_INTEGER -> add a b = a + b.
Proof. apply round53_safe. Qed.


Lemma length_string_of_list_ascii (l : list ascii) :
  String.length (string_of_list_ascii l) = length l.
Proof. induction l as [|c l IH]; simpl; congruence. Qed.

Lemma length_list_ascii_of_string (s : string) :
  length (list_ascii_of_string s) = String.length s.
Proof. induction s as [|c s IH]; simpl; congruence. Qed.

Lemma list_ascii_of_string_app (s t : string) :
  list_ascii_of_string (s +:+ t) =
  list_ascii_of_string s ++ list_ascii_of_string t.
Proof.
  induction s as [|c s IH]; [reflexivity|].
  change (String c s +:+ t) with (String c (s +:+ t)).
  simpl. by rewrite IH.
Qed.

Lemma string_length_app (s t : string) :
  String.length (s +:+ t) = (String.length s + String.length t)%nat.
Proof.
  rewrite <- !length_list_ascii_of_string, list_ascii_of_string_app.
  apply length_app.
Qed.

Lemma dec_value_from_app (l k : list ascii) (a : Z) :
  dec_value_from a (l ++ k) = dec_value_from (dec_value_from a l) k.
Proof. revert a; induction l as [|c l IH]; intros a; simpl; auto. Qed.

Lemma digit_val_digit_char (d : Z) :
  0 <= d < 10 -> digit_val (digit_char d) = d.
Proof.
  intros Hd. unfold digit_val, digit_char.
  rewrite nat_ascii_embedding by lia. lia.
Qed.

(** Reading the printed digits back gives the number. *)
Lemma dec_value_from_digits (fuel : nat) (n : Z) :
  0 <= n < 10 ^ Z.of_nat fuel ->
  dec_value_from 0 (dec_digits fuel n) = n.
Proof.
  revert n. induction fuel as [|f IH]; intros n Hn.
  - simpl in *. lia.
  - simpl. destruct (Z.ltb_spec n 10) as [Hlt|Hge].
    + simpl. rewrite digit_val_digit_char by lia. lia.
    + rewrite dec_value_from_app. simpl.
      rewrite digit_val_digit_char by (apply Z.mod_pos_bound; lia).
      rewrite IH.
      * pose proof (Z.div_mod n 10). lia.
      * rewrite Nat2Z.inj_succ, Z.pow_succ_r in Hn by lia.
        split; [apply Z.div_pos; lia|].
        apply Z.div_lt_upper_bound; lia.
Qed.

Lemma dec_fuel_enough (n : Z) : 0 <= n -> n < 10 ^ Z.of_nat (dec_fuel n).
Proof.
  intros Hn. unfold dec_fuel.
  destruct (Z.eq_dec n 0) as [->|Hnz]; [simpl; lia|].
  pose proof (Z.log2_nonneg n) as Hl.
  rewrite Nat2Z.inj_succ, Z2Nat.id by lia.
  pose proof (Z.log2_spec n ltac:(lia)) as [_ Hub].
  eapply Z.lt_le_trans; [exact Hub|].
  apply Z.pow_le_mono_l. lia.
Qed.

(** Number of digits: below [10^k] at most [k], from [10^k] on more. *)
Lemma dec_digits_length_le (fuel : nat) (n : Z) (k : nat) :
  0 <= n < 10 ^ Z.of_nat (S k) ->
  (length (dec_digits fuel n) <= S k)%nat.
Proof.
  revert n k. induction fuel as [|f IH]; intros n k Hn; simpl; [lia|].
  destruct (Z.ltb_spec n 10) as [Hlt|Hge]; simpl; [lia|].
  rewrite length_app. simpl.
  destruct k as [|k].
  - simpl in Hn. lia.
  - specialize (IH (n / 10) k).
    rewrite (Nat2Z.inj_succ (S k)), Z.pow_succ_r in Hn by lia.
    assert (0 <= n / 10 < 10 ^ Z.of_nat (S k)).
    { split; [apply Z.div_pos; lia|apply Z.div_lt_upper_bound; lia]. }
    specialize (IH ltac:(done)). lia.
Qed.

Lemma dec_digits_length_gt (fuel : nat) (n : Z) (k : nat) :
  n < 10 ^ Z.of_nat fuel ->
  10 ^ Z.of_nat k <= n ->
  (k < length (dec_digits fuel n))%nat.
Proof.
  revert n k. induction fuel as [|f IH]; intros n k Hf Hn.
  - simpl in Hf. pose proof (Z.pow_pos_nonneg 10 (Z.of_nat k)). lia.
  - simpl. destruct (Z.ltb_spec n 10) as [Hlt|Hge].
    + simpl. destruct k as [|k]; [lia|].
      rewrite Nat2Z.inj_succ, Z.pow_succ_r in Hn by lia.
      pose proof (Z.pow_pos_nonneg 10 (Z.of_nat k)). lia.
    + rewrite length_app. simpl.
      destruct k as [|k]; [lia|].
      rewrite Nat2Z.inj_succ, Z.pow_succ_r in Hn, Hf by lia.
      specialize (IH (n / 10) k).
      assert (n / 10 < 10 ^ Z.of_nat f)
        by (apply Z.div_lt_upper_bound; lia).
      assert (10 ^ Z.of_nat k <= n / 10)
        by (apply Z.div_le_lower_bound; lia).
      specialize (IH ltac:(done) ltac:(done)). lia.
Qed.

Lemma dec_digits_nonempty (fuel : nat) (n : Z) :
  (0 < length (dec_digits (S fuel) n))%nat.
Proof.
  simpl. destruct (n <? 10); simpl; [lia|]. rewrite length_app. simpl. lia.
Qed.

Lemma fill_zero_value (k : nat) (cur : list ascii) (a : Z) :
  Forall (fun c => c = "0"%char) cur ->
  dec_value_from a (fill k cur ["0"%char]) = a * 10 ^ Z.of_nat (length (fill k cur ["0"%char])).
Proof.
  revert cur a. induction k as [|k IH]; intros cur a Hc; simpl; [lia|].
  destruct cur as [|c r].
  - cbn [dec_value_from length]. rewrite IH by constructor.
    rewrite Nat2Z.inj_succ, Z.pow_succ_r by lia.
    change (digit_val "0") with 0. lia.
  - inversion Hc; subst.
    cbn [dec_value_from length]. rewrite IH by done.
    rewrite Nat2Z.inj_succ, Z.pow_succ_r by lia.
    change (digit_val "0") with 0. lia.
Qed.

Lemma fill_length (k : nat) (c : ascii) (r : list ascii) :
  length (fill k [] (c :: r)) = k.
Proof.
  assert (H : forall k cur, length (fill k cur (c :: r)) = k).
  { clear k. induction k as [|k IH]; intros cur; simpl; [done|].
    destruct cur; simpl; by rewrite IH. }
  apply H.
Qed.

End JsFacts.

(** ** The relational backend: one submission *)

Section MariaSubmit.
Import Js Order Maria.

Variable faulty : op -> bool.

(** The item inserts never touch what is committed, keep the transaction
    open, and when none fails they append the rows in order. *)
Lemma insert_all_spec (rows : list tx_row) (k : nat) (c : conn) (w : db) :
  working c = Some w ->
  exists res w',
    insert_all faulty k rows c = (res, Conn (committed c) (Some w')) /\
    (forall u, res = Ok u ->
       w' = Db (counter w) (orders w) (transactions w ++ rows)).
Proof.
  revert k c w. induction rows as [|r rs IH]; intros k c w Hw.
  - exists (Ok ()), w. destruct c as [cm wk]; simpl in *; subst.
    split; [done|]. intros _ _. destruct w; simpl. by rewrite app_nil_r.
  - cbn [insert_all]. unfold insert_transaction, call.
    destruct (faulty (InsertItem k)) eqn:Hf.
    + destruct (IH (S k) c w Hw) as (res & w' & Hrun & _).
      rewrite Hrun. exists (Throw (DbError (InsertItem k))), w'.
      split; [done|]. intros u Hu; discriminate.
    + unfold write, view. rewrite Hw. simpl.
      set (w1 := Db (counter w) (orders w) (transactions w ++ [r])).
      destruct (IH (S k) (Conn (committed c) (Some w1)) w1 eq_refl)
        as (res & w' & Hrun & Hok).
      rewrite Hrun. simpl. exists res, w'. split; [done|].
      intros u Hu. rewrite (Hok u Hu). subst w1; simpl.
      by rewrite <- app_assoc.
Qed.

Lemma insert_all_no_fault (rows : list tx_row) (k : nat) (c : conn) (w : db) :
  working c = Some w ->
  insert_all no_fault k rows c =
    (Ok (), Conn (committed c)
                 (Some (Db (counter w) (orders w) (transactions w ++ rows)))).
Proof.
  revert k c w. induction rows as [|r rs IH]; intros k c w Hw.
  - destruct c as [cm wk]; simpl in *; subst. destruct w; simpl.
    by rewrite app_nil_r.
  - cbn [insert_all]. unfold insert_transaction, call, no_fault at 1.
    unfold write, view. rewrite Hw. simpl.
    erewrite IH by reflexivity. simpl. by rewrite <- app_assoc.
Qed.

(** What a submission that returns has done. *)
Lemma maria_submit_ok (now : Z) (od : order_data) (d d' : db) (o : order) :
  submitOrder faulty now od d = (Ok o, d') ->
  exists c its,
    counter d = Some c /\ items od = Some its /\
    (newOrderId (c + 1) ∉ (o_orderId <$> orders d)) /\
    o = MkOrder od (newOrderId (c + 1)) /\
    d' = Db (Some (c + 1))
            (orders d ++ [order_row_of now od (newOrderId (c + 1))])
            (transactions d ++ (tx_row_of (newOrderId (c + 1)) <$> its)).
Proof.
  unfold submitOrder. destruct (faulty GetConnection); [intros; discriminate|].
  unfold try_catch, submit_body, mbind, io_bind, mret, io_ret.
  unfold beginTransaction, select_counter, update_counter, insert_order,
    commit, rollback, throw, call.
  conn_simpl.
  destruct (faulty BeginTransaction); conn_simpl.
  { destruct (faulty Rollback); simpl; intros; discriminate. }
  destruct (faulty SelectCounter); conn_simpl.
  { destruct (faulty Rollback); simpl; intros; discriminate. }
  destruct (counter d) as [c|] eqn:Hc; conn_simpl.
  2:{ destruct (faulty Rollback); simpl; intros; discriminate. }
  destruct (faulty UpdateCounter); conn_simpl.
  { destruct (faulty Rollback); simpl; intros; discriminate. }
  destruct (faulty InsertOrder); conn_simpl.
  { destruct (faulty Rollback); simpl; intros; discriminate. }
  case_bool_decide as Hdup; conn_simpl.
  { destruct (faulty Rollback); simpl; intros; discriminate. }
  destruct (items od) as [its|] eqn:Hits; conn_simpl.
  2:{ destruct (faulty Rollback); simpl; intros; discriminate. }
  match goal with |- context [insert_all faulty 0 ?rows ?c] =>
    destruct (insert_all_spec rows 0 c _ eq_refl) as (res & w' & Hrun & Hok)
  end.
  rewrite Hrun. destruct res as [u|e]; conn_simpl.
  2:{ destruct (faulty Rollback); simpl; intros; discriminate. }
  destruct (faulty Commit); conn_simpl.
  { destruct (faulty Rollback); simpl; intros; discriminate. }
  intros [= <- <-]. exists c, its. rewrite (Hok u eq_refl). simpl.
  rewrite Hc. by repeat split.
Qed.

(** A submission that throws leaves the committed database as it was. *)
Lemma maria_submit_throw (now : Z) (od : order_data) (d d' : db) (e : error) :
  submitOrder faulty now od d = (Throw e, d') -> d' = d.
Proof.
  unfold submitOrder. destruct (faulty GetConnection); [by intros [= _ <-]|].
  unfold try_catch, submit_body, mbind, io_bind, mret, io_ret.
  unfold beginTransaction, select_counter, update_counter, insert_order,
    commit, rollback, throw, call.
  conn_simpl.
  destruct (faulty BeginTransaction); conn_simpl.
  { destruct (faulty Rollback); simpl; by intros [= _ <-]. }
  destruct (faulty SelectCounter); conn_simpl.
  { destruct (faulty Rollback); simpl; by intros [= _ <-]. }
  destruct (counter d) as [c|] eqn:Hc; conn_simpl.
  2:{ destruct (faulty Rollback); simpl; by intros [= _ <-]. }
  destruct (faulty UpdateCounter); conn_simpl.
  { destruct (faulty Rollback); simpl; by intros [= _ <-]. }
  destruct (faulty InsertOrder); conn_simpl.
  { destruct (faulty Rollback); simpl; by intros [= _ <-]. }
  case_bool_decide as Hdup; conn_simpl.
  { destruct (faulty Rollback); simpl; by intros [= _ <-]. }
  destruct (items od) as [its|] eqn:Hits; conn_simpl.
  2:{ destruct (faulty Rollback); simpl; by intros [= _ <-]. }
  match goal with |- context [insert_all faulty 0 ?rows ?c] =>
    destruct (insert_all_spec rows 0 c _ eq_refl) as (res & w' & Hrun & Hok)
  end.
  rewrite Hrun. destruct res as [u|e']; conn_simpl.
  2:{ destruct (faulty Rollback); simpl; by intros [= _ <-]. }
  destruct (faulty Commit); conn_simpl.
  { destruct (faulty Rollback); simpl; by intros [= _ <-]. }
  intros; discriminate.
Qed.

End MariaSubmit.

(** Without faults, a well-formed order on a seeded counter goes through. *)
Lemma maria_submit_succeeds (now : Z) (od : Order.order_data) (d : Maria.db)
    (c : Z) (its : list Order.item) :
  Maria.counter d = Some c ->
  Order.items od = Some its ->
  Order.newOrderId (c + 1) ∉ (Maria.o_orderId <$> Maria.orders d) ->
  Maria.submitOrder Maria.no_fault now od d =
    (Js.Ok (Order.MkOrder od (Order.newOrderId (c + 1))),
     Maria.Db (Some (c + 1))
       (Maria.orders d ++ [Maria.order_row_of now od (Order.newOrderId (c + 1))])
       (Maria.transactions d ++ (Maria.tx_row_of (Order.newOrderId (c + 1)) <$> its))).
Proof.
  intros Hc Hits Hfresh.
  unfold Maria.submitOrder, Maria.try_catch, Maria.submit_body.
  unfold mbind, Maria.io_bind, mret, Maria.io_ret.
  unfold Maria.beginTransaction, Maria.select_counter, Maria.update_counter,
    Maria.insert_order, Maria.commit, Maria.throw, Maria.call.
  conn_simpl. rewrite Hc. conn_simpl. rewrite bool_decide_eq_false_2 by done.
  rewrite Hits. conn_simpl.
  erewrite insert_all_no_fault by reflexivity.
  conn_simpl. rewrite ?Hc. reflexivity.
Qed.

(** ** The document backend: one submission *)

Section FirestoreSubmit.
Import Js Order Firestore.

Variable faulty : op -> bool.

Lemma firestore_submit_ok (ids : auto_ids) (ts : string) (od : order_data)
    (s s' : store) (o : order) :
  submitOrder faulty ids ts od s = (Ok o, s') ->
  exists its,
    let newCount := Js.add (default 0 (count s)) 1 in
    let id := newOrderId newCount in
    items od = Some its /\
    o = MkOrder od id /\
    s' = Store (Some newCount)
               (doc_set (order_doc_id ids) (order_doc ts od id) (orders s))
               (batch_set ids id 0 its (transactions s)).
Proof.
  unfold submitOrder.
  destruct (faulty RunTransaction); [intros; discriminate|].
  destruct (faulty SetOrder); [intros; discriminate|].
  destruct (items od) as [its|]; [|intros; discriminate].
  destruct (faulty BatchCommit); [intros; discriminate|].
  simpl. intros [= <- <-]. by exists its.
Qed.

End FirestoreSubmit.

Lemma firestore_submit_succeeds (ids : Firestore.auto_ids) (ts : string)
    (od : Order.order_data) (s : Firestore.store) (its : list Order.item) :
  Order.items od = Some its ->
  let newCount := Js.add (default 0 (Firestore.count s)) 1 in
  let id := Order.newOrderId newCount in
  Firestore.submitOrder Firestore.no_fault ids ts od s =
    (Js.Ok (Order.MkOrder od id),
     Firestore.Store (Some newCount)
       (Firestore.doc_set (Firestore.order_doc_id ids)
          (Firestore.order_doc ts od id) (Firestore.orders s))
       (Firestore.batch_set ids id 0 its (Firestore.transactions s))).
Proof.
  intros Hits. unfold Firestore.submitOrder, Firestore.no_fault. cbv zeta.
  cbn [Firestore.count Firestore.orders Firestore.transactions].
  by rewrite Hits.
Qed.

(** Below 2^53 the new count is the count plus one. *)
Lemma firestore_new_count (s : Firestore.store) :
  0 <= default 0 (Firestore.count s) < Js.MAX_SAFE_INTEGER ->
  Js.add (default 0 (Firestore.count s)) 1 = default 0 (Firestore.count s) + 1.
Proof. intros Hc. apply add_safe. lia. Qed.

(** ** The order identifier *)

Section OrderId.
Import Js Order.

Lemma toString_nonneg (n : Z) :
  0 <= n -> toString n = string_of_list_ascii (dec_digits (dec_fuel n) n).
Proof. intros Hn. unfold toString. by rewrite (proj2 (Z.ltb_ge n 0)). Qed.

Lemma digit_char_is_digit (d : Z) :
  0 <= d < 10 -> is_decimal_digit (digit_char d) = true.
Proof.
  intros Hd. unfold is_decimal_digit, digit_char.
  rewrite nat_ascii_embedding by lia.
  apply andb_true_iff; split; apply Nat.leb_le; lia.
Qed.

Lemma dec_digits_are_digits (fuel : nat) (n : Z) :
  0 <= n -> Forall (fun c => is_decimal_digit c = true) (dec_digits fuel n).
Proof.
  revert n. induction fuel as [|f IH]; intros n Hn; simpl; [constructor|].
  destruct (Z.ltb_spec n 10).
  - repeat constructor. apply digit_char_is_digit. lia.
  - apply Forall_app; split.
    + apply IH, Z.div_pos; lia.
    + repeat constructor. apply digit_char_is_digit, Z.mod_pos_bound. lia.
Qed.

Lemma toString_value (n : Z) : 0 <= n -> dec_value (toString n) = n.
Proof.
  intros Hn. rewrite toString_nonneg by done. unfold dec_value.
  rewrite list_ascii_of_string_of_list_ascii.
  apply dec_value_from_digits. split; [done|]. by apply dec_fuel_enough.
Qed.

Lemma toString_length_small (n : Z) (k : nat) :
  0 <= n < 10 ^ Z.of_nat (S k) -> (String.length (toString n) <= S k)%nat.
Proof.
  intros Hn. rewrite toString_nonneg by lia.
  rewrite length_string_of_list_ascii. by apply dec_digits_length_le.
Qed.

Lemma toString_length_large (n : Z) (k : nat) :
  10 ^ Z.of_nat k <= n -> (k < String.length (toString n))%nat.
Proof.
  intros Hn.
  assert (0 <= n) by (pose proof (Z.pow_pos_nonneg 10 (Z.of_nat k)); lia).
  rewrite toString_nonneg by lia. rewrite length_string_of_list_ascii.
  apply dec_digits_length_gt; [by apply dec_fuel_enough|done].
Qed.

Lemma toString_length_pos (n : Z) : (0 < String.length (toString n))%nat.
Proof.
  unfold toString. destruct (n <? 0); simpl; [lia|].
  rewrite length_string_of_list_ascii. apply dec_digits_nonempty.
Qed.

(** [padStart(4, "0")] puts zeros in front, as many as are missing. *)
Lemma padStart_zero (s : string) :
  padStart 4 "0" s =
  string_of_list_ascii (replicate (4 - String.length s) "0"%char) +:+ s.
Proof.
  unfold padStart. destruct (Nat.leb_spec 4 (String.length s)) as [Hle|Hlt].
  - replace (4 - String.length s)%nat with 0%nat by lia. reflexivity.
  - f_equal. f_equal. generalize (4 - String.length s)%nat. intros k.
    change (list_ascii_of_string "0") with ["0"%char].
    assert (H : forall cur, Forall (fun c => c = "0"%char) cur ->
                fill k cur ["0"%char] = replicate k "0"%char).
    { induction k as [|k IH]; intros cur Hc; [done|]. simpl.
      destruct cur as [|c r].
      - by rewrite IH.
      - inversion Hc; subst. by rewrite IH. }
    by apply H.
Qed.

Lemma dec_value_padded (k : nat) (s : string) :
  dec_value (string_of_list_ascii (replicate k "0"%char) +:+ s) = dec_value s.
Proof.
  unfold dec_value.
  rewrite list_ascii_of_string_app, list_ascii_of_string_of_list_ascii.
  rewrite dec_value_from_app. f_equal.
  induction k as [|k IH]; [done|]. simpl. exact IH.
Qed.

Lemma newOrderId_value (n : Z) : 0 <= n -> dec_value (newOrderId n) = n.
Proof.
  intros Hn. unfold newOrderId.
  by rewrite padStart_zero, dec_value_padded, toString_value.
Qed.

Lemma newOrderId_inj (n m : Z) :
  0 <= n -> 0 <= m -> newOrderId n = newOrderId m -> n = m.
Proof.
  intros Hn Hm Heq.
  rewrite <- (newOrderId_value n), <- (newOrderId_value m) by done.
  by rewrite Heq.
Qed.

Lemma newOrderId_length (n : Z) :
  String.length (newOrderId n) = (4 `max` String.length (toString n))%nat.
Proof.
  unfold newOrderId. rewrite padStart_zero, string_length_app.
  rewrite length_string_of_list_ascii, length_replicate. lia.
Qed.

End OrderId.

(** ** Documents of a collection *)

Section Collections.
Import Firestore.





End Collections.

(** ** Order identifiers, line totals and order totals *)

Example order_id_of_counter_41 : Order.newOrderId (41 + 1) = "0042".
Proof. reflexivity. Qed.

Example order_id_of_counter_9999 : Order.newOrderId (9999 + 1) = "10000".
Proof. reflexivity. Qed.

(** C6. A submission that starts from the counter value [c] is assigned, on
    both backends, the identifier made of the decimal digits of [c + 1]
    with zeros in front up to four characters: a submission whose calls
    all succeed returns with this identifier, and no submission returns
    with another. Up to 9999 the identifier has exactly four characters;
    from 10000 on it is the plain decimal, longer than four characters,
    never cut; and two counter values never give the same identifier. *)
Theorem order_id_format (c : Z) :
  0 <= c < Js.MAX_SAFE_INTEGER ->
  let digits := Js.toString (c + 1) in
  let id := Order.newOrderId (c + 1) in
  (forall now od d its,
     Maria.counter d = Some c ->
     Order.items od = Some its ->
     id ∉ (Maria.o_orderId <$> Maria.orders d) ->
     exists d',
       Maria.submitOrder Maria.no_fault now od d = (Js.Ok (Order.MkOrder od id), d')) /\
  (forall ids ts od s its,
     default 0 (Firestore.count s) = c ->
     Order.items od = Some its ->
     exists s',
       Firestore.submitOrder Firestore.no_fault ids ts od s
         = (Js.Ok (Order.MkOrder od id), s')) /\
  (forall faulty now od d d' o,
     Maria.counter d = Some c ->
     Maria.submitOrder faulty now od d = (Js.Ok o, d') ->
     Order.orderId o = id) /\
  (forall faulty ids ts od s s' o,
     default 0 (Firestore.count s) = c ->
     Firestore.submitOrder faulty ids ts od s = (Js.Ok o, s') ->
     Order.orderId o = id) /\
  Forall (fun ch => Js.is_decimal_digit ch = true) (list_ascii_of_string digits) /\
  Js.dec_value digits = c + 1 /\
  id = string_of_list_ascii (replicate (4 - String.length digits) "0"%char) +:+ digits /\
  (c + 1 < 10000 -> String.length id = 4%nat) /\
  (10000 <= c + 1 -> id = digits /\ (4 < String.length id)%nat) /\
  (forall c', 0 <= c' -> Order.newOrderId (c' + 1) = id -> c' = c).
Proof.
  intros Hc digits id.
  assert (Hadd : forall s, default 0 (Firestore.count s) = c ->
                           Js.add (default 0 (Firestore.count s)) 1 = c + 1).
  { intros s Hs. rewrite firestore_new_count by (rewrite Hs; lia). by rewrite Hs. }
  split_and!.
  - intros now od d its Hd Hits Hfresh. eexists.
    apply (maria_submit_succeeds now od d c its Hd Hits Hfresh).
  - intros ids ts od s its Hs Hits. eexists.
    rewrite (firestore_submit_succeeds ids ts od s its Hits). cbv zeta.
    by rewrite (Hadd s Hs).
  - intros faulty now od d d' o Hd Hrun.
    apply maria_submit_ok in Hrun as (c0 & its & Hc0 & _ & _ & -> & _).
    rewrite Hd in Hc0. by injection Hc0 as <-.
  - intros faulty ids ts od s s' o Hs Hrun.
    apply firestore_submit_ok in Hrun as (its & _ & -> & _).
    cbv zeta. cbn [Order.orderId]. by rewrite (Hadd s Hs).
  - subst digits. rewrite toString_nonneg by lia.
    rewrite list_ascii_of_string_of_list_ascii.
    apply dec_digits_are_digits. lia.
  - apply toString_value. lia.
  - apply padStart_zero.
  - intros Hsmall. subst id. rewrite newOrderId_length.
    pose proof (toString_length_small (c + 1) 3 ltac:(simpl; lia)). lia.
  - intros Hlarge. split.
    + subst id digits. unfold Order.newOrderId. rewrite padStart_zero.
      pose proof (toString_length_large (c + 1) 4 ltac:(simpl; lia)).
      replace (4 - String.length (Js.toString (c + 1)))%nat with 0%nat by lia.
      reflexivity.
    + subst id. rewrite newOrderId_length.
      pose proof (toString_length_large (c + 1) 4 ltac:(simpl; lia)). lia.
  - intros c' Hc' Heq. apply newOrderId_inj in Heq; lia.
Qed.

Lemma order_id_format_witness :
  (exists d',
     Maria.submitOrder Maria.no_fault 100
       (Order.OrderData 8 "Cash" (Some [Order.Item "Water" 4 2]))
       (Maria.Db (Some 9999) [] [])
     = (Js.Ok (Order.MkOrder (Order.OrderData 8 "Cash" (Some [Order.Item "Water" 4 2]))
                 "10000"), d')) /\
  (exists s',
     Firestore.submitOrder Firestore.no_fault Samples.sample_ids "t1"
       (Order.OrderData 8 "Cash" (Some [Order.Item "Water" 4 2]))
       (Firestore.Store (Some 41) [] [])
     = (Js.Ok (Order.MkOrder (Order.OrderData 8 "Cash" (Some [Order.Item "Water" 4 2]))
                 "0042"), s')) /\
  (4 < String.length (Order.newOrderId (9999 + 1)))%nat.
Proof.
  assert (H : 0 <= 9999 < Js.MAX_SAFE_INTEGER) by (unfold Js.MAX_SAFE_INTEGER; lia).
  assert (H' : 0 <= 41 < Js.MAX_SAFE_INTEGER) by (unfold Js.MAX_SAFE_INTEGER; lia).
  destruct (order_id_format 9999 H) as (HM & _ & _ & _ & _ & _ & _ & _ & Hlong & _).
  destruct (order_id_format 41 H') as (_ & HF & _).
  split; [|split].
  - apply (HM 100 _ (Maria.Db (Some 9999) [] []) [Order.Item "Water" 4 2]);
      [reflexivity|reflexivity|apply not_elem_of_nil].
  - apply (HF Samples.sample_ids "t1" _ (Firestore.Store (Some 41) [] [])
              [Order.Item "Water" 4 2]); reflexivity.
  - apply Hlong. lia.
Defined.





(** ** Atomicity of a submission *)

(** On the relational backend a submission that fails, at whichever call
    and for whichever reason, throws and leaves counter, orders and
    transactions as they were: reads see what they saw before, and the next
    submission is assigned the identifier the failed one would have had. *)
Lemma maria_submit_atomic (faulty : Maria.op -> bool) (now : Z)
    (od : Order.order_data) (d d' : Maria.db) (e : Maria.error) :
  Maria.submitOrder faulty now od d = (Js.Throw e, d') ->
  Maria.counter d' = Maria.counter d /\
  Maria.orders d' = Maria.orders d /\
  Maria.transactions d' = Maria.transactions d /\
  Maria.getOrders d' = Maria.getOrders d /\
  forall faulty2 now2 od2,
    Maria.submitOrder faulty2 now2 od2 d' = Maria.submitOrder faulty2 now2 od2 d.
Proof. intros H. apply maria_submit_throw in H as ->. by repeat split. Qed.

(** C1, on the document backend. A request body without [items] reaches
    [submitOrder] while the counter is 41 and no call to the store fails:
    the counter transaction and the write of the order document have
    happened when [orderData.items.forEach] throws. The counter stays at
    42, [getOrders] returns the header of order "0042", which has no item
    document, and the client's retry is assigned "0043". *)
Theorem firestore_failed_submission_consumes_id :
  let s := Firestore.Store (Some 41) [] [] in
  let body := Order.OrderData 8 "Cash" None in
  let retry := Order.OrderData 8 "Cash" (Some [Order.Item "Water" 4 2]) in
  exists e s' o s'',
    Firestore.submitOrder Firestore.no_fault Samples.sample_ids "t1" body s = (Js.Throw e, s') /\
    Firestore.count s' = Some 42 /\
    (exists doc, Firestore.getOrders s' = [doc] /\
                 doc !! "orderId" = Some (Firestore.VStr "0042")) /\
    Firestore.transactions s' = [] /\
    Firestore.submitOrder Firestore.no_fault Samples.retry_ids "t2" retry s' = (Js.Ok o, s'') /\
    Order.orderId o = "0043".
Proof.
  simpl. do 4 eexists.
  split; [reflexivity|]. split; [reflexivity|].
  split; [eexists; split; reflexivity|].
  split; [reflexivity|]. split; reflexivity.
Qed.

(** The same happens with a well-formed body when the write of the order
    document is the call that fails: the counter has moved. *)
Lemma firestore_failed_write_consumes_id (ids : Firestore.auto_ids) (ts : string)
    (od : Order.order_data) (s : Firestore.store) :
  0 <= default 0 (Firestore.count s) < Js.MAX_SAFE_INTEGER ->
  let faulty := fun o => match o with Firestore.SetOrder => true | _ => false end in
  exists e s',
    Firestore.submitOrder faulty ids ts od s = (Js.Throw e, s') /\
    Firestore.count s' = Some (default 0 (Firestore.count s) + 1).
Proof.
  intros Hc faulty. unfold Firestore.submitOrder. subst faulty. cbv beta iota zeta.
  do 2 eexists. split; [reflexivity|].
  cbn [Firestore.count]. by rewrite firestore_new_count.
Qed.

(** ** Concurrent submissions *)

Section SequencerFacts.
Import Order Sequencer.

Lemma assigned_ids_insert_none (ts : list task) (i : nat) (t t' : task) :
  ts !! i = Some t -> assigned_id t = None -> assigned_id t' = None ->
  assigned_ids (<[i := t']> ts) = assigned_ids ts.
Proof.
  revert i. induction ts as [|a ts IH]; intros i Hi Ht Ht'; [done|].
  destruct i as [|i]; simpl in *.
  - injection Hi as ->. unfold assigned_ids; simpl. by rewrite Ht, Ht'.
  - unfold assigned_ids in *; simpl. by rewrite (IH i).
Qed.

Lemma assigned_ids_insert_some (ts : list task) (i : nat) (t : task) (id : string) :
  ts !! i = Some t -> assigned_id t = None ->
  assigned_ids (<[i := Assigned id]> ts) ≡ₚ assigned_ids ts ++ [id].
Proof.
  revert i. induction ts as [|a ts IH]; intros i Hi Ht; [done|].
  destruct i as [|i]; simpl in *.
  - injection Hi as ->. unfold assigned_ids; simpl. rewrite Ht.
    by rewrite Permutation_app_comm.
  - unfold assigned_ids in *; simpl. destruct (assigned_id a); simpl.
    + by rewrite (IH i).
    + by apply IH.
Qed.

Lemma init_invariant (b : backend) (c : Z) (n : nat) : invariant b c n (init c n).
Proof.
  split; simpl.
  - f_equal. lia.
  - done.
  - unfold assigned_ids. induction n; simpl; done.
  - apply length_replicate.
  - intros _ j cur Hj. apply lookup_replicate in Hj as [? _]. discriminate.
  - discriminate.
Qed.

(** A step keeps the invariant. *)
Lemma fire_invariant (b : backend) (c : Z) (n i : nat) (w w' : world) :
  invariant b c n w -> fire b i w = Some w' -> invariant b c n w'.
Proof.
  intros [Hcnt Hiss Hasg Hlen Hin Hhold]. unfold fire.
  destruct (tasks w !! i) as [t|] eqn:Hi; [|discriminate].
  assert (Hlt : (i < length (tasks w))%nat) by (by eapply lookup_lt_Some).
  destruct t as [|cur|id|]; [| |discriminate|discriminate].
  - (* the submission reads the counter *)
    destruct b.
    + destruct (locked w) eqn:Hl; [discriminate|].
      rewrite Hcnt. intros [= <-]. split; simpl.
      * done.
      * done.
      * by rewrite (assigned_ids_insert_none _ _ Pending).
      * by rewrite length_insert.
      * intros _ j cur Hj.
        destruct (decide (j = i)) as [->|Hne].
        -- rewrite list_lookup_insert_eq in Hj by done. injection Hj as <-.
           split; [done|]. split; [done|]. intros k cur' Hk.
           destruct (decide (k = i)) as [->|Hne]; [done|].
           rewrite list_lookup_insert_ne in Hk by done.
           destruct (Hin eq_refl k cur' Hk) as [? _]. congruence.
        -- rewrite list_lookup_insert_ne in Hj by done.
           destruct (Hin eq_refl j cur Hj) as [? _]. congruence.
      * intros _. split; [done|]. exists i, (c + Z.of_nat (length (issued w))).
        by rewrite list_lookup_insert_eq.
    + intros [= <-]. split; simpl; try done.
      * by rewrite (assigned_ids_insert_none _ _ Pending).
      * by rewrite length_insert.
      * intros Hl. destruct (Hhold Hl) as [? _]. discriminate.
  - (* the submission commits *)
    assert (Hnew : forall cur0, cur0 = c + Z.of_nat (length (issued w)) ->
      issued w ++ [newOrderId (cur0 + 1)] =
      newOrderId <$> seqZ (c + 1) (Z.of_nat (length (issued w ++ [newOrderId (cur0 + 1)])))).
    { intros cur0 ->. rewrite length_app. simpl.
      rewrite Nat.add_1_r, seqZ_S, fmap_app, <- Hiss. simpl.
      do 3 f_equal. lia. }
    destruct b.
    + destruct (Hin eq_refl i cur Hi) as (Hl & Hcur & Huniq).
      intros [= <-]. split; simpl.
      * rewrite Hcnt. simpl. rewrite length_app. simpl. f_equal. lia.
      * by apply Hnew.
      * rewrite (assigned_ids_insert_some _ _ (InTx cur)) by done.
        by rewrite Hasg.
      * by rewrite length_insert.
      * intros _ j cur' Hj.
        destruct (decide (j = i)) as [->|Hne].
        -- rewrite list_lookup_insert_eq in Hj by done. discriminate.
        -- rewrite list_lookup_insert_ne in Hj by done.
           specialize (Huniq j cur' Hj). congruence.
      * discriminate.
    + destruct (decide (default 0 (counter w) = cur)) as [Hsame|Hdiff].
      * rewrite Hcnt in Hsame. simpl in Hsame. subst cur.
        intros [= <-]. split; simpl.
        -- rewrite length_app. simpl. f_equal. lia.
        -- by apply Hnew.
        -- rewrite (assigned_ids_insert_some _ _ (InTx (c + Z.of_nat (length (issued w))))) by done.
           by rewrite Hasg.
        -- by rewrite length_insert.
        -- discriminate.
        -- intros Hl. destruct (Hhold Hl) as [? _]. discriminate.
      * intros [= <-]. split; simpl; try done.
        -- by rewrite (assigned_ids_insert_none _ _ (InTx cur)).
        -- by rewrite length_insert.
        -- intros Hl. destruct (Hhold Hl) as [? _]. discriminate.
Qed.

Lemma run_invariant (b : backend) (c : Z) (n : nat) (schedule : list nat) (w : world) :
  invariant b c n w -> invariant b c n (run b schedule w).
Proof.
  revert w. induction schedule as [|i sch IH]; intros w Hw; [done|].
  simpl. apply IH. destruct (fire b i w) as [w'|] eqn:Hf; simpl; [|done].
  by eapply fire_invariant.
Qed.

Lemma all_assigned_length (ts : list task) :
  all_assigned ts = true -> length (assigned_ids ts) = length ts.
Proof.
  unfold all_assigned, assigned_ids. induction ts as [|t ts IH]; [done|].
  simpl. intros [Ht Hts]%andb_true_iff.
  apply bool_decide_eq_true in Ht as [id Hid]. rewrite Hid. simpl.
  f_equal. by apply IH.
Qed.

Lemma issued_NoDup (c : Z) (k : Z) :
  0 <= c -> NoDup (newOrderId <$> seqZ (c + 1) k).
Proof.
  intros Hc. apply NoDup_fmap_2_strong; [|apply NoDup_seqZ].
  intros x y [Hx _]%elem_of_seqZ [Hy _]%elem_of_seqZ Heq.
  apply newOrderId_inj in Heq; lia.
Qed.

(** Submissions taken one after the other all get their id. *)
Lemma one_by_one_from (b : backend) (m : nat) (done : list task) (w : world) :
  tasks w = done ++ replicate m Pending ->
  all_assigned done = true ->
  locked w = false ->
  is_Some (counter w) ->
  all_assigned (tasks (run b (i ← seq (length done) m; [i; i]) w)) = true.
Proof.
  revert done w. induction m as [|m IH]; intros done w Hts Hdone Hl [x Hx].
  - simpl in *. by rewrite Hts, app_nil_r.
  - simpl.
    assert (Hi : tasks w !! length done = Some Pending).
    { rewrite Hts, lookup_app_r by lia. by rewrite Nat.sub_diag. }
    assert (Hins : forall t, <[length done := t]> (tasks w) =
                             (done ++ [t]) ++ replicate m Pending).
    { intros t. rewrite Hts. rewrite insert_app_r_alt by lia.
      rewrite Nat.sub_diag. simpl. by rewrite <- app_assoc. }
    assert (Hdone' : forall id, all_assigned (done ++ [Assigned id]) = true).
    { intros id. unfold all_assigned in *. rewrite forallb_app, Hdone. done. }
    assert (Hlen : forall t, length (done ++ [t]) = S (length done)).
    { intros t. rewrite length_app. simpl. lia. }
    assert (Hlt : (length done < length (tasks w))%nat).
    { rewrite Hts, length_app; simpl; lia. }
    set (id := newOrderId (x + 1)).
    assert (Hstep : exists w2,
      default (default w (fire b (length done) w))
              (fire b (length done) (default w (fire b (length done) w))) = w2 /\
      tasks w2 = (done ++ [Assigned id]) ++ replicate m Pending /\
      locked w2 = false /\ is_Some (counter w2)).
    { destruct b.
      - assert (H1 : fire MariaDB (length done) w =
                     Some (World (counter w) true (issued w)
                                 (<[length done := InTx x]> (tasks w)))).
        { unfold fire. by rewrite Hi, Hl, Hx. }
        rewrite H1. simpl. unfold fire. simpl.
        rewrite list_lookup_insert_eq by done. simpl.
        eexists. split; [reflexivity|]. simpl.
        rewrite list_insert_insert_eq, Hins, Hx. by repeat split.
      - assert (H1 : fire Firestore (length done) w =
                     Some (set_task (length done) (InTx x) w)).
        { unfold fire. by rewrite Hi, Hx. }
        rewrite H1. simpl. unfold fire. simpl.
        rewrite list_lookup_insert_eq by done. rewrite Hx. simpl.
        rewrite decide_True by done.
        eexists. split; [reflexivity|]. simpl.
        rewrite list_insert_insert_eq, Hins. by repeat split. }
    destruct Hstep as (w2 & -> & Hts2 & Hl2 & Hc2).
    rewrite <- (Hlen (Assigned id)).
    by apply IH.
Qed.

(** For every batch there is an interleaving in which every submission is
    assigned an id. *)
Lemma one_by_one_completes (b : backend) (c : Z) (n : nat) :
  all_assigned (tasks (run b (one_by_one n) (init c n))) = true.
Proof.
  unfold one_by_one.
  apply (one_by_one_from b n [] (init c n)); first [done | by eexists].
Qed.

(** No interleaving gets stuck: while a submission is unfinished, some
    submission can move. *)
Lemma no_deadlock (b : backend) (c : Z) (n : nat) (schedule : list nat) :
  let w := run b schedule (init c n) in
  existsb unfinished (tasks w) = true ->
  exists i w', fire b i w = Some w'.
Proof.
  intros w Hex.
  assert (Hinv : invariant b c n w) by apply run_invariant, init_invariant.
  destruct Hinv as [Hcnt _ _ _ Hin Hhold].
  apply existsb_exists in Hex as (t & Ht & Hun).
  apply list_elem_of_In, list_elem_of_lookup in Ht as [i Hi].
  destruct (locked w) eqn:Hl.
  - destruct (Hhold eq_refl) as (-> & j & cur & Hj).
    exists j. unfold fire. rewrite Hj. by eexists.
  - exists i. unfold fire. rewrite Hi, Hl, Hcnt.
    destruct t; try discriminate; destruct b; simpl; try by eexists.
    destruct (decide _); by eexists.
Qed.

End SequencerFacts.

(** C2, as amended. [n] submissions arrive while the counter is [c] and
    run interleaved in any order, on either backend. Once all of them have
    been assigned an id, the ids issued are those of [c + 1], ...,
    [c + n] in the order in which the transactions committed, no id occurs
    twice, the submissions hold exactly these ids and the counter is
    [c + n]. At every step of the interleaving a submission that commits
    does so on the counter value that is current, having read this very
    value, and is assigned the id after it; so no two submissions commit
    on the same value. On MariaDB no two submissions hold a value they
    have read at the same time. *)
Theorem concurrent_ids_gapless (b : Sequencer.backend) (c : Z) (n : nat)
    (schedule : list nat) :
  0 <= c ->
  c + Z.of_nat n <= Js.MAX_SAFE_INTEGER ->
  Sequencer.all_assigned
    (Sequencer.tasks (Sequencer.run b schedule (Sequencer.init c n))) = true ->
  let w := Sequencer.run b schedule (Sequencer.init c n) in
  Sequencer.issued w = Order.newOrderId <$> seqZ (c + 1) (Z.of_nat n) /\
  NoDup (Sequencer.issued w) /\
  Sequencer.assigned_ids (Sequencer.tasks w) ≡ₚ Sequencer.issued w /\
  NoDup (Sequencer.assigned_ids (Sequencer.tasks w)) /\
  Sequencer.counter w = Some (c + Z.of_nat n) /\
  (forall before i after w2,
     schedule = before ++ i :: after ->
     let w1 := Sequencer.run b before (Sequencer.init c n) in
     Sequencer.fire b i w1 = Some w2 ->
     (Sequencer.issued w2 = Sequencer.issued w1 /\
      Sequencer.counter w2 = Sequencer.counter w1) \/
     exists cur,
       Sequencer.tasks w1 !! i = Some (Sequencer.InTx cur) /\
       Sequencer.counter w1 = Some cur /\
       Sequencer.counter w2 = Some (cur + 1) /\
       Sequencer.issued w2 = Sequencer.issued w1 ++ [Order.newOrderId (cur + 1)] /\
       Sequencer.tasks w2 !! i = Some (Sequencer.Assigned (Order.newOrderId (cur + 1)))) /\
  (b = Sequencer.MariaDB ->
   forall before after i j ci cj,
     schedule = before ++ after ->
     let w1 := Sequencer.run b before (Sequencer.init c n) in
     Sequencer.tasks w1 !! i = Some (Sequencer.InTx ci) ->
     Sequencer.tasks w1 !! j = Some (Sequencer.InTx cj) ->
     i = j).
Proof.
  intros Hc _ Hall w.
  assert (Hinv : Sequencer.invariant b c n w)
    by apply run_invariant, init_invariant.
  destruct Hinv as [Hcnt Hiss Hasg Hlen _ _].
  assert (Hn : length (Sequencer.issued w) = n).
  { rewrite <- Hasg, all_assigned_length by done. done. }
  rewrite Hn in Hcnt, Hiss.
  assert (Hnd : NoDup (Sequencer.issued w))
    by (rewrite Hiss; by apply issued_NoDup).
  split_and!; try done.
  - by rewrite Hasg.
  - intros before i after w2 _ w1 Hfire.
    assert (Hinv1 : Sequencer.invariant b c n w1)
      by apply run_invariant, init_invariant.
    destruct Hinv1 as [Hcnt1 _ _ _ Hin1 _].
    unfold Sequencer.fire in Hfire.
    destruct (Sequencer.tasks w1 !! i) as [t|] eqn:Hi; [|discriminate].
    assert (Hlt : (i < length (Sequencer.tasks w1))%nat) by (by eapply lookup_lt_Some).
    destruct t as [|cur|id|]; [| |discriminate|discriminate].
    + left. destruct b.
      * destruct (Sequencer.locked w1); [discriminate|].
        destruct (Sequencer.counter w1); by injection Hfire as <-.
      * by injection Hfire as <-.
    + destruct b.
      * right. exists cur.
        destruct (Hin1 eq_refl i cur Hi) as (_ & -> & _).
        injection Hfire as <-. cbn. rewrite Hcnt1. cbn.
        split_and!; try done. by apply list_lookup_insert_eq.
      * destruct (decide (default 0 (Sequencer.counter w1) = cur)) as [Hcur|Hcur].
        -- right. exists cur. injection Hfire as <-. cbn.
           rewrite Hcnt1 in Hcur |- *. cbn in Hcur. subst cur.
           split_and!; try done. by apply list_lookup_insert_eq.
        -- left. by injection Hfire as <-.
  - intros Hb before after i j ci cj _ w1 Hi Hj.
    assert (Hinv1 : Sequencer.invariant b c n w1)
      by apply run_invariant, init_invariant.
    destruct Hinv1 as [_ _ _ _ Hin1 _].
    destruct (Hin1 Hb j cj Hj) as (_ & _ & Huniq). by apply (Huniq i ci).
Qed.

Lemma concurrent_ids_gapless_witness :
  (Sequencer.issued
     (Sequencer.run Sequencer.MariaDB [0; 1; 1; 0; 2; 1; 2; 1; 1]%nat (Sequencer.init 41 3))
   = ["0042"; "0043"; "0044"] /\
   Sequencer.assigned_ids
     (Sequencer.tasks
        (Sequencer.run Sequencer.MariaDB [0; 1; 1; 0; 2; 1; 2; 1; 1]%nat
           (Sequencer.init 41 3)))
   ≡ₚ ["0042"; "0043"; "0044"]) /\
  (Sequencer.issued
     (Sequencer.run Sequencer.Firestore [0; 1; 0; 1; 1; 1]%nat (Sequencer.init 41 2))
   = ["0042"; "0043"] /\
   Sequencer.assigned_ids
     (Sequencer.tasks
        (Sequencer.run Sequencer.Firestore [0; 1; 0; 1; 1; 1]%nat (Sequencer.init 41 2)))
   ≡ₚ ["0042"; "0043"]).
Proof.
  pose proof (concurrent_ids_gapless Sequencer.MariaDB 41 3
                [0; 1; 1; 0; 2; 1; 2; 1; 1]%nat
                ltac:(lia) ltac:(unfold Js.MAX_SAFE_INTEGER; lia) eq_refl)
    as (H1 & _ & H3 & _).
  pose proof (concurrent_ids_gapless Sequencer.Firestore 41 2
                [0; 1; 0; 1; 1; 1]%nat
                ltac:(lia) ltac:(unfold Js.MAX_SAFE_INTEGER; lia) eq_refl)
    as (F1 & _ & F3 & _).
  split; (split; [first [exact H1|exact F1]|first [exact H3|exact F3]]).
Defined.

(** C2 as stated fails on the document backend, where two submissions can
    observe the same counter value: both read 41 before either commits.
    The one that commits first is assigned "0042"; the commit of the other
    finds the counter changed, so its update function runs again, reads 42
    and is assigned "0043". *)
Lemma firestore_submissions_read_same_counter :
  Sequencer.tasks (Sequencer.run Sequencer.Firestore [0; 1]%nat (Sequencer.init 41 2))
    = [Sequencer.InTx 41; Sequencer.InTx 41] /\
  Sequencer.tasks (Sequencer.run Sequencer.Firestore [0; 1; 0; 1]%nat (Sequencer.init 41 2))
    = [Sequencer.Assigned "0042"; Sequencer.Pending] /\
  Sequencer.tasks
    (Sequencer.run Sequencer.Firestore [0; 1; 0; 1; 1; 1]%nat (Sequencer.init 41 2))
    = [Sequencer.Assigned "0042"; Sequencer.Assigned "0043"].
Proof. split; [reflexivity|]. split; reflexivity. Qed.

(** ** Listing the orders *)

Section MariaGetOrders.
Import Order Maria.

Lemma map_push_item_last (m : orders_map) (k : string) (v : order_view) (it : item_view) :
  k ∉ m.*1 ->
  map_push_item k it (m ++ [(k, v)]) =
  m ++ [(k, OrderView (v_orderId v) (v_totalAmount v) (v_paymentType v)
                      (v_status v) (v_timestamp v) (v_items v ++ [it]))].
Proof.
  induction m as [|[k' v'] m IH]; intros Hk; simpl.
  - by rewrite decide_True.
  - rewrite fmap_cons, not_elem_of_cons in Hk. destruct Hk as [Hne Hk].
    rewrite decide_False by done. by rewrite IH.
Qed.

Lemma map_has_last (m : orders_map) (k : string) (v : order_view) :
  map_has k (m ++ [(k, v)]) = true.
Proof.
  unfold map_has. apply bool_decide_eq_true.
  rewrite fmap_app. apply elem_of_app. right. simpl. apply list_elem_of_here.
Qed.

(** The rows of one order, once its entry is the last of the map. *)
Lemma group_rows_of_order (o : order_row) (ts : list tx_row) (m : orders_map)
    (seen : list tx_row) :
  o_orderId o ∉ m.*1 ->
  foldl group_row (m ++ [(o_orderId o, order_view_of o seen)])
        ((fun t => joined o (Some t)) <$> ts) =
  m ++ [(o_orderId o,
         order_view_of o (seen ++ filter (fun t => t_item t <> "") ts))].
Proof.
  intros Hk. revert seen. induction ts as [|t ts IH]; intros seen.
  - simpl. by rewrite app_nil_r.
  - rewrite fmap_cons. cbn [foldl]. unfold group_row at 2.
    cbn [joined j_orderId j_item fmap option_fmap option_map].
    rewrite map_has_last.
    destruct (t_item t) as [|ch s] eqn:Hname.
    + rewrite IH. rewrite filter_cons_False by (rewrite Hname; naive_solver).
      done.
    + rewrite map_push_item_last by done.
      cbn [joined j_quantity j_itemTotal fmap option_fmap option_map default
           order_view_of v_orderId v_totalAmount v_paymentType v_status
           v_timestamp v_items].
      specialize (IH (seen ++ [t])).
      unfold order_view_of in IH at 1. rewrite fmap_app in IH.
      cbn [fmap list_fmap item_view_of] in IH. unfold item_view_of in IH at 2.
      rewrite Hname in IH. unfold id. rewrite IH.
      rewrite filter_cons_True by (rewrite Hname; done).
      by rewrite <- app_assoc.
Qed.

(** The rows the join yields for one order add its entry to the map. *)
Lemma group_order_block (d : db) (o : order_row) (m : orders_map) :
  o_orderId o ∉ m.*1 ->
  foldl group_row m
    (match rows_of d o with
     | [] => [joined o None]
     | ts => (fun t => joined o (Some t)) <$> ts
     end) =
  m ++ [(o_orderId o,
         order_view_of o (filter (fun t => t_item t <> "") (rows_of d o)))].
Proof.
  intros Hk.
  assert (Hnew : map_has (o_orderId o) m = false)
    by (by apply bool_decide_eq_false).
  destruct (rows_of d o) as [|t ts] eqn:Hrows.
  - simpl. unfold group_row. simpl. by rewrite Hnew.
  - pose proof (group_rows_of_order o (t :: ts) m [] Hk) as H.
    rewrite app_nil_l in H. rewrite <- H.
    rewrite fmap_cons. cbn [foldl]. f_equal.
    unfold group_row. cbn [joined j_orderId j_item].
    rewrite Hnew, map_has_last. reflexivity.
Qed.

Lemma group_all_orders (d : db) (os : list order_row) (m : orders_map) :
  NoDup (o_orderId <$> os) ->
  (forall o, o ∈ os -> o_orderId o ∉ m.*1) ->
  foldl group_row m
    (o ← os;
     match rows_of d o with
     | [] => [joined o None]
     | ts => (fun t => joined o (Some t)) <$> ts
     end) =
  m ++ ((fun o => (o_orderId o,
                   order_view_of o (filter (fun t => t_item t <> "") (rows_of d o))))
          <$> os).
Proof.
  revert m. induction os as [|o os IH]; intros m Hnd Hfresh.
  - simpl. by rewrite app_nil_r.
  - rewrite fmap_cons in Hnd. apply NoDup_cons in Hnd as [Ho Hnd].
    rewrite bind_cons, foldl_app.
    rewrite (group_order_block d o m) by (apply Hfresh; left).
    rewrite IH; [|done|].
    + rewrite fmap_cons. by rewrite <- app_assoc.
    + intros o' Ho'. rewrite fmap_app, elem_of_app. intros [Hin|Hin].
      * revert Hin. apply Hfresh. by right.
      * simpl in Hin. apply list_elem_of_singleton in Hin.
        apply Ho. rewrite <- Hin. by apply list_elem_of_fmap_2.
Qed.

Lemma getOrders_named_items (d : db) :
  NoDup (o_orderId <$> orders d) ->
  getOrders d = listOrders_named_items d.
Proof.
  intros Hnd. unfold getOrders, listOrders_named_items.
  change (select_orders_join d) with
    (o ← reverse (orders d);
     match rows_of d o with
     | [] => [joined o None]
     | ts => (fun t => joined o (Some t)) <$> ts
     end).
  rewrite (group_all_orders d (reverse (orders d)) []).
  - simpl. rewrite <- list_fmap_compose. reflexivity.
  - by rewrite fmap_reverse, reverse_Permutation.
  - intros o _. simpl. apply not_elem_of_nil.
Qed.

End MariaGetOrders.

Lemma filter_all {A} (P : A -> Prop) `{!forall x, Decision (P x)} (l : list A) :
  Forall P l -> filter P l = l.
Proof.
  induction 1 as [|x l Hx _ IH]; [done|].
  rewrite filter_cons_True by done. by rewrite IH.
Qed.


(** The UNIQUE constraint on [orders.orderId] holds after every
    submission when it held before. *)
Lemma maria_submit_keeps_unique (faulty : Maria.op -> bool) (now : Z)
    (od : Order.order_data) (d d' : Maria.db) (r : Js.result Maria.error Order.order) :
  NoDup (Maria.o_orderId <$> Maria.orders d) ->
  Maria.submitOrder faulty now od d = (r, d') ->
  NoDup (Maria.o_orderId <$> Maria.orders d').
Proof.
  intros Hnd Hrun. destruct r as [o|e].
  - apply maria_submit_ok in Hrun as (c & its & _ & _ & Hfresh & _ & ->).
    simpl. rewrite fmap_app. apply NoDup_app. split; [done|]. split.
    + intros x Hx Hx'. simpl in Hx'. apply list_elem_of_singleton in Hx'.
      by subst x.
    + simpl. apply NoDup_singleton.
  - by apply maria_submit_throw in Hrun as ->.
Qed.



(** C7. The listing loses line items that are stored. On the relational
    backend an order submitted with an item whose name is the empty string
    is stored with that line item, and [getOrders] lists the order without
    it: the test [if (row.item)], which is there for the empty row of the
    LEFT JOIN, drops it. On the document backend [getOrders] returns the
    order documents alone: the order submitted with one item is listed
    without an [items] property, its item document staying in the other
    collection. *)
Theorem getOrders_not_as_specified :
  (let d := (Maria.submitOrder Maria.no_fault 100
               (Order.OrderData 2 "Cash" (Some [Order.Item "" 1 2]))
               (Maria.Db (Some 41) [] [])).2 in
   Maria.transactions d = [Maria.TxRow "0042" "" 1 2] /\
   Maria.getOrders d = [Maria.OrderView "0042" 2 "Cash" "paid" 100 []] /\
   Maria.getOrders d <> Maria.listOrders_as_specified d) /\
  (let s := (Firestore.submitOrder Firestore.no_fault Samples.sample_ids "t1"
               (Order.OrderData 8 "Cash" (Some [Order.Item "Water" 4 2]))
               (Firestore.Store (Some 41) [] [])).2 in
   exists doc,
     Firestore.getOrders s = [doc] /\
     doc !! "orderId" = Some (Firestore.VStr "0042") /\
     doc !! "items" = None /\
     length (Firestore.transactions s) = 1%nat).
Proof.
  split.
  - simpl. split; [reflexivity|]. split; [reflexivity|]. vm_compute. discriminate.
  - simpl. eexists. split; [reflexivity|]. by repeat split.
Qed.

(** ** Catalog validation *)

Section CatalogFacts.
Import Js Catalog.

Variable StringToNumber : string -> number.

Lemma string_length_zero (s : string) : (String.length s =? 0)%nat = true <-> s = "".
Proof. destruct s; simpl; split; intros; done. Qed.

Lemma bad_tab_spec (v : jsval) : bad_tab v = true <-> ~ valid_tab v.
Proof.
  unfold bad_tab, valid_tab, strict_eq_string.
  destruct v as [| |b|n|s|p]; simpl;
    try (rewrite ?orb_true_r; split; [intros _ [?|?]; discriminate|done]).
  repeat case_bool_decide; subst; simpl; rewrite ?orb_false_r, ?orb_true_r.
  - split; [discriminate|]. intros Hv. exfalso. apply Hv. by left.
  - split; [discriminate|]. intros Hv. exfalso. apply Hv. by left.
  - split; [discriminate|]. intros Hv. exfalso. apply Hv. by right.
  - split; [|done]. intros _ [[= ?]|[= ?]]; done.
Qed.

Lemma blank_spec (v : jsval) : blank v = true <-> ~ nonblank v.
Proof.
  unfold blank, nonblank.
  destruct v as [| |b|n|s|p]; simpl;
    try (rewrite ?orb_true_r; split; [intros _ (? & ? & _); discriminate|done]).
  rewrite orb_false_r. split.
  - intros H (s' & [= <-] & Hne). apply orb_true_iff in H as [H|H].
    + apply negb_true_iff, negb_false_iff, string_length_zero in H.
      subst s. by apply Hne.
    + by apply string_length_zero in H.
  - intros H. apply orb_true_iff. right. apply string_length_zero.
    destruct (decide (trim s = "")) as [|Hne]; [done|].
    destruct H. by exists s.
Qed.

Lemma nan_or_negative_spec (p : number) :
  nan_or_negative p = true <-> ~ non_negative p.
Proof.
  destruct p as [|q| |]; simpl; try (split; [by auto|done]).
  unfold Qle. simpl. rewrite Z.ltb_lt. lia.
Qed.

Lemma validateItemFields_errs_of (it : item_fields) :
  validateItemFields StringToNumber (Some it) =
  errs_of (bad_tab (tab it)) (blank (category it)) (blank (name it))
          (blank (dataName it)) (nan_or_negative (Number StringToNumber (price it))).
Proof. reflexivity. Qed.

Lemma errs_of_members (b1 b2 b3 b4 b5 : bool) :
  bool_decide (msg_tab ∈ errs_of b1 b2 b3 b4 b5) = b1 /\
  bool_decide (msg_category ∈ errs_of b1 b2 b3 b4 b5) = b2 /\
  bool_decide (msg_name ∈ errs_of b1 b2 b3 b4 b5) = b3 /\
  bool_decide (msg_dataName ∈ errs_of b1 b2 b3 b4 b5) = b4 /\
  bool_decide (msg_price ∈ errs_of b1 b2 b3 b4 b5) = b5 /\
  errs_of b1 b2 b3 b4 b5 =
    (if b1 then [msg_tab] else []) ++ (if b2 then [msg_category] else []) ++
    (if b3 then [msg_name] else []) ++ (if b4 then [msg_dataName] else []) ++
    (if b5 then [msg_price] else []).
Proof. destruct b1, b2, b3, b4, b5; vm_compute; done. Qed.

Lemma bad_tab_false (v : jsval) : bad_tab v = false -> valid_tab v.
Proof.
  unfold bad_tab, valid_tab, strict_eq_string.
  destruct v as [| |b|n|s|p]; simpl; rewrite ?orb_true_r; try discriminate.
  repeat case_bool_decide; subst; simpl; rewrite ?orb_true_r;
    first [discriminate | by left | by right].
Qed.

Lemma blank_false (v : jsval) : blank v = false -> nonblank v.
Proof.
  unfold blank, nonblank.
  destruct v as [| |b|n|s|p]; simpl; rewrite ?orb_true_r; try discriminate.
  rewrite orb_false_r. intros [_ H]%orb_false_iff. exists s. split; [done|].
  intros Hs. apply string_length_zero in Hs. congruence.
Qed.

Lemma nan_or_negative_false (p : number) :
  nan_or_negative p = false -> non_negative p.
Proof.
  destruct p as [|q| |]; simpl; try done.
  unfold Qle. simpl. rewrite Z.ltb_ge. lia.
Qed.

End CatalogFacts.

(** C9. [validateItemFields] is a function of the payload alone. For a
    missing payload it returns the one message about it. Otherwise the
    list holds, in the order of the rules, the message of every rule the
    item violates and no other: [tab] must be 'raffles' or 'concessions';
    [category], [name] and [dataName] must be strings that are not empty
    after trimming; [Number(price)] must be a number that is not negative.
    The list is empty exactly when no rule is violated, and an item with a
    missing or foreign [tab], an empty [name] and a negative [price] gets
    the three messages in one call. *)
Theorem validateItemFields_lists_every_violation (StringToNumber : string -> Catalog.number) :
  Catalog.validateItemFields StringToNumber None = [Catalog.msg_payload] /\
  forall it : Catalog.item_fields,
    let errs := Catalog.validateItemFields StringToNumber (Some it) in
    let p := Catalog.Number StringToNumber (Catalog.price it) in
    (Catalog.msg_tab ∈ errs <-> ~ Catalog.valid_tab (Catalog.tab it)) /\
    (Catalog.msg_category ∈ errs <-> ~ Catalog.nonblank (Catalog.category it)) /\
    (Catalog.msg_name ∈ errs <-> ~ Catalog.nonblank (Catalog.name it)) /\
    (Catalog.msg_dataName ∈ errs <-> ~ Catalog.nonblank (Catalog.dataName it)) /\
    (Catalog.msg_price ∈ errs <-> ~ Catalog.non_negative p) /\
    errs =
      (if Catalog.bad_tab (Catalog.tab it) then [Catalog.msg_tab] else []) ++
      (if Catalog.blank (Catalog.category it) then [Catalog.msg_category] else []) ++
      (if Catalog.blank (Catalog.name it) then [Catalog.msg_name] else []) ++
      (if Catalog.blank (Catalog.dataName it) then [Catalog.msg_dataName] else []) ++
      (if Catalog.nan_or_negative p then [Catalog.msg_price] else []) /\
    (errs = [] <->
       Catalog.valid_tab (Catalog.tab it) /\ Catalog.nonblank (Catalog.category it) /\
       Catalog.nonblank (Catalog.name it) /\ Catalog.nonblank (Catalog.dataName it) /\
       Catalog.non_negative p) /\
    ((Catalog.tab it = Catalog.JUndefined \/ Catalog.tab it = Catalog.JStr "other") ->
     Catalog.name it = Catalog.JStr "" ->
     (exists q, Catalog.price it = Catalog.JNum (Catalog.Fin q) /\ (q < 0)%Q) ->
     Catalog.msg_tab ∈ errs /\ Catalog.msg_name ∈ errs /\ Catalog.msg_price ∈ errs).
Proof.
  split; [reflexivity|]. intros it errs p.
  assert (Herrs : errs = Catalog.errs_of (Catalog.bad_tab (Catalog.tab it))
            (Catalog.blank (Catalog.category it)) (Catalog.blank (Catalog.name it))
            (Catalog.blank (Catalog.dataName it)) (Catalog.nan_or_negative p))
    by reflexivity.
  destruct (errs_of_members (Catalog.bad_tab (Catalog.tab it))
              (Catalog.blank (Catalog.category it)) (Catalog.blank (Catalog.name it))
              (Catalog.blank (Catalog.dataName it)) (Catalog.nan_or_negative p))
    as (H1 & H2 & H3 & H4 & H5 & Hcat).
  rewrite <- Herrs in H1, H2, H3, H4, H5, Hcat.
  assert (M1 : Catalog.msg_tab ∈ errs <-> ~ Catalog.valid_tab (Catalog.tab it)).
  { rewrite <- bad_tab_spec, <- H1. by rewrite bool_decide_eq_true. }
  assert (M2 : Catalog.msg_category ∈ errs <-> ~ Catalog.nonblank (Catalog.category it)).
  { rewrite <- blank_spec, <- H2. by rewrite bool_decide_eq_true. }
  assert (M3 : Catalog.msg_name ∈ errs <-> ~ Catalog.nonblank (Catalog.name it)).
  { rewrite <- blank_spec, <- H3. by rewrite bool_decide_eq_true. }
  assert (M4 : Catalog.msg_dataName ∈ errs <-> ~ Catalog.nonblank (Catalog.dataName it)).
  { rewrite <- blank_spec, <- H4. by rewrite bool_decide_eq_true. }
  assert (M5 : Catalog.msg_price ∈ errs <-> ~ Catalog.non_negative p).
  { rewrite <- nan_or_negative_spec, <- H5. by rewrite bool_decide_eq_true. }
  split; [exact M1|]. split; [exact M2|]. split; [exact M3|].
  split; [exact M4|]. split; [exact M5|]. split; [exact Hcat|]. split.
  - split.
    + intros Hnil. rewrite Hnil in H1, H2, H3, H4, H5.
      repeat split;
        [apply bad_tab_false|apply blank_false|apply blank_false
        |apply blank_false|apply nan_or_negative_false]; by symmetry.
    + intros (V1 & V2 & V3 & V4 & V5). rewrite Hcat.
      destruct (Catalog.bad_tab _) eqn:B1; [by apply bad_tab_spec in B1|].
      destruct (Catalog.blank (Catalog.category it)) eqn:B2; [by apply blank_spec in B2|].
      destruct (Catalog.blank (Catalog.name it)) eqn:B3; [by apply blank_spec in B3|].
      destruct (Catalog.blank (Catalog.dataName it)) eqn:B4; [by apply blank_spec in B4|].
      destruct (Catalog.nan_or_negative p) eqn:B5; [by apply nan_or_negative_spec in B5|].
      reflexivity.
  - intros Htab Hname (q & Hprice & Hq). split; [|split].
    + apply M1. intros [Hv|Hv]; destruct Htab as [Ht|Ht]; congruence.
    + apply M3. intros (s & Hs & Hne). rewrite Hname in Hs.
      injection Hs as <-. by apply Hne.
    + apply M5. subst p. rewrite Hprice. simpl. by apply Qlt_not_le.
Qed.

Lemma validateItemFields_lists_every_violation_witness :
  Catalog.msg_tab ∈
    Catalog.validateItemFields (fun _ => Catalog.NaN)
      (Some (Catalog.ItemFields (Catalog.JStr "other") (Catalog.JStr "Snacks")
               (Catalog.JStr "") (Catalog.JStr "pizza")
               (Catalog.JNum (Catalog.Fin (-1))))) /\
  Catalog.msg_name ∈
    Catalog.validateItemFields (fun _ => Catalog.NaN)
      (Some (Catalog.ItemFields (Catalog.JStr "other") (Catalog.JStr "Snacks")
               (Catalog.JStr "") (Catalog.JStr "pizza")
               (Catalog.JNum (Catalog.Fin (-1))))) /\
  Catalog.msg_price ∈
    Catalog.validateItemFields (fun _ => Catalog.NaN)
      (Some (Catalog.ItemFields (Catalog.JStr "other") (Catalog.JStr "Snacks")
               (Catalog.JStr "") (Catalog.JStr "pizza")
               (Catalog.JNum (Catalog.Fin (-1))))).
Proof.
  refine (proj2 (proj2 (proj2 (proj2 (proj2 (proj2 (proj2
    (proj2 (validateItemFields_lists_every_violation (fun _ => Catalog.NaN))
       (Catalog.ItemFields (Catalog.JStr "other") (Catalog.JStr "Snacks")
          (Catalog.JStr "") (Catalog.JStr "pizza")
          (Catalog.JNum (Catalog.Fin (-1)))))))))))
    (or_intror eq_refl) eq_refl _).
  exists (-1)%Q. split; [reflexivity|]. reflexivity.
Defined.

Example validate_three_violations :
  Catalog.validateItemFields (fun _ => Catalog.NaN)
    (Some (Catalog.ItemFields Catalog.JUndefined (Catalog.JStr "Snacks")
             (Catalog.JStr "") (Catalog.JStr "pizza")
             (Catalog.JNum (Catalog.Fin (-1))))) =
  [Catalog.msg_tab; Catalog.msg_name; Catalog.msg_price].
Proof. reflexivity. Qed.

(** ** The credential guard *)

Section GuardFacts.
Import Js Admin.

Lemma hex_byte_roundtrip (b : Byte.byte) :
  let n := Byte.to_N b in
  hex_val (hex_digit (n / 16)) = Some (n / 16)%N /\
  hex_val (hex_digit (n mod 16)) = Some (n mod 16)%N /\
  Byte.of_N (16 * (n / 16) + n mod 16) = Some b.
Proof. destruct b; vm_compute; done. Qed.

(** Decoding the hexadecimal form of a buffer gives the buffer back. *)
Lemma Buffer_from_hex_toString_hex (buf : list Byte.byte) :
  Buffer_from_hex (toString_hex buf) = buf.
Proof.
  unfold Buffer_from_hex, toString_hex.
  rewrite list_ascii_of_string_of_list_ascii.
  induction buf as [|b buf IH]; [done|].
  rewrite bind_cons. cbn [app decode_hex].
  destruct (hex_byte_roundtrip b) as (-> & -> & ->). by rewrite IH.
Qed.

Lemma timingSafeEqual_true (a b : list Byte.byte) :
  timingSafeEqual a b = Ok true <-> a = b.
Proof.
  unfold timingSafeEqual. destruct (decide (length a = length b)) as [Hl|Hl].
  - split.
    + intros [= H]. by apply bool_decide_eq_true in H.
    + intros ->. by rewrite bool_decide_eq_true_2.
  - split; [discriminate|]. intros ->. done.
Qed.

Lemma falsy_false (s : option string) :
  falsy s = false <-> exists v, s = Some v /\ v <> "".
Proof.
  destruct s as [[|c r]|]; simpl; split; try discriminate.
  - intros (v & [= <-] & Hv). done.
  - intros _. by eexists.
  - done.
  - intros (v & ? & _). discriminate.
Qed.

Variable pbkdf2Sync : string -> string -> Z -> Z -> string -> option (list Byte.byte).

Lemma validateAdminPassword_true (password : string) (st : cred_store) :
  validateAdminPassword pbkdf2Sync password st = true <->
  exists t hash salt buf,
    meta_text st = Some t /\
    t !! "admin_hash" = Some (Some hash) /\ hash <> "" /\
    t !! "admin_salt" = Some (Some salt) /\ salt <> "" /\
    pbkdf2Sync password salt 100000 64 "sha512" = Some buf /\
    Buffer_from_hex hash = buf.
Proof.
  unfold validateAdminPassword, validate_body, select_value.
  destruct (meta_text st) as [t|] eqn:Ht; simpl.
  2:{ split; [discriminate|]. intros (? & ? & ? & ? & ? & _). discriminate. }
  destruct (falsy (mjoin (t !! "admin_hash"))) eqn:Fh; simpl.
  { split; [discriminate|]. intros (t' & hash & salt & buf & [= <-] & Hh & Hne & _).
    rewrite Hh in Fh. simpl in Fh. destruct hash; [done|discriminate]. }
  destruct (falsy (mjoin (t !! "admin_salt"))) eqn:Fs; simpl.
  { split; [discriminate|]. intros (t' & hash & salt & buf & [= <-] & _ & _ & Hs & Hne & _).
    rewrite Hs in Fs. simpl in Fs. destruct salt; [done|discriminate]. }
  apply falsy_false in Fh as (hash & Hh & Hhne).
  apply falsy_false in Fs as (salt & Hs & Hsne).
  rewrite Hh, Hs. simpl.
  assert (Hh' : t !! "admin_hash" = Some (Some hash)).
  { destruct (t !! "admin_hash") as [[?|]|]; simpl in Hh; congruence. }
  assert (Hs' : t !! "admin_salt" = Some (Some salt)).
  { destruct (t !! "admin_salt") as [[?|]|]; simpl in Hs; congruence. }
  change ITERATIONS with 100000. change KEYLEN with 64. change DIGEST with "sha512".
  destruct (pbkdf2Sync password salt 100000 64 "sha512") as [buf|] eqn:Hk.
  - rewrite Buffer_from_hex_toString_hex. split.
    + intros Hv. exists t, hash, salt, buf. repeat split; try done.
      destruct (timingSafeEqual buf (Buffer_from_hex hash)) as [r|e] eqn:Hcmp;
        [|discriminate].
      subst r. by apply timingSafeEqual_true in Hcmp.
    + intros (t' & hash' & salt' & buf' & [= <-] & Hh2 & _ & Hs2 & _ & Hk2 & Heq).
      rewrite Hh' in Hh2. rewrite Hs' in Hs2.
      injection Hh2 as <-. injection Hs2 as <-.
      rewrite Hk in Hk2. injection Hk2 as <-.
      by rewrite (proj2 (timingSafeEqual_true buf (Buffer_from_hex hash))).
  - split; [discriminate|].
    intros (t' & hash' & salt' & buf' & [= <-] & _ & _ & Hs2 & _ & Hk2 & _).
    rewrite Hs' in Hs2. injection Hs2 as <-. congruence.
Qed.

End GuardFacts.

(** C3. [validateAdminPassword] returns [true] exactly when hash and salt
    are stored and not empty, PBKDF2 of the submitted password under the
    stored salt with 100000 iterations, 64 bytes and SHA-512 succeeds, and
    its bytes are the bytes the stored hash stands for. It returns [false]
    when hash or salt is missing, when the query fails and when the
    derivation throws; whatever the store and the password, it returns a
    boolean. *)
Theorem validateAdminPassword_spec
    (pbkdf2Sync : string -> string -> Z -> Z -> string -> option (list Byte.byte))
    (password : string) (st : Admin.cred_store) :
  (Admin.validateAdminPassword pbkdf2Sync password st = true <->
   exists t hash salt buf,
     Admin.meta_text st = Some t /\
     t !! "admin_hash" = Some (Some hash) /\ hash <> "" /\
     t !! "admin_salt" = Some (Some salt) /\ salt <> "" /\
     pbkdf2Sync password salt 100000 64 "sha512" = Some buf /\
     Admin.Buffer_from_hex hash = buf) /\
  (forall t,
     Admin.meta_text st = Some t ->
     Admin.falsy (mjoin (t !! "admin_hash")) = true \/
     Admin.falsy (mjoin (t !! "admin_salt")) = true ->
     Admin.validateAdminPassword pbkdf2Sync password st = false) /\
  (Admin.meta_text st = None ->
   Admin.validateAdminPassword pbkdf2Sync password st = false) /\
  (forall t salt,
     Admin.meta_text st = Some t ->
     t !! "admin_salt" = Some (Some salt) ->
     pbkdf2Sync password salt 100000 64 "sha512" = None ->
     Admin.validateAdminPassword pbkdf2Sync password st = false) /\
  (forall t salt buf,
     Admin.meta_text st = Some t ->
     t !! "admin_salt" = Some (Some salt) -> salt <> "" ->
     pbkdf2Sync password salt 100000 64 "sha512" = Some buf ->
     buf <> [] ->
     t !! "admin_hash" = Some (Some (Admin.toString_hex buf)) ->
     Admin.validateAdminPassword pbkdf2Sync password st = true).
Proof.
  pose proof (validateAdminPassword_true pbkdf2Sync password st) as Hiff.
  split; [exact Hiff|].
  assert (Hfalse : forall P : Prop,
    (Admin.validateAdminPassword pbkdf2Sync password st = true -> P) -> ~ P ->
    Admin.validateAdminPassword pbkdf2Sync password st = false).
  { intros P HP HnP. destruct (Admin.validateAdminPassword _ _ _); [|done].
    destruct HnP. by apply HP. }
  repeat split.
  - intros t Ht Hf. apply (Hfalse _ (proj1 Hiff)).
    intros (t' & hash & salt & buf & Ht' & Hh & Hhne & Hs & Hsne & _).
    rewrite Ht in Ht'. injection Ht' as <-.
    rewrite Hh, Hs in Hf. simpl in Hf.
    destruct hash, salt; simpl in Hf; try done; destruct Hf; discriminate.
  - intros Ht. apply (Hfalse _ (proj1 Hiff)).
    intros (t' & ? & ? & ? & Ht' & _). congruence.
  - intros t salt Ht Hs Hk. apply (Hfalse _ (proj1 Hiff)).
    intros (t' & hash & salt' & buf & Ht' & _ & _ & Hs' & _ & Hk' & _).
    rewrite Ht in Ht'. injection Ht' as <-. rewrite Hs in Hs'.
    injection Hs' as <-. congruence.
  - intros t salt buf Ht Hs Hsne Hk Hbuf Hh. apply Hiff.
    exists t, (Admin.toString_hex buf), salt, buf. repeat split; try done.
    + destruct buf; [done|]. discriminate.
    + apply Buffer_from_hex_toString_hex.
Qed.

Lemma validateAdminPassword_spec_witness :
  Admin.validateAdminPassword Samples.toy_kdf "hunter2" Samples.toy_credentials = true /\
  Admin.validateAdminPassword Samples.toy_kdf "hunter3" Samples.toy_credentials = false.
Proof.
  split.
  - apply (proj1 (validateAdminPassword_spec Samples.toy_kdf "hunter2"
                    Samples.toy_credentials)).
    eexists _, "4e61436c68756e74657232", "NaCl", _.
    repeat split; try reflexivity; discriminate.
  - reflexivity.
Defined.

(** ** Session tokens *)

Section TokenFacts.
Import Admin.

Lemma validateAdminToken_stored (now : Z) (token : string) (m : gmap string Z) (exp : Z) :
  m !! token = Some exp -> exp <> 0 ->
  validateAdminToken now token m =
    if now >? exp then (false, delete token m)
    else (true, <[token := now + ADMIN_TOKEN_TTL]> m).
Proof.
  intros Hm Hexp. unfold validateAdminToken. rewrite Hm.
  by rewrite (proj2 (Z.eqb_neq exp 0)).
Qed.

Lemma validateAdminToken_absent (now : Z) (token : string) (m : gmap string Z) :
  m !! token = None -> validateAdminToken now token m = (false, m).
Proof. intros Hm. unfold validateAdminToken. by rewrite Hm. Qed.

Lemma validateAdminToken_true (now : Z) (token : string) (m m1 : gmap string Z) :
  validateAdminToken now token m = (true, m1) ->
  m1 = <[token := now + ADMIN_TOKEN_TTL]> m.
Proof.
  unfold validateAdminToken. destruct (m !! token) as [exp|]; [|discriminate].
  destruct (exp =? 0); [discriminate|].
  destruct (now >? exp); [discriminate|]. by intros [= <-].
Qed.

End TokenFacts.

(** C5. A token issued or validated at time [T] is stored with the expiry
    [T + TTL], [TTL] being 30 minutes. Validating it at any time up to
    [T + TTL] succeeds and moves the expiry to that time plus [TTL];
    validating it later than [T + TTL] fails and removes the entry, after
    which it is absent; validating an absent token fails and changes
    nothing. *)
Theorem token_sliding_expiry (tokens m1 : gmap string Z) (token : string) (T : Z) :
  0 <= T ->
  m1 = (Admin.createAdminToken T token tokens).2 \/
  Admin.validateAdminToken T token tokens = (true, m1) ->
  Admin.ADMIN_TOKEN_TTL = 30 * 60 * 1000 /\
  m1 !! token = Some (T + Admin.ADMIN_TOKEN_TTL) /\
  (forall T', T' <= T + Admin.ADMIN_TOKEN_TTL ->
     exists m2,
       Admin.validateAdminToken T' token m1 = (true, m2) /\
       m2 !! token = Some (T' + Admin.ADMIN_TOKEN_TTL)) /\
  (forall T', T + Admin.ADMIN_TOKEN_TTL < T' ->
     exists m2,
       Admin.validateAdminToken T' token m1 = (false, m2) /\
       m2 !! token = None /\
       forall T'', Admin.validateAdminToken T'' token m2 = (false, m2)) /\
  (forall other now (m : gmap string Z),
     m !! other = None -> Admin.validateAdminToken now other m = (false, m)).
Proof.
  intros HT Hsrc.
  assert (Hm1 : m1 !! token = Some (T + Admin.ADMIN_TOKEN_TTL)).
  { destruct Hsrc as [->|Hv].
    - simpl. apply lookup_insert_eq.
    - apply validateAdminToken_true in Hv as ->. apply lookup_insert_eq. }
  assert (Hpos : T + Admin.ADMIN_TOKEN_TTL <> 0)
    by (unfold Admin.ADMIN_TOKEN_TTL; lia).
  split; [reflexivity|]. split; [exact Hm1|]. split; [|split].
  - intros T' HT'. eexists. split.
    + rewrite (validateAdminToken_stored T' token m1 _ Hm1 Hpos).
      destruct (Z.gtb_spec T' (T + Admin.ADMIN_TOKEN_TTL)); [lia|reflexivity].
    + apply lookup_insert_eq.
  - intros T' HT'. eexists. split; [|split].
    + rewrite (validateAdminToken_stored T' token m1 _ Hm1 Hpos).
      destruct (Z.gtb_spec T' (T + Admin.ADMIN_TOKEN_TTL)); [reflexivity|lia].
    + apply lookup_delete_eq.
    + intros T''. apply validateAdminToken_absent, lookup_delete_eq.
  - intros other now m. apply validateAdminToken_absent.
Qed.

Lemma token_sliding_expiry_witness :
  0 <= 1000 /\
  exists m2,
    Admin.validateAdminToken (1000 + Admin.ADMIN_TOKEN_TTL) "5f2a"
      (Admin.createAdminToken 1000 "5f2a" ∅).2 = (true, m2) /\
    m2 !! "5f2a" = Some (1000 + Admin.ADMIN_TOKEN_TTL + Admin.ADMIN_TOKEN_TTL).
Proof.
  split; [lia|].
  exact (proj1 (proj2 (proj2
           (token_sliding_expiry ∅ _ "5f2a" 1000 ltac:(lia) (or_introl eq_refl))))
           (1000 + Admin.ADMIN_TOKEN_TTL) ltac:(lia)).
Defined.

(** ** The login throttle *)

Section LoginFacts.
Import Login.

Variable validateAdminPassword : string -> bool.
Variables (token ip : string).

Lemma is_locked_spec (now : Z) (record : attempt) :
  is_locked now record = true <-> lockedUntil record <> 0 /\ now < lockedUntil record.
Proof.
  unfold is_locked. rewrite andb_true_iff, negb_true_iff, Z.eqb_neq, Z.ltb_lt.
  done.
Qed.

(** A request of a client that is locked out: rejected, nothing changes,
    the guard is not called. *)
Lemma login_locked (now : Z) (password : option string) (st : state) (record : attempt) :
  loginAttempts st !! ip = Some record ->
  lockedUntil record <> 0 -> now < lockedUntil record ->
  login validateAdminPassword now token ip password st = (TooManyAttempts, st).
Proof.
  intros Hr Hne Hlt. unfold login. rewrite Hr. simpl.
  by rewrite (proj2 (is_locked_spec now record)).
Qed.

(** A request with a password of a client that is not locked out reaches
    the guard. *)
Lemma login_unlocked (now : Z) (pw : string) (st : state) :
  is_locked now (default (Attempt 0 now 0) (loginAttempts st !! ip)) = false ->
  pw <> "" ->
  exists r st',
    login validateAdminPassword now token ip (Some pw) st = (r, st') /\
    r <> TooManyAttempts /\
    guardCalls st' = guardCalls st ++ [pw].
Proof.
  intros Hl Hpw. unfold login. rewrite Hl.
  destruct pw as [|ch pw]; [done|].
  destruct (validateAdminPassword (String ch pw)); simpl; by do 2 eexists.
Qed.

(** One failed verification inside the window. *)
Lemma login_failure_step (now : Z) (pw : string) (st : state) (c first : Z) :
  loginAttempts st !! ip = Some (Attempt c first 0) \/
  (loginAttempts st !! ip = None /\ c = 0 /\ first = now) ->
  now - first <= ATTEMPT_WINDOW_MS ->
  pw <> "" -> validateAdminPassword pw = false ->
  exists st',
    login validateAdminPassword now token ip (Some pw) st = (InvalidPassword, st') /\
    loginAttempts st' !! ip =
      Some (Attempt (c + 1) first
              (if c + 1 >=? MAX_ATTEMPTS then now + LOCK_TIME_MS else 0)) /\
    adminTokens st' = adminTokens st /\
    guardCalls st' = guardCalls st ++ [pw].
Proof.
  intros Hrec Hwin Hpw Hbad.
  assert (Hdef : default (Attempt 0 now 0) (loginAttempts st !! ip) = Attempt c first 0).
  { destruct Hrec as [->|(-> & -> & ->)]; done. }
  unfold login. rewrite Hdef.
  unfold is_locked. simpl.
  destruct pw as [|ch pw]; [done|]. rewrite Hbad. simpl.
  eexists. split; [reflexivity|]. simpl. split; [|done].
  rewrite lookup_insert_eq. f_equal.
  unfold record_failure, lock_if_exhausted. simpl.
  destruct (Z.gtb_spec (now - first) ATTEMPT_WINDOW_MS); [lia|]. simpl.
  by destruct (c + 1 >=? MAX_ATTEMPTS).
Qed.

(** A successful verification of a client that is not locked out removes
    its record. *)
Lemma login_success (now : Z) (pw : string) (st : state) :
  is_locked now (default (Attempt 0 now 0) (loginAttempts st !! ip)) = false ->
  pw <> "" -> validateAdminPassword pw = true ->
  exists st',
    login validateAdminPassword now token ip (Some pw) st = (LoggedIn token, st') /\
    loginAttempts st' !! ip = None /\
    loginAttempts st' = delete ip (loginAttempts st) /\
    adminTokens st' !! token = Some (now + Admin.ADMIN_TOKEN_TTL).
Proof.
  intros Hl Hpw Hok. unfold login. rewrite Hl.
  destruct pw as [|ch pw]; [done|]. rewrite Hok. simpl.
  eexists. split; [reflexivity|]. simpl.
  split; [apply lookup_delete_eq|]. split; [done|]. apply lookup_insert_eq.
Qed.

End LoginFacts.

(** C4. A client without a record fails five verifications at times
    [t1 <= ... <= t5] inside the attempt window. After four the record
    counts four and nothing is locked; the fifth sets the lockout to
    [t5 + LOCK_TIME_MS], 15 minutes after it. From then on, until that
    instant, every request of the client is answered 429 with the state,
    and the list of guard calls, unchanged; from that instant on a request
    reaches the guard again. In any state, a request of a locked-out client
    is rejected without a guard call, and a successful login of a client
    that is not locked out removes its record. *)
Theorem login_throttle (verify : string -> bool) (token ip : string) (st : Login.state)
    (t1 t2 t3 t4 t5 : Z) (p1 p2 p3 p4 p5 : string) :
  Login.loginAttempts st !! ip = None ->
  0 <= t1 -> t1 <= t2 -> t2 <= t3 -> t3 <= t4 -> t4 <= t5 ->
  t5 - t1 <= Login.ATTEMPT_WINDOW_MS ->
  Forall (fun p => p <> "" /\ verify p = false) [p1; p2; p3; p4; p5] ->
  Login.MAX_ATTEMPTS = 5 /\ Login.LOCK_TIME_MS = 15 * 60 * 1000 /\
  (exists st4 st5,
     Login.login_all verify token ip
       [(t1, Some p1); (t2, Some p2); (t3, Some p3); (t4, Some p4)] st
       = (replicate 4 Login.InvalidPassword, st4) /\
     Login.loginAttempts st4 !! ip = Some (Login.Attempt 4 t1 0) /\
     Login.login verify t5 token ip (Some p5) st4 = (Login.InvalidPassword, st5) /\
     Login.loginAttempts st5 !! ip = Some (Login.Attempt 5 t1 (t5 + Login.LOCK_TIME_MS)) /\
     Login.guardCalls st5 = Login.guardCalls st ++ [p1; p2; p3; p4; p5] /\
     (forall now password,
        now < t5 + Login.LOCK_TIME_MS ->
        Login.login verify now token ip password st5 = (Login.TooManyAttempts, st5)) /\
     (forall now pw,
        t5 + Login.LOCK_TIME_MS <= now -> pw <> "" ->
        exists r st',
          Login.login verify now token ip (Some pw) st5 = (r, st') /\
          r <> Login.TooManyAttempts /\
          Login.guardCalls st' = Login.guardCalls st5 ++ [pw]) /\
     (forall now pw,
        pw <> "" -> verify pw = true ->
        exists st',
          Login.login verify now token ip (Some pw) st4 = (Login.LoggedIn token, st') /\
          Login.loginAttempts st' !! ip = None)) /\
  (forall s now password record,
     Login.loginAttempts s !! ip = Some record ->
     Login.lockedUntil record <> 0 -> now < Login.lockedUntil record ->
     Login.login verify now token ip password s = (Login.TooManyAttempts, s)) /\
  (forall s now pw,
     Login.is_locked now
       (default (Login.Attempt 0 now 0) (Login.loginAttempts s !! ip)) = false ->
     pw <> "" -> verify pw = true ->
     exists s',
       Login.login verify now token ip (Some pw) s = (Login.LoggedIn token, s') /\
       Login.loginAttempts s' !! ip = None).
Proof.
  intros Hnone Ht1 H12 H23 H34 H45 Hwin Hps.
  repeat match goal with
         | H : Forall _ (_ :: _) |- _ => apply Forall_cons in H as [[? ?] H]
         end.
  split; [reflexivity|]. split; [reflexivity|]. split; [|split].
  - destruct (login_failure_step verify token ip t1 p1 st 0 t1)
      as (s1 & E1 & R1 & _ & G1); [by right|lia|done|done|].
    destruct (login_failure_step verify token ip t2 p2 s1 1 t1)
      as (s2 & E2 & R2 & _ & G2); [by left|lia|done|done|].
    destruct (login_failure_step verify token ip t3 p3 s2 2 t1)
      as (s3 & E3 & R3 & _ & G3); [by left|lia|done|done|].
    destruct (login_failure_step verify token ip t4 p4 s3 3 t1)
      as (s4 & E4 & R4 & _ & G4); [by left|lia|done|done|].
    destruct (login_failure_step verify token ip t5 p5 s4 4 t1)
      as (s5 & E5 & R5 & _ & G5); [by left|lia|done|done|].
    simpl in R1, R2, R3, R4, R5.
    exists s4, s5. split; [|split; [|split; [|split; [|split; [|split; [|split]]]]]].
    + simpl. rewrite E1, E2, E3, E4. reflexivity.
    + exact R4.
    + exact E5.
    + exact R5.
    + rewrite G5, G4, G3, G2, G1. by rewrite <- !app_assoc.
    + intros now password Hnow.
      apply (login_locked verify token ip now password s5 _ R5); simpl;
        [unfold Login.LOCK_TIME_MS; lia|done].
    + intros now pw Hnow Hpw.
      apply login_unlocked; [|done]. rewrite R5. simpl.
      unfold Login.is_locked. simpl.
      destruct (Z.ltb_spec now (t5 + Login.LOCK_TIME_MS)); [lia|].
      apply andb_false_r.
    + intros now pw Hpw Hok.
      destruct (login_success verify token ip now pw s4) as (s' & E & N & _);
        [by rewrite R4|done|done|].
      by exists s'.
  - intros s now password record. apply login_locked.
  - intros s now pw Hl Hpw Hok.
    destruct (login_success verify token ip now pw s Hl Hpw Hok) as (s' & E & N & _).
    by exists s'.
Qed.

Lemma login_throttle_witness :
  exists st4 st5,
    Login.login (fun p => String.eqb p "hunter2") 5000 "5f2a" "10.0.0.7" (Some "e") st4
      = (Login.InvalidPassword, st5) /\
    Login.loginAttempts st5 !! "10.0.0.7" =
      Some (Login.Attempt 5 1000 (5000 + Login.LOCK_TIME_MS)) /\
    Login.login (fun p => String.eqb p "hunter2") 904999 "5f2a" "10.0.0.7"
      (Some "hunter2") st5 = (Login.TooManyAttempts, st5).
Proof.
  destruct (login_throttle (fun p => String.eqb p "hunter2") "5f2a" "10.0.0.7"
              (Login.State ∅ ∅ []) 1000 2000 3000 4000 5000 "a" "b" "c" "d" "e"
              ltac:(apply lookup_empty)
              ltac:(lia) ltac:(lia) ltac:(lia) ltac:(lia) ltac:(lia)
              ltac:(unfold Login.ATTEMPT_WINDOW_MS; lia)
              ltac:(repeat constructor; discriminate))
    as (_ & _ & (st4 & st5 & _ & _ & E5 & R5 & _ & Hlock & _) & _).
  exists st4, st5. split; [exact E5|]. split; [exact R5|].
  apply Hlock. unfold Login.LOCK_TIME_MS. lia.
Defined.

(** * Further properties of the code *)

Lemma filter_none {A} (P : A -> Prop) `{!forall x, Decision (P x)} (l : list A) :
  Forall (fun x => ~ P x) l -> filter P l = [].
Proof.
  induction 1 as [|x l Hx _ IH]; [done|]. by rewrite filter_cons_False.
Qed.

(** ** The ledger of the relational backend *)

Section LedgerFacts.
Import Js Order Maria Ledger.

(** An item insert that fails makes [Promise.all] reject. *)
Lemma insert_all_fault (faulty : op -> bool) (rows : list tx_row) (k j : nat) (c : conn) :
  (j < length rows)%nat -> faulty (InsertItem (k + j)) = true ->
  exists e c', insert_all faulty k rows c = (Throw e, c').
Proof.
  revert k j c. induction rows as [|r rs IH]; intros k j c Hj Hf; [simpl in Hj; lia|].
  cbn [insert_all].
  destruct (insert_transaction faulty k r c) as [res1 c1] eqn:H1.
  destruct j as [|j].
  - rewrite Nat.add_0_r in Hf. unfold insert_transaction, call in H1.
    rewrite Hf in H1. injection H1 as <- <-.
    destruct (insert_all faulty (S k) rs c) as [res2 c2]. by do 2 eexists.
  - destruct (IH (S k) j c1) as (e & c' & Hrun).
    + simpl in Hj. lia.
    + by replace (S k + j)%nat with (k + S j)%nat by lia.
    + rewrite Hrun. destruct res1; by do 2 eexists.
Qed.

Lemma submit_ok_consistent (faulty : op -> bool) (now : Z) (od : order_data)
    (d d' : db) (o : order) (c0 : Z) (k : nat) :
  consistent c0 k d ->
  submitOrder faulty now od d = (Ok o, d') ->
  consistent c0 (S k) d' /\ orderId o = newOrderId (c0 + Z.of_nat (S k)) /\
  o_orderId <$> orders d' = (o_orderId <$> orders d) ++ [orderId o].
Proof.
  intros (Hc & Hids & Hfk) Hrun.
  apply maria_submit_ok in Hrun as (c & its & Hc' & _ & _ & -> & ->).
  rewrite Hc in Hc'. injection Hc' as <-.
  replace (c0 + Z.of_nat k + 1) with (c0 + Z.of_nat (S k)) by lia.
  split; [|split]; [|done|by simpl; rewrite fmap_app].
  split; [|split]; simpl.
  - done.
  - rewrite fmap_app, Hids, seqZ_S, fmap_app. simpl. do 3 f_equal. lia.
  - apply Forall_app. split.
    + eapply Forall_impl; [exact Hfk|]. intros t Ht. simpl in Ht.
      rewrite fmap_app. apply elem_of_app. by left.
    + apply Forall_fmap, Forall_forall. intros it _. simpl.
      rewrite fmap_app. apply elem_of_app. right. simpl. apply list_elem_of_here.
Qed.

Lemma submit_all_consistent (reqs : list submission) (d d' : db)
    (rs : list (result error order)) (c0 : Z) (k : nat) :
  consistent c0 k d ->
  submit_all reqs d = (rs, d') ->
  consistent c0 (k + length (returned_ids rs)) d' /\
  o_orderId <$> orders d' = (o_orderId <$> orders d) ++ returned_ids rs /\
  length rs = length reqs.
Proof.
  revert d rs k. induction reqs as [|q rest IH]; intros d rs k Hd Hrun.
  - injection Hrun as <- <-. simpl. rewrite Nat.add_0_r, app_nil_r. done.
  - cbn [submit_all] in Hrun.
    destruct (submitOrder (s_faulty q) (s_now q) (s_order q) d) as [r d1] eqn:H1.
    destruct (submit_all rest d1) as [rs' d2] eqn:H2.
    injection Hrun as <- <-.
    destruct r as [o|e].
    + destruct (submit_ok_consistent _ _ _ _ _ _ _ _ Hd H1) as (Hd1 & _ & Hids1).
      destruct (IH _ _ _ Hd1 H2) as (Hd2 & Hids2 & Hlen).
      change (returned_ids (Ok o :: rs')) with (orderId o :: returned_ids rs').
      cbn [length]. rewrite Nat.add_succ_r.
      split; [exact Hd2|]. split; [|by rewrite Hlen].
      rewrite Hids2, Hids1. by rewrite <- app_assoc.
    + apply maria_submit_throw in H1 as ->.
      destruct (IH _ _ _ Hd H2) as (Hd2 & Hids2 & Hlen).
      change (returned_ids (Throw e :: rs')) with (returned_ids rs').
      cbn [length]. by rewrite Hlen.
Qed.

Lemma consistent_fresh (c0 : Z) (k : nat) (d : db) :
  0 <= c0 -> consistent c0 k d ->
  newOrderId (c0 + Z.of_nat k + 1) ∉ (o_orderId <$> orders d).
Proof.
  intros Hc0 (_ & Hids & _). rewrite Hids.
  intros (x & Heq & Hx)%list_elem_of_fmap.
  apply elem_of_seqZ in Hx. apply newOrderId_inj in Heq; lia.
Qed.

(** After a submission has returned, the listing starts with its order
    and goes on as before. *)
Lemma getOrders_after_submit (faulty : op -> bool) (now : Z) (od : order_data)
    (d d' : db) (o : order) :
  NoDup (o_orderId <$> orders d) ->
  Forall (fun t => t_orderId t ∈ o_orderId <$> orders d) (transactions d) ->
  submitOrder faulty now od d = (Ok o, d') ->
  getOrders d' =
    order_view_of (order_row_of now od (orderId o))
      (filter (fun t => t_item t <> "")
              (tx_row_of (orderId o) <$> default [] (items od)))
    :: getOrders d.
Proof.
  intros Hnd Hfk Hrun.
  assert (Hnd' : NoDup (o_orderId <$> orders d'))
    by (by eapply maria_submit_keeps_unique).
  rewrite (getOrders_named_items d' Hnd'), (getOrders_named_items d Hnd).
  apply maria_submit_ok in Hrun as (c & lst & _ & Hits & Hfresh & -> & ->).
  rewrite Hits. simpl. set (id := newOrderId (c + 1)) in *.
  unfold listOrders_named_items. simpl. rewrite reverse_snoc, fmap_cons.
  assert (Hold : filter (fun t => t_orderId t = id) (transactions d) = []).
  { apply filter_none, Forall_forall. intros t Ht Heq.
    rewrite Forall_forall in Hfk. specialize (Hfk t Ht). by rewrite Heq in Hfk. }
  assert (Hnew : filter (fun t => t_orderId t = id) (tx_row_of id <$> lst)
                  = tx_row_of id <$> lst).
  { apply filter_all, Forall_fmap, Forall_forall. by intros. }
  f_equal.
  - unfold rows_of. simpl. by rewrite filter_app, Hold, Hnew.
  - apply list_fmap_ext. intros i ord Hord.
    assert (Hin : o_orderId ord ∈ o_orderId <$> orders d).
    { apply list_elem_of_fmap_2, elem_of_reverse, list_elem_of_lookup. by exists i. }
    unfold rows_of. simpl. rewrite filter_app.
    assert (Hnone : filter (fun t => t_orderId t = o_orderId ord) (tx_row_of id <$> lst) = []).
    { apply filter_none, Forall_fmap, Forall_forall. intros it _. simpl.
      intros Heq. rewrite Heq in Hfresh. done. }
    by rewrite Hnone, app_nil_r.
Qed.

End LedgerFacts.

Section LedgerTheorems.
Import Js Order Maria Ledger.

(** A submission returns only when none of its calls failed. *)
Lemma maria_submit_ok_calls (faulty : op -> bool) (now : Z) (od : order_data)
    (d d' : db) (o : order) :
  submitOrder faulty now od d = (Ok o, d') ->
  faulty GetConnection = false /\ faulty BeginTransaction = false /\
  faulty SelectCounter = false /\ faulty UpdateCounter = false /\
  faulty InsertOrder = false /\ faulty Commit = false /\
  forall its j, items od = Some its -> (j < length its)%nat ->
                faulty (InsertItem j) = false.
Proof.
  unfold submitOrder.
  destruct (faulty GetConnection) eqn:F0; [intros; discriminate|].
  unfold try_catch, submit_body, mbind, io_bind, mret, io_ret.
  unfold beginTransaction, select_counter, update_counter, insert_order,
    commit, rollback, throw, call.
  conn_simpl.
  destruct (faulty BeginTransaction) eqn:F1; conn_simpl.
  { destruct (faulty Rollback); simpl; intros; discriminate. }
  destruct (faulty SelectCounter) eqn:F2; conn_simpl.
  { destruct (faulty Rollback); simpl; intros; discriminate. }
  destruct (counter d) as [c|] eqn:Hc; conn_simpl.
  2:{ destruct (faulty Rollback); simpl; intros; discriminate. }
  destruct (faulty UpdateCounter) eqn:F3; conn_simpl.
  { destruct (faulty Rollback); simpl; intros; discriminate. }
  destruct (faulty InsertOrder) eqn:F4; conn_simpl.
  { destruct (faulty Rollback); simpl; intros; discriminate. }
  case_bool_decide as Hdup; conn_simpl.
  { destruct (faulty Rollback); simpl; intros; discriminate. }
  destruct (items od) as [lst|] eqn:Hits; conn_simpl.
  2:{ destruct (faulty Rollback); simpl; intros; discriminate. }
  match goal with |- context [insert_all faulty 0 ?rows ?c] =>
    destruct (insert_all faulty 0 rows c) as [res c'] eqn:Hrun
  end.
  destruct res as [u|e]; conn_simpl.
  2:{ destruct (faulty Rollback); simpl; intros; discriminate. }
  destruct (faulty Commit) eqn:F5; conn_simpl.
  { destruct (faulty Rollback); simpl; intros; discriminate. }
  intros _. repeat split; try done.
  intros its j [= <-] Hj.
  destruct (faulty (InsertItem j)) eqn:Fj; [|done].
  match type of Hrun with insert_all _ _ ?rows ?c = _ =>
    destruct (insert_all_fault faulty rows 0 j c) as (e & c2 & Hbad);
      [by rewrite length_fmap|done|]
  end.
  congruence.
Qed.

(** X1. On the relational backend a submission in which any call fails
    (taking a connection, opening the transaction, reading or writing the
    counter, inserting the order or one of its items, committing) throws,
    and a submission that throws leaves counter, orders and transactions
    as they were. *)
Theorem maria_any_failure_rolls_back (faulty : op -> bool) (now : Z)
    (od : order_data) (d : db) :
  (forall e d', submitOrder faulty now od d = (Throw e, d') -> d' = d) /\
  (faulty GetConnection = true \/ faulty BeginTransaction = true \/
   faulty SelectCounter = true \/ faulty UpdateCounter = true \/
   faulty InsertOrder = true \/ faulty Commit = true \/
   (exists its j, items od = Some its /\ (j < length its)%nat /\
                  faulty (InsertItem j) = true) ->
   exists e, submitOrder faulty now od d = (Throw e, d)).
Proof.
  split; [intros e d'; apply maria_submit_throw|].
  intros Hfault.
  destruct (submitOrder faulty now od d) as [[o|e] d'] eqn:Hrun.
  - apply maria_submit_ok_calls in Hrun as (F0 & F1 & F2 & F3 & F4 & F5 & Fi).
    destruct Hfault as [H|[H|[H|[H|[H|[H|(its & j & Hits & Hj & H)]]]]]];
      try congruence.
    rewrite (Fi its j Hits Hj) in H. discriminate.
  - apply maria_submit_throw in Hrun as Heq. subst d'. by exists e.
Qed.

Lemma maria_any_failure_rolls_back_witness :
  exists e,
    submitOrder (fun o => match o with InsertItem 1 => true | _ => false end) 100
      (OrderData 8 "Cash" (Some [Item "Pizza Slice" 2 3; Item "Water" 1 2]))
      (Db (Some 41) [] [])
    = (Throw e, Db (Some 41) [] []).
Proof.
  apply (proj2 (maria_any_failure_rolls_back
                  (fun o => match o with InsertItem 1 => true | _ => false end) 100
                  (OrderData 8 "Cash" (Some [Item "Pizza Slice" 2 3; Item "Water" 1 2]))
                  (Db (Some 41) [] []))).
  do 6 right. exists [Item "Pizza Slice" 2 3; Item "Water" 1 2], 1%nat.
  split; [reflexivity|]. split; [simpl; lia|reflexivity].
Defined.

(** X2. Whatever submissions are served one after the other from an empty
    ledger with the counter at [c0], and whichever of them fail: the
    orders stored are those of [c0 + 1], ..., [c0 + k] in this order,
    where [k] is the number of submissions that returned; they are the
    identifiers handed back, no two are equal, the counter is [c0 + k],
    and every transaction row belongs to a stored order. *)
Theorem ledger_gapless_under_failures (c0 : Z) (reqs : list submission)
    (rs : list (result error order)) (d : db) :
  0 <= c0 ->
  submit_all reqs (Db (Some c0) [] []) = (rs, d) ->
  let k := length (returned_ids rs) in
  counter d = Some (c0 + Z.of_nat k) /\
  o_orderId <$> orders d = newOrderId <$> seqZ (c0 + 1) (Z.of_nat k) /\
  returned_ids rs = o_orderId <$> orders d /\
  NoDup (o_orderId <$> orders d) /\
  Forall (fun t => t_orderId t ∈ o_orderId <$> orders d) (transactions d) /\
  length rs = length reqs.
Proof.
  intros Hc0 Hrun k.
  assert (H0 : consistent c0 0 (Db (Some c0) [] [])).
  { split; [simpl; f_equal; lia|]. split; [done|]. simpl. constructor. }
  destruct (submit_all_consistent reqs _ _ rs c0 0 H0 Hrun)
    as ((Hcnt & Hids & Hfk) & Hret & Hlen).
  simpl in Hcnt, Hids, Hret. fold k in Hcnt, Hids.
  repeat split; try done.
  rewrite Hids. by apply issued_NoDup.
Qed.

Lemma ledger_gapless_under_failures_witness :
  exists rs d,
    submit_all
      [Submission no_fault 1 (OrderData 8 "Cash" (Some [Item "Water" 4 2]));
       Submission (fun o => match o with Commit => true | _ => false end) 2
                  (OrderData 3 "Cash" (Some [Item "Chips" 1 3]));
       Submission no_fault 3 (OrderData 3 "Venmo" (Some [Item "Chips" 1 3]))]
      (Db (Some 41) [] []) = (rs, d) /\
    counter d = Some (41 + Z.of_nat (length (returned_ids rs))) /\
    NoDup (o_orderId <$> orders d).
Proof.
  destruct (submit_all
      [Submission no_fault 1 (OrderData 8 "Cash" (Some [Item "Water" 4 2]));
       Submission (fun o => match o with Commit => true | _ => false end) 2
                  (OrderData 3 "Cash" (Some [Item "Chips" 1 3]));
       Submission no_fault 3 (OrderData 3 "Venmo" (Some [Item "Chips" 1 3]))]
      (Db (Some 41) [] [])) as [rs d] eqn:E.
  exists rs, d. split; [reflexivity|].
  destruct (ledger_gapless_under_failures 41 _ rs d ltac:(lia) E)
    as (H1 & _ & _ & H4 & _).
  split; [exact H1|exact H4].
Defined.

(** X3. When no call to the store fails and every request carries its
    items, every submission of a sequence started on an empty ledger
    returns: the UNIQUE constraint on the identifier never rejects an
    order. *)
Theorem ledger_no_spurious_failure (c0 : Z) (reqs : list submission)
    (rs : list (result error order)) (d : db) :
  0 <= c0 ->
  Forall (fun q => s_faulty q = no_fault /\ is_Some (items (s_order q))) reqs ->
  submit_all reqs (Db (Some c0) [] []) = (rs, d) ->
  Forall (fun r => exists o, r = Ok o) rs /\
  counter d = Some (c0 + Z.of_nat (length reqs)) /\
  length (orders d) = length reqs.
Proof.
  intros Hc0 Hreqs Hrun.
  assert (Hgen : forall reqs d0 k rs d,
    consistent c0 k d0 ->
    Forall (fun q => s_faulty q = no_fault /\ is_Some (items (s_order q))) reqs ->
    submit_all reqs d0 = (rs, d) ->
    Forall (fun r => exists o, r = Ok o) rs /\
    length (returned_ids rs) = length reqs).
  { clear reqs rs d Hreqs Hrun.
    induction reqs as [|q rest IH]; intros d0 k rs d Hd0 Hq Hrun.
    - injection Hrun as <- <-. by split.
    - apply Forall_cons in Hq as [[Hnf [its Hits]] Hrest].
      cbn [submit_all] in Hrun. rewrite Hnf in Hrun.
      assert (Hd0' : consistent c0 k d0) by done.
      destruct Hd0 as (Hcnt & Hids & Hfk).
      assert (Hok := maria_submit_succeeds (s_now q) (s_order q) d0 _ its Hcnt Hits
                       (consistent_fresh c0 k d0 Hc0 Hd0')).
      rewrite Hok in Hrun.
      apply (submit_ok_consistent _ _ _ _ _ _ c0 k Hd0') in Hok as [Hd1 _].
      match type of Hrun with
      | (let '(rs, d2) := submit_all rest ?d1 in _) = _ =>
          destruct (submit_all rest d1) as [rs' d2] eqn:H2
      end.
      injection Hrun as <- <-.
      destruct (IH _ (S k) rs' d2 Hd1 Hrest H2) as (Hall & Hlen).
      split; [constructor; [by eexists|done]|].
      change (returned_ids (Ok ?o :: rs')) with (orderId o :: returned_ids rs').
      simpl. by rewrite Hlen. }
  assert (H0 : consistent c0 0 (Db (Some c0) [] [])).
  { split; [simpl; f_equal; lia|]. split; [done|]. simpl. constructor. }
  destruct (Hgen reqs _ 0%nat rs d H0 Hreqs Hrun) as (Hall & Hlen).
  destruct (submit_all_consistent reqs _ _ rs c0 0 H0 Hrun)
    as ((Hcnt & Hids & _) & _ & _).
  simpl in Hcnt, Hids. rewrite Hlen in Hcnt, Hids.
  split; [done|]. split; [done|].
  rewrite <- (length_fmap o_orderId), Hids, length_fmap, length_seqZ. lia.
Qed.

Lemma ledger_no_spurious_failure_witness :
  exists rs d,
    submit_all
      [Submission no_fault 1 (OrderData 8 "Cash" (Some [Item "Water" 4 2]));
       Submission no_fault 2 (OrderData 3 "Venmo" (Some []))]
      (Db (Some 9998) [] []) = (rs, d) /\
    Forall (fun r => exists o, r = Ok o) rs /\
    counter d = Some (9998 + Z.of_nat 2).
Proof.
  set (reqs := [Submission no_fault 1 (OrderData 8 "Cash" (Some [Item "Water" 4 2]));
                Submission no_fault 2 (OrderData 3 "Venmo" (Some []))]).
  assert (Hreqs : Forall (fun q => s_faulty q = no_fault /\ is_Some (items (s_order q)))
                         reqs)
    by (repeat constructor; by eexists).
  destruct (submit_all reqs (Db (Some 9998) [] [])) as [rs d] eqn:E.
  exists rs, d. split; [reflexivity|].
  destruct (ledger_no_spurious_failure 9998 reqs rs d ltac:(lia) Hreqs E)
    as (H1 & H2 & _).
  split; [exact H1|exact H2].
Defined.

End LedgerTheorems.

Section LedgerReadBack.
Import Js Order Maria.

(** X4. On a ledger whose identifiers are unique and whose transaction
    rows all belong to a stored order, a submission that returns puts its
    order at the head of the listing, with the items of the request that
    have a name, in request order and each with [price * qty] as total;
    the rest of the listing is what it was before. *)
Theorem submit_then_list (faulty : op -> bool) (now : Z) (od : order_data)
    (d d' : db) (o : order) :
  NoDup (o_orderId <$> orders d) ->
  Forall (fun t => t_orderId t ∈ o_orderId <$> orders d) (transactions d) ->
  submitOrder faulty now od d = (Ok o, d') ->
  getOrders d' =
    OrderView (orderId o) (totalAmount od) (paymentType od)
              (status_of (paymentType od)) now
              ((fun it => ItemView (name it) (Some (qty it)) (price it * qty it))
                 <$> filter (fun it => name it <> "") (default [] (items od)))
    :: getOrders d.
Proof.
  intros Hnd Hfk Hrun.
  rewrite (getOrders_after_submit faulty now od d d' o Hnd Hfk Hrun).
  f_equal. unfold order_view_of, order_row_of. simpl. f_equal.
  induction (default [] (items od)) as [|it l IH]; [done|].
  rewrite fmap_cons. destruct (decide (name it = "")) as [He|Hne].
  - rewrite !filter_cons_False by (simpl; naive_solver). exact IH.
  - rewrite !filter_cons_True by done. rewrite !fmap_cons, IH. reflexivity.
Qed.

Lemma submit_then_list_witness :
  exists d',
    (submitOrder no_fault 100
       (OrderData 8 "Cash" (Some [Item "Pizza Slice" 2 3; Item "Water" 1 2]))
       (Db (Some 41) [] [])).2 = d' /\
    getOrders d' =
      [OrderView "0042" 8 "Cash" "paid" 100
         [ItemView "Pizza Slice" (Some 2) 6; ItemView "Water" (Some 1) 2]].
Proof.
  eexists. split; [reflexivity|].
  exact (submit_then_list no_fault 100
           (OrderData 8 "Cash" (Some [Item "Pizza Slice" 2 3; Item "Water" 1 2]))
           (Db (Some 41) [] []) _ _ NoDup_nil_2 (Forall_nil_2 _) eq_refl).
Defined.

(** X5. A missing counter is an error on the relational backend and a
    start from zero on the document backend: without the row [counter],
    [submitOrder] throws a TypeError whatever the request and changes
    nothing; without the counter document, the first order is "0001" and
    the counter becomes 1. *)
Theorem missing_counter (od : order_data) :
  (forall now os ts,
     submitOrder no_fault now od (Db None os ts) =
       (Throw (TypeError "counterRow[0] is undefined"), Db None os ts)) /\
  (forall ids stamp its os ts,
     items od = Some its ->
     exists s',
       Firestore.submitOrder Firestore.no_fault ids stamp od (Firestore.Store None os ts)
         = (Ok (MkOrder od "0001"), s') /\
       Firestore.count s' = Some 1).
Proof.
  split.
  - intros now os ts. reflexivity.
  - intros ids stamp its os ts Hits.
    rewrite (firestore_submit_succeeds ids stamp od _ its Hits).
    eexists. split; reflexivity.
Qed.

Lemma missing_counter_witness :
  exists s',
    Firestore.submitOrder Firestore.no_fault Samples.sample_ids "t1"
      (OrderData 8 "Cash" (Some [Item "Water" 4 2])) (Firestore.Store None [] [])
      = (Ok (MkOrder (OrderData 8 "Cash" (Some [Item "Water" 4 2])) "0001"), s') /\
    Firestore.count s' = Some 1.
Proof.
  exact (proj2 (missing_counter (OrderData 8 "Cash" (Some [Item "Water" 4 2])))
           Samples.sample_ids "t1" _ [] [] eq_refl).
Defined.



End LedgerReadBack.

(** ** Tokens, the admin gate and the request headers *)

Section GateFacts.
Import Js Admin Gate.



Lemma value_run_until (l rest : list ascii) :
  ";"%char ∉ l -> (rest = [] \/ exists r, rest = ";"%char :: r) ->
  value_run (l ++ rest) = l.
Proof.
  intros Hl Hrest. induction l as [|c l IH]; simpl.
  - destruct Hrest as [->|[r ->]]; [done|]. reflexivity.
  - apply not_elem_of_cons in Hl as [Hne Hl].
    rewrite decide_False by done. by rewrite IH.
Qed.

Lemma strip_prefix_app (p s : list ascii) : strip_prefix p (p ++ s) = Some s.
Proof. induction p as [|a p IH]; simpl; [done|]. by rewrite decide_True. Qed.

Lemma match_from_here (b : bool) (s v : list ascii) :
  match_at b s = Some v -> match_from b s = Some v.
Proof. intros H. destruct s; simpl; by rewrite H. Qed.

Lemma match_from_cookie (tok rest : list ascii) :
  tok <> [] -> ";"%char ∉ tok -> (rest = [] \/ exists r, rest = ";"%char :: r) ->
  match_from true (list_ascii_of_string "admin_token=" ++ tok ++ rest) = Some tok.
Proof.
  intros Hne Htok Hrest. apply match_from_here.
  unfold match_at. rewrite strip_prefix_app. simpl. unfold cookie_value.
  rewrite value_run_until by done. by destruct tok.
Qed.

(** Without a two-part [Bearer] header the token is looked for in the
    cookie header. *)
Lemma tokenFromReq_cookie (req : request) :
  (forall second, split " " (default "" (authorization req)) <> ["Bearer"; second]) ->
  tokenFromReq req =
    string_of_list_ascii <$>
      match_from true (list_ascii_of_string (default "" (cookie req))).
Proof.
  intros Hno. unfold tokenFromReq.
  destruct (split " " (default "" (authorization req))) as [|a [|b [|c l]]]; try done.
  destruct (decide (a = "Bearer")) as [->|]; [|done].
  by destruct (Hno b).
Qed.

Lemma split_empty : split " " "" = [""].
Proof. reflexivity. Qed.

Lemma tokenFromReq_cookie_only (tok rest : string) :
  tok <> "" -> ";"%char ∉ list_ascii_of_string tok ->
  (rest = "" \/ exists r, rest = String ";" r) ->
  tokenFromReq (Request None (Some ("admin_token=" +:+ tok +:+ rest))) = Some tok.
Proof.
  intros Hne Htok Hrest. rewrite tokenFromReq_cookie by (intros s; discriminate).
  change (default "" (cookie (Request None (Some ("admin_token=" +:+ tok +:+ rest)))))
    with ("admin_token=" +:+ tok +:+ rest).
  rewrite !list_ascii_of_string_app.
  rewrite match_from_cookie.
  - simpl. by rewrite string_of_list_ascii_of_string.
  - destruct tok; [done|discriminate].
  - done.
  - destruct Hrest as [->|[r ->]]; [by left|right]. by eexists.
Qed.

Lemma validateAdminToken_other (now : Z) (token other : string) (m : gmap string Z) :
  other <> token -> (validateAdminToken now token m).2 !! other = m !! other.
Proof.
  intros Hne. unfold validateAdminToken.
  destruct (m !! token) as [exp|]; [|done].
  destruct (exp =? 0); [done|]. destruct (now >? exp); simpl.
  - by rewrite lookup_delete_ne.
  - by rewrite lookup_insert_ne.
Qed.

(** The verdict on a token depends on its own entry only. *)
Lemma validateAdminToken_verdict (now : Z) (token : string) (m m' : gmap string Z) :
  m !! token = m' !! token ->
  (validateAdminToken now token m).1 = (validateAdminToken now token m').1.
Proof.
  intros Heq. unfold validateAdminToken. rewrite Heq.
  destruct (m' !! token) as [exp|]; [|done].
  destruct (exp =? 0); [done|]. by destruct (now >? exp).
Qed.

End GateFacts.

(** X7. Revoking a token removes its entry and answers whether there was
    one: afterwards the token does not validate at any time, the other
    tokens are as before, and revoking again answers [false] and changes
    nothing. The empty token is never revoked. *)
Theorem revoke_token (token : string) (m : gmap string Z) :
  token <> "" ->
  let '(found, m') := Admin.revokeAdminToken token m in
  (found = true <-> is_Some (m !! token)) /\
  m' !! token = None /\
  (forall now, Admin.validateAdminToken now token m' = (false, m')) /\
  (forall other, other <> token -> m' !! other = m !! other) /\
  Admin.revokeAdminToken token m' = (false, m') /\
  Admin.revokeAdminToken "" m = (false, m).
Proof.
  intros Hne. destruct token as [|ch tk]; [done|]. simpl.
  split; [apply bool_decide_eq_true|].
  split; [apply lookup_delete_eq|].
  split; [intros now; apply validateAdminToken_absent, lookup_delete_eq|].
  split; [intros other Ho; by apply lookup_delete_ne|].
  split; [|done].
  rewrite delete_delete_eq. f_equal.
  apply bool_decide_eq_false. rewrite lookup_delete_eq. by intros [? ?].
Qed.

Lemma revoke_token_witness :
  let '(found, m') :=
    Admin.revokeAdminToken "5f2a" (Admin.createAdminToken 1000 "5f2a" ∅).2 in
  (found = true <-> is_Some ((Admin.createAdminToken 1000 "5f2a" ∅).2 !! "5f2a")) /\
  m' !! "5f2a" = None.
Proof.
  pose proof (revoke_token "5f2a" (Admin.createAdminToken 1000 "5f2a" ∅).2
                ltac:(discriminate)) as H.
  destruct (Admin.revokeAdminToken "5f2a" (Admin.createAdminToken 1000 "5f2a" ∅).2)
    as [found m'].
  destruct H as (H1 & H2 & _). split; [exact H1|exact H2].
Defined.

(** X8. Issuing, validating or revoking one token leaves every other
    token's entry, and so the verdict on it, as they were. *)
Theorem tokens_independent (now now' : Z) (token other : string) (m : gmap string Z) :
  other <> token ->
  (Admin.createAdminToken now token m).2 !! other = m !! other /\
  (Admin.validateAdminToken now token m).2 !! other = m !! other /\
  (Admin.revokeAdminToken token m).2 !! other = m !! other /\
  (Admin.validateAdminToken now' other (Admin.createAdminToken now token m).2).1
    = (Admin.validateAdminToken now' other m).1 /\
  (Admin.validateAdminToken now' other (Admin.validateAdminToken now token m).2).1
    = (Admin.validateAdminToken now' other m).1 /\
  (Admin.validateAdminToken now' other (Admin.revokeAdminToken token m).2).1
    = (Admin.validateAdminToken now' other m).1.
Proof.
  intros Hne.
  assert (H1 : (Admin.createAdminToken now token m).2 !! other = m !! other)
    by (simpl; by rewrite lookup_insert_ne).
  assert (H2 := validateAdminToken_other now token other m Hne).
  assert (H3 : (Admin.revokeAdminToken token m).2 !! other = m !! other).
  { destruct token; simpl; [done|]. by rewrite lookup_delete_ne. }
  repeat split; try done; by apply validateAdminToken_verdict.
Qed.

Lemma tokens_independent_witness :
  (Admin.validateAdminToken 2000 "bb"
     (Admin.revokeAdminToken "aa"
        (Admin.createAdminToken 1000 "bb" (Admin.createAdminToken 1000 "aa" ∅).2).2).2).1
  = (Admin.validateAdminToken 2000 "bb"
       (Admin.createAdminToken 1000 "bb" (Admin.createAdminToken 1000 "aa" ∅).2).2).1.
Proof.
  exact (proj2 (proj2 (proj2 (proj2 (proj2
    (tokens_independent 0 2000 "aa" "bb"
       (Admin.createAdminToken 1000 "bb" (Admin.createAdminToken 1000 "aa" ∅).2).2
       ltac:(discriminate))))))).
Defined.

Lemma string_app_empty (s : string) : s +:+ "" = s.
Proof.
  induction s as [|c s IH]; [done|].
  change (String c s +:+ "") with (String c (s +:+ "")). by rewrite IH.
Qed.



(** X10. [requireAdmin] lets every request through when
    [ALLOW_UNAUTH_ADMIN] is 'true' or when no [admin_hash] row is found,
    without looking at the request. Otherwise it calls [next()] exactly
    when the request carries a token that is not empty and validates; a
    request without token is answered 401 with the token store untouched,
    and an expired token is answered 401 and removed from the store. *)
Theorem requireAdmin_decides (allow : option string) (st : Admin.cred_store)
    (now : Z) (req : Gate.request) (tokens : gmap string Z) :
  (allow = Some "true" -> Gate.requireAdmin allow st now req tokens = (Gate.Next, tokens)) /\
  (Gate.isAdminConfigured st = false ->
   Gate.requireAdmin allow st now req tokens = (Gate.Next, tokens)) /\
  (allow <> Some "true" -> Gate.isAdminConfigured st = true ->
   ((Gate.requireAdmin allow st now req tokens).1 = Gate.Next <->
    exists token,
      Gate.tokenFromReq req = Some token /\ token <> "" /\
      (Admin.validateAdminToken now token tokens).1 = true) /\
   (Gate.tokenFromReq req = None \/ Gate.tokenFromReq req = Some "" ->
    Gate.requireAdmin allow st now req tokens = (Gate.Unauthorized, tokens)) /\
   (forall token exp,
      Gate.tokenFromReq req = Some token -> token <> "" ->
      tokens !! token = Some exp -> exp <> 0 -> exp < now ->
      Gate.requireAdmin allow st now req tokens
        = (Gate.InvalidOrExpired, delete token tokens))).
Proof.
  unfold Gate.requireAdmin. split; [|split].
  - intros ->. by rewrite decide_True.
  - intros Hc. rewrite Hc. simpl. by destruct (decide _).
  - intros Hallow Hc. rewrite decide_False by done. rewrite Hc. simpl.
    split; [|split].
    + destruct (Gate.tokenFromReq req) as [[|ch tk]|] eqn:Htok; simpl.
      * split; [discriminate|]. intros (t & [= <-] & Hne & _). done.
      * destruct (Admin.validateAdminToken now (String ch tk) tokens) as [ok m'] eqn:Hv.
        destruct ok; simpl.
        -- split; [|done]. intros _. exists (String ch tk). by rewrite Hv.
        -- split; [discriminate|]. intros (t & [= <-] & _ & Hok).
           rewrite Hv in Hok. discriminate.
      * split; [discriminate|]. intros (t & ? & _). discriminate.
    + intros [->| ->]; reflexivity.
    + intros token exp -> Hne Hm Hexp Hlt.
      destruct token as [|ch tk]; [done|].
      rewrite (validateAdminToken_stored now _ tokens exp Hm Hexp).
      destruct (Z.gtb_spec now exp); [reflexivity|lia].
Qed.

Lemma toy_configured : Gate.isAdminConfigured Samples.toy_credentials = true.
Proof.
  unfold Gate.isAdminConfigured, Samples.toy_credentials. simpl.
  apply bool_decide_eq_true. rewrite lookup_insert_eq. by eexists.
Qed.

Lemma requireAdmin_decides_witness :
  Gate.requireAdmin None Samples.toy_credentials 5000000
    (Gate.Request (Some "Bearer 5f2a") None) (<["5f2a" := 1801000]> ∅)
  = (Gate.InvalidOrExpired, delete "5f2a" (<["5f2a" := 1801000]> ∅)).
Proof.
  pose proof (requireAdmin_decides None Samples.toy_credentials 5000000
           (Gate.Request (Some "Bearer 5f2a") None) (<["5f2a" := 1801000]> ∅))
    as (_ & _ & H).
  destruct (H ltac:(discriminate) toy_configured) as (_ & _ & H3).
  apply (H3 "5f2a" 1801000).
  - reflexivity.
  - discriminate.
  - apply lookup_insert_eq.
  - lia.
  - lia.
Defined.

(** X11. Logging in, presenting the cookie and logging out: a successful
    login stores its token; while admin credentials are configured, a
    request with the cookie [admin_token=<token>] passes [requireAdmin] at
    any time up to 30 minutes after the login, which moves the expiry on;
    after [logout] with the same cookie the request is answered 401 at
    every time. *)
Theorem login_cookie_logout (verify : string -> bool) (creds : Admin.cred_store)
    (allow : option string) (now now' : Z) (token ip pw : string) (st : Login.state) :
  allow <> Some "true" -> Gate.isAdminConfigured creds = true ->
  Login.is_locked now (default (Login.Attempt 0 now 0) (Login.loginAttempts st !! ip)) = false ->
  pw <> "" -> verify pw = true ->
  token <> "" -> ";"%char ∉ list_ascii_of_string token ->
  0 <= now -> now' <= now + Admin.ADMIN_TOKEN_TTL ->
  let req := Gate.Request None (Some ("admin_token=" +:+ token)) in
  exists st' tokens1,
    Login.login verify now token ip (Some pw) st = (Login.LoggedIn token, st') /\
    Gate.requireAdmin allow creds now' req (Login.adminTokens st') = (Gate.Next, tokens1) /\
    tokens1 !! token = Some (now' + Admin.ADMIN_TOKEN_TTL) /\
    forall later,
      Gate.requireAdmin allow creds later req (Gate.logout req tokens1)
        = (Gate.InvalidOrExpired, Gate.logout req tokens1).
Proof.
  intros Hallow Hc Hl Hpw Hok Hne Hsemi Hnow Hnow' req.
  destruct (login_success verify token ip now pw st Hl Hpw Hok)
    as (st' & Elogin & _ & _ & Htok).
  assert (Hreq : Gate.tokenFromReq req = Some token).
  { pose proof (tokenFromReq_cookie_only token "" Hne Hsemi (or_introl eq_refl)) as H.
    by rewrite string_app_empty in H. }
  assert (Hpos : now + Admin.ADMIN_TOKEN_TTL <> 0)
    by (unfold Admin.ADMIN_TOKEN_TTL; lia).
  exists st', (<[token := now' + Admin.ADMIN_TOKEN_TTL]> (Login.adminTokens st')).
  split; [exact Elogin|]. split; [|split].
  - unfold Gate.requireAdmin. rewrite decide_False by done. rewrite Hc, Hreq. simpl.
    destruct token as [|ch tk]; [done|].
    rewrite (validateAdminToken_stored now' _ _ _ Htok Hpos).
    destruct (Z.gtb_spec now' (now + Admin.ADMIN_TOKEN_TTL)); [lia|reflexivity].
  - apply lookup_insert_eq.
  - intros later. unfold Gate.logout. rewrite Hreq.
    destruct token as [|ch tk]; [done|].
    unfold Gate.requireAdmin. rewrite decide_False by done. rewrite Hc, Hreq. simpl.
    rewrite validateAdminToken_absent by apply lookup_delete_eq. reflexivity.
Qed.

Lemma login_cookie_logout_witness :
  exists st' tokens1,
    Login.login (fun p => String.eqb p "hunter2") 1000 "5f2a" "10.0.0.7"
      (Some "hunter2") (Login.State ∅ ∅ []) = (Login.LoggedIn "5f2a", st') /\
    Gate.requireAdmin None Samples.toy_credentials 1801000
      (Gate.Request None (Some ("admin_token=" +:+ "5f2a"))) (Login.adminTokens st')
      = (Gate.Next, tokens1).
Proof.
  assert (Hl : Login.is_locked 1000
            (default (Login.Attempt 0 1000 0)
               (Login.loginAttempts (Login.State ∅ ∅ []) !! "10.0.0.7")) = false).
  { simpl. rewrite lookup_empty. reflexivity. }
  assert (Hsemi : ";"%char ∉ list_ascii_of_string "5f2a").
  { simpl. rewrite !not_elem_of_cons. repeat split; try discriminate.
    apply not_elem_of_nil. }
  destruct (login_cookie_logout (fun p => String.eqb p "hunter2") Samples.toy_credentials
              None 1000 1801000 "5f2a" "10.0.0.7" "hunter2" (Login.State ∅ ∅ [])
              ltac:(discriminate) toy_configured Hl ltac:(discriminate) eq_refl
              ltac:(discriminate) Hsemi
              ltac:(lia) ltac:(unfold Admin.ADMIN_TOKEN_TTL; lia))
    as (st' & tokens1 & H1 & H2 & _).
  by exists st', tokens1.
Defined.

(** X12. While no [admin_hash] row is found, no password passes the
    credential guard, so nobody can log in, and every request passes
    [requireAdmin], token or not. *)
Theorem unconfigured_admin
    (pbkdf2Sync : string -> string -> Z -> Z -> string -> option (list Byte.byte))
    (st : Admin.cred_store) :
  Gate.isAdminConfigured st = false ->
  (forall password, Admin.validateAdminPassword pbkdf2Sync password st = false) /\
  (forall now req tokens,
     Gate.requireAdmin None st now req tokens = (Gate.Next, tokens)).
Proof.
  intros Hc. split.
  - intros password.
    destruct (Admin.validateAdminPassword pbkdf2Sync password st) eqn:Hv; [|done].
    apply validateAdminPassword_true in Hv
      as (t & hash & salt & buf & Ht & Hh & _).
    unfold Gate.isAdminConfigured in Hc. rewrite Ht in Hc.
    apply bool_decide_eq_false in Hc. destruct Hc. by rewrite Hh.
  - intros now req tokens. unfold Gate.requireAdmin.
    rewrite decide_False by done. by rewrite Hc.
Qed.

Lemma unconfigured_admin_witness :
  Admin.validateAdminPassword Samples.toy_kdf "hunter2" (Admin.CredStore None) = false /\
  Gate.requireAdmin None (Admin.CredStore None) 0 (Gate.Request None None) ∅
    = (Gate.Next, ∅).
Proof.
  destruct (unconfigured_admin Samples.toy_kdf (Admin.CredStore None) eq_refl)
    as [H1 H2].
  split; [apply H1|apply H2].
Defined.

(** ** The items table and its admin routes *)

Section ItemsFacts.
Import Js Catalog Items.
Variable StringToNumber : string -> number.
Variable rejects : statement -> table -> bool.

Lemma validate_passed (it : item_fields) :
  validateItemFields StringToNumber (Some it) = [] ->
  bad_tab (tab it) = false /\ blank (category it) = false /\
  blank (name it) = false /\ blank (dataName it) = false /\
  nan_or_negative (Number StringToNumber (price it)) = false.
Proof.
  rewrite validateItemFields_errs_of. unfold errs_of, push_if.
  destruct (bad_tab _), (blank (category it)), (blank (name it)),
    (blank (dataName it)), (nan_or_negative _); simpl; intros H;
    first [done | by apply app_nil in H as [_ ?] | discriminate].
Qed.

(** A payload that passes validation has strings for the NOT NULL
    columns. *)
Lemma validated_not_null (item : payload) :
  validateItemFields StringToNumber (Some (fields item)) = [] ->
  null_in_not_null item = false.
Proof.
  intros Hv. destruct (validate_passed _ Hv) as (Htab & Hcat & Hname & _).
  apply bad_tab_false in Htab. apply blank_false in Hcat as (c & Hc & _).
  apply blank_false in Hname as (m & Hm & _).
  unfold null_in_not_null. rewrite Hc, Hm. by destruct Htab as [-> | ->].
Qed.

Lemma validate_failed_post (body : option payload) (t : table) :
  validateItemFields StringToNumber (fields <$> body) <> [] ->
  post_item StringToNumber rejects body t
    = (ValidationFailed (validateItemFields StringToNumber (fields <$> body)), t).
Proof.
  unfold post_item.
  destruct (validateItemFields StringToNumber (fields <$> body)); [done|].
  by destruct body.
Qed.

Lemma id_matches_int (k : Z) (r : row) :
  id_matches (Fin (inject_Z k)) r = true <-> r_id r = k.
Proof.
  unfold id_matches. rewrite Qeq_bool_iff. split.
  - intros H. symmetry. by apply inject_Z_injective.
  - intros ->. reflexivity.
Qed.

Lemma none_matches (id : number) (l : list row) :
  (forall r, r ∈ l -> id_matches id r = false) ->
  existsb (id_matches id) l = false.
Proof.
  intros H. induction l as [|r l IH]; [done|]. simpl.
  rewrite (H r) by apply list_elem_of_here. apply IH.
  intros r' Hr'. apply H. by apply list_elem_of_further.
Qed.

Lemma update_missing (id : number) (item : payload) (l : list row) :
  (forall r, r ∈ l -> id_matches id r = false) ->
  (fun r => if id_matches id r then bound_row (r_id r) item else r) <$> l = l.
Proof.
  intros H. induction l as [|r l IH]; [done|]. simpl.
  rewrite (H r) by apply list_elem_of_here.
  f_equal. apply IH. intros r' Hr'. apply H. by apply list_elem_of_further.
Qed.

Lemma below_no_match (k : Z) (l : list row) :
  Forall (fun r => r_id r < k) l ->
  forall r, r ∈ l -> id_matches (Fin (inject_Z k)) r = false.
Proof.
  intros Hl r Hr. rewrite Forall_forall in Hl. specialize (Hl r Hr).
  destruct (id_matches (Fin (inject_Z k)) r) eqn:E; [|done].
  apply id_matches_int in E. lia.
Qed.

Lemma filter_app_last (k : Z) (l : list row) (r : row) :
  Forall (fun r' => r_id r' < k) l -> r_id r = k ->
  filter (fun r' => id_matches (Fin (inject_Z k)) r' = false) (l ++ [r]) = l.
Proof.
  intros Hl Hr. rewrite filter_app. rewrite filter_all.
  - rewrite filter_cons_False, filter_nil.
    + apply app_nil_r.
    + rewrite (proj2 (id_matches_int k r) Hr). discriminate.
  - apply Forall_forall. by apply below_no_match.
Qed.

End ItemsFacts.

(** X14. Creating an item and deleting it by the id returned gives back
    the rows there were, and updating by the returned id rewrites the new
    row and no other. The payload is one the insert takes: no value is
    written as a bare word, [tab], [category] and [name] are not NULL,
    and the server does not reject the statements for a reason of its
    own. *)
Theorem create_then_delete (StringToNumber : string -> Catalog.number)
    (rejects : Items.statement -> Items.table -> bool)
    (t : Items.table) (item : Items.payload) :
  Items.well_keyed t ->
  Items.unwritable item = false -> Items.null_in_not_null item = false ->
  rejects (Items.Insert item) t = false ->
  exists o t1,
    Items.createItem StringToNumber rejects item t = (Js.Ok o, t1) /\
    Items.o_id o = Catalog.Fin (inject_Z (Items.next_id t)) /\
    Items.rows t1 = Items.rows t ++ [Items.bound_row (Items.next_id t) item] /\
    (rejects (Items.Delete (Items.o_id o)) t1 = false ->
     exists t2,
       Items.deleteItem rejects (Items.o_id o) t1 = (Js.Ok (Items.o_id o), t2) /\
       Items.rows t2 = Items.rows t) /\
    (forall item',
       Items.unwritable item' = false -> Items.null_in_not_null item' = false ->
       rejects (Items.Update (Items.o_id o) item') t1 = false ->
       exists o' t2,
         Items.updateItem StringToNumber rejects (Items.o_id o) item' t1
           = (Js.Ok o', t2) /\
         Items.rows t2 = Items.rows t ++ [Items.bound_row (Items.next_id t) item']).
Proof.
  intros [_ Hlt] Hw Hn Hr. eexists _, _. split.
  { unfold Items.createItem. rewrite Hw, Hn, Hr. reflexivity. }
  split; [reflexivity|]. split; [reflexivity|]. cbn [Items.o_id Items.returned].
  split.
  - intros Hd. eexists. split.
    + unfold Items.deleteItem. rewrite Hd. reflexivity.
    + cbn [Items.rows]. by apply filter_app_last.
  - intros item' Hw' Hn' Hu. eexists _, _. split.
    + unfold Items.updateItem. rewrite Hw', Hn', Hu. reflexivity.
    + cbn [Items.rows]. rewrite fmap_app. cbn [fmap list_fmap].
      rewrite (proj2 (id_matches_int (Items.next_id t)
                        (Items.bound_row (Items.next_id t) item)) eq_refl).
      f_equal. apply update_missing. by apply below_no_match.
Qed.

Lemma create_then_delete_witness :
  exists o t1 t2,
    Items.createItem (fun _ => Catalog.NaN) Stock.accepting_server Stock.ticket
      (Items.Table 2 [Items.bound_row 1 Stock.pizza]) = (Js.Ok o, t1) /\
    Items.rows t1 = [Items.bound_row 1 Stock.pizza; Items.bound_row 2 Stock.ticket] /\
    Items.deleteItem Stock.accepting_server (Items.o_id o) t1
      = (Js.Ok (Items.o_id o), t2) /\
    Items.rows t2 = [Items.bound_row 1 Stock.pizza].
Proof.
  assert (Hk : Items.well_keyed (Items.Table 2 [Items.bound_row 1 Stock.pizza])).
  { split; simpl.
    - apply NoDup_singleton.
    - apply Forall_singleton. simpl. lia. }
  destruct (create_then_delete (fun _ => Catalog.NaN) Stock.accepting_server
              (Items.Table 2 [Items.bound_row 1 Stock.pizza]) Stock.ticket
              Hk eq_refl eq_refl eq_refl)
    as (o & t1 & Hc & _ & Hrows & Hdel & _).
  destruct (Hdel eq_refl) as (t2 & Hd & Hrows2).
  exists o, t1, t2. split; [exact Hc|]. split; [exact Hrows|].
  split; [exact Hd|exact Hrows2].
Defined.

(** X15. There is no not-found answer. For an id that is a number and
    that no row has, [deleteItem] and [updateItem] change nothing and
    return as on success, so [DELETE] and [PUT] with a valid body answer
    200, unless the server rejects the statement for a reason of its own.
    For an id that is not a number ([NaN], or an infinity) the statement
    is rejected: the functions throw, the routes answer 500, and the table
    is as before. *)
Theorem missing_id_is_silent (StringToNumber : string -> Catalog.number)
    (rejects : Items.statement -> Items.table -> bool) (t : Items.table) :
  (forall id item,
     Items.bare_word id = false ->
     (forall r, r ∈ Items.rows t -> Items.id_matches id r = false) ->
     (rejects (Items.Delete id) t = false ->
      Items.deleteItem rejects id t = (Js.Ok id, t) /\
      Items.delete_item rejects id t = (Items.DeletedJson id, t)) /\
     (Items.unwritable item = false -> rejects (Items.Update id item) t = false ->
      Items.updateItem StringToNumber rejects id item t
        = (Js.Ok (Items.returned StringToNumber id item), t) /\
      (Catalog.validateItemFields StringToNumber (Some (Items.fields item)) = [] ->
       Items.put_item StringToNumber rejects id (Some item) t
         = (Items.ItemJson (Items.returned StringToNumber id item), t)))) /\
  (forall id item,
     Items.bare_word id = true ->
     Items.deleteItem rejects id t = (Js.Throw Items.QueryFailed, t) /\
     Items.delete_item rejects id t = (Items.InternalError, t) /\
     Items.updateItem StringToNumber rejects id item t
       = (Js.Throw Items.QueryFailed, t) /\
     (Catalog.validateItemFields StringToNumber (Some (Items.fields item)) = [] ->
      Items.put_item StringToNumber rejects id (Some item) t
        = (Items.InternalError, t))).
Proof.
  split.
  - intros id item Hid Hmiss. split.
    + intros Hd.
      assert (E : Items.deleteItem rejects id t = (Js.Ok id, t)).
      { unfold Items.deleteItem. rewrite Hid, Hd. cbn [orb].
        rewrite filter_all; [by destruct t|]. by apply Forall_forall. }
      split; [exact E|]. unfold Items.delete_item. by rewrite E.
    + intros Hw Hu.
      assert (E : Items.updateItem StringToNumber rejects id item t
                  = (Js.Ok (Items.returned StringToNumber id item), t)).
      { unfold Items.updateItem.
        rewrite Hid, Hw, Hu, (none_matches id _ Hmiss), andb_false_r. cbn [orb].
        rewrite update_missing by done. by destruct t. }
      split; [exact E|]. intros Hv. unfold Items.put_item.
      change (Items.fields <$> Some item) with (Some (Items.fields item)).
      rewrite Hv. by rewrite E.
  - intros id item Hid.
    assert (Ed : Items.deleteItem rejects id t = (Js.Throw Items.QueryFailed, t)).
    { unfold Items.deleteItem. by rewrite Hid. }
    assert (Eu : Items.updateItem StringToNumber rejects id item t
                 = (Js.Throw Items.QueryFailed, t)).
    { unfold Items.updateItem. by rewrite Hid. }
    split_and!; try done.
    + unfold Items.delete_item. by rewrite Ed.
    + intros Hv. unfold Items.put_item.
      change (Items.fields <$> Some item) with (Some (Items.fields item)).
      rewrite Hv. by rewrite Eu.
Qed.

Lemma missing_id_is_silent_witness :
  Items.delete_item Stock.accepting_server (Catalog.Fin 7%Q)
    (Items.Table 2 [Items.bound_row 1 Stock.pizza])
    = (Items.DeletedJson (Catalog.Fin 7%Q), Items.Table 2 [Items.bound_row 1 Stock.pizza]) /\
  Items.delete_item Stock.accepting_server Catalog.NaN
    (Items.Table 2 [Items.bound_row 1 Stock.pizza])
    = (Items.InternalError, Items.Table 2 [Items.bound_row 1 Stock.pizza]).
Proof.
  destruct (missing_id_is_silent (fun _ => Catalog.NaN) Stock.accepting_server
              (Items.Table 2 [Items.bound_row 1 Stock.pizza])) as [Hfin Hnan].
  split.
  - assert (Hmiss : forall r,
              r ∈ Items.rows (Items.Table 2 [Items.bound_row 1 Stock.pizza]) ->
              Items.id_matches (Catalog.Fin 7%Q) r = false).
    { intros r Hr. apply list_elem_of_singleton in Hr as ->. reflexivity. }
    destruct (Hfin (Catalog.Fin 7%Q) Stock.pizza eq_refl Hmiss) as [Hd _].
    destruct (Hd eq_refl) as [_ H]. exact H.
  - destruct (Hnan Catalog.NaN Stock.pizza eq_refl) as (_ & H & _). exact H.
Defined.

(** X16. [POST /api/admin/items]: a body that fails validation is answered
    400 with the whole list and no row is written. A body that passes has
    strings for the NOT NULL columns. If none of its values is written as
    a bare word and the server does not reject the insert for a reason of
    its own, the row is inserted under the next id and the object sent
    back has a valid tab, a name that is not blank and a price that is a
    number and not negative, a falsy price being stored and returned as 0;
    otherwise the answer is 500 and no row is written. *)
Theorem post_item_validates (StringToNumber : string -> Catalog.number)
    (rejects : Items.statement -> Items.table -> bool)
    (body : option Items.payload) (t : Items.table) :
  let errs := Catalog.validateItemFields StringToNumber (Items.fields <$> body) in
  (errs <> [] ->
   Items.post_item StringToNumber rejects body t = (Items.ValidationFailed errs, t)) /\
  (errs = [] ->
   exists item,
     body = Some item /\
     Items.null_in_not_null item = false /\
     (Items.unwritable item = false -> rejects (Items.Insert item) t = false ->
      exists o,
        Items.post_item StringToNumber rejects body t
          = (Items.ItemJson o,
             Items.Table (Items.next_id t + 1)
                         (Items.rows t ++ [Items.bound_row (Items.next_id t) item])) /\
        Items.o_id o = Catalog.Fin (inject_Z (Items.next_id t)) /\
        Catalog.valid_tab (Items.o_tab o) /\
        Catalog.nonblank (Items.o_name o) /\
        Catalog.non_negative (Items.o_price o) /\
        (Catalog.truthy (Catalog.price (Items.fields item)) = false ->
         Items.o_price o = Catalog.Fin 0%Q /\
         Items.r_price (Items.bound_row (Items.next_id t) item)
           = Catalog.JNum (Catalog.Fin 0%Q))) /\
     (Items.unwritable item = true \/ rejects (Items.Insert item) t = true ->
      Items.post_item StringToNumber rejects body t = (Items.InternalError, t))).
Proof.
  intros errs. split.
  - intros Hne. by apply validate_failed_post.
  - subst errs. intros Hv. destruct body as [item|]; [|discriminate].
    change (Items.fields <$> Some item) with (Some (Items.fields item)) in Hv.
    destruct (validate_passed StringToNumber _ Hv) as (Htab & _ & Hname & _ & Hprice).
    pose proof (validated_not_null StringToNumber item Hv) as Hnn.
    exists item. split; [done|]. split; [done|]. split.
    + intros Hw Hr.
      exists (Items.returned StringToNumber (Catalog.Fin (inject_Z (Items.next_id t))) item).
      split.
      { unfold Items.post_item.
        change (Items.fields <$> Some item) with (Some (Items.fields item)).
        rewrite Hv. unfold Items.createItem. by rewrite Hw, Hnn, Hr. }
      split; [done|]. split; [by apply bad_tab_false|].
      split; [by apply blank_false|]. simpl. unfold Items.js_or. split.
      * destruct (Catalog.truthy _); [by apply nan_or_negative_false|]. simpl. done.
      * intros ->. done.
    + intros Hbad. unfold Items.post_item.
      change (Items.fields <$> Some item) with (Some (Items.fields item)).
      rewrite Hv. unfold Items.createItem.
      destruct Hbad as [-> | ->]; [done|]. by rewrite !orb_true_r.
Qed.

Lemma post_item_validates_witness :
  exists o,
    Items.post_item (fun _ => Catalog.NaN) Stock.accepting_server (Some Stock.ticket)
      (Items.Table 2 [Items.bound_row 1 Stock.pizza])
    = (Items.ItemJson o,
       Items.Table 3 [Items.bound_row 1 Stock.pizza; Items.bound_row 2 Stock.ticket]).
Proof.
  destruct (proj2 (post_item_validates (fun _ => Catalog.NaN) Stock.accepting_server
                     (Some Stock.ticket)
                     (Items.Table 2 [Items.bound_row 1 Stock.pizza])) eq_refl)
    as (item & Hitem & _ & Hok & _).
  injection Hitem as <-.
  destruct (Hok eq_refl eq_refl) as (o & Hpost & _).
  exists o. exact Hpost.
Defined.

(** X17. With admin credentials configured and [ALLOW_UNAUTH_ADMIN] not
    'true', a request whose token is missing, empty or does not validate
    never reaches the handler of an admin route: it is answered 401 and
    the items table is as before, whatever the handler would do. *)
Theorem admin_routes_need_token (StringToNumber : string -> Catalog.number)
    (allow : option string) (creds : Admin.cred_store) (now : Z)
    (req : Gate.request) (handler : Items.table -> Items.response * Items.table)
    (tokens : gmap string Z) (t : Items.table) :
  allow <> Some "true" -> Gate.isAdminConfigured creds = true ->
  (forall token, Gate.tokenFromReq req = Some token -> token <> "" ->
                 (Admin.validateAdminToken now token tokens).1 = false) ->
  exists v tokens',
    Items.behind_gate allow creds now req handler tokens t
      = (Items.Rejected v, tokens', t) /\
    v <> Gate.Next.
Proof.
  intros Hallow Hc Hbad. unfold Items.behind_gate, Gate.requireAdmin.
  rewrite decide_False by done. rewrite Hc. simpl.
  destruct (Gate.tokenFromReq req) as [[|ch tk]|] eqn:Htok; simpl.
  - by eexists _, _.
  - specialize (Hbad _ eq_refl ltac:(discriminate)).
    destruct (Admin.validateAdminToken now (String ch tk) tokens) as [ok m'].
    simpl in Hbad. subst ok. by eexists _, _.
  - by eexists _, _.
Qed.

Lemma admin_routes_need_token_witness :
  exists v tokens',
    Items.behind_gate None Samples.toy_credentials 0 (Gate.Request None None)
      (Items.delete_item Stock.accepting_server (Catalog.Fin 1%Q)) ∅ (Items.Table 1 [])
      = (Items.Rejected v, tokens', Items.Table 1 []) /\
    v <> Gate.Next.
Proof.
  apply (admin_routes_need_token (fun _ => Catalog.NaN) None Samples.toy_credentials 0
           (Gate.Request None None)
           (Items.delete_item Stock.accepting_server (Catalog.Fin 1%Q)) ∅
           (Items.Table 1 []) ltac:(discriminate) toy_configured).
  intros token Htok. discriminate Htok.
Defined.

(** ** Start-up *)

Lemma testConnection_first (reachable : nat -> bool) (k : nat) :
  (1 <= k <= Boot.MAX_RETRIES)%nat -> reachable k = true ->
  (forall j : nat, (1 <= j < k)%nat -> reachable j = false) ->
  Boot.testConnection reachable
    = Boot.Connected k (Z.of_nat (k - 1) * Boot.RETRY_DELAY_MS).
Proof.
  unfold Boot.testConnection, Boot.MAX_RETRIES, Boot.RETRY_DELAY_MS.
  intros Hk Hr Hj.
  destruct k as [|[|[|[|[|[|k]]]]]]; try lia; simpl;
    try (rewrite (Hj 1%nat) by lia); try (rewrite (Hj 2%nat) by lia);
    try (rewrite (Hj 3%nat) by lia); try (rewrite (Hj 4%nat) by lia);
    rewrite Hr; reflexivity.
Qed.

Lemma testConnection_gave_up (reachable : nat -> bool) :
  (forall j : nat, (1 <= j <= Boot.MAX_RETRIES)%nat -> reachable j = false) ->
  Boot.testConnection reachable
    = Boot.GaveUp Boot.MAX_RETRIES (4 * Boot.RETRY_DELAY_MS).
Proof.
  unfold Boot.testConnection, Boot.MAX_RETRIES, Boot.RETRY_DELAY_MS.
  intros Hj. simpl.
  rewrite (Hj 1%nat), (Hj 2%nat), (Hj 3%nat), (Hj 4%nat), (Hj 5%nat) by lia.
  reflexivity.
Qed.

(** X18. [testConnection] tries at most five times, three seconds apart:
    it returns at the first attempt that reaches the database, having
    waited 3000 ms for each attempt that failed before, and throws after
    the fifth failure, with no delay after it. The loop never ends without
    one or the other. *)
Theorem testConnection_retries (reachable : nat -> bool) :
  (forall k : nat,
     (1 <= k <= Boot.MAX_RETRIES)%nat -> reachable k = true ->
     (forall j : nat, (1 <= j < k)%nat -> reachable j = false) ->
     Boot.testConnection reachable
       = Boot.Connected k (Z.of_nat (k - 1) * Boot.RETRY_DELAY_MS)) /\
  ((forall j : nat, (1 <= j <= Boot.MAX_RETRIES)%nat -> reachable j = false) ->
   Boot.testConnection reachable
     = Boot.GaveUp Boot.MAX_RETRIES (4 * Boot.RETRY_DELAY_MS)) /\
  Boot.testConnection reachable <> Boot.FellThrough.
Proof.
  split; [apply testConnection_first|]. split; [apply testConnection_gave_up|].
  unfold Boot.testConnection, Boot.MAX_RETRIES. simpl.
  destruct (reachable 1%nat); [discriminate|].
  destruct (reachable 2%nat); [discriminate|].
  destruct (reachable 3%nat); [discriminate|].
  destruct (reachable 4%nat); [discriminate|].
  destruct (reachable 5%nat); discriminate.
Qed.

Lemma testConnection_retries_witness :
  Boot.testConnection (fun k => (3 <=? k)%nat) = Boot.Connected 3 6000.
Proof.
  apply (proj1 (testConnection_retries (fun k => (3 <=? k)%nat)) 3%nat).
  - unfold Boot.MAX_RETRIES. lia.
  - reflexivity.
  - intros j Hj. apply Nat.leb_gt. lia.
Defined.

Section BootFacts.
Import Js Boot.
Variable seedItems : list Items.payload.
Variable pbkdf2Sync : string -> string -> Z -> Z -> string -> option (list Byte.byte).

Lemma seed_counter_twice (d : Maria.db) :
  seed_counter (seed_counter d) = seed_counter d.
Proof. unfold seed_counter. by destruct (Maria.counter d) eqn:E; simpl; rewrite ?E. Qed.

Lemma seed_rows (l : list Items.payload) (t : Items.table) :
  exists added,
    Items.rows
      (foldl (fun t item =>
                Items.Table (Items.next_id t + 1)
                  (Items.rows t ++ [Items.bound_row (Items.next_id t) item])) t l)
      = Items.rows t ++ added /\
    length added = length l.
Proof.
  revert t. induction l as [|item l IH]; intros t.
  - exists []. by rewrite app_nil_r.
  - simpl. destruct (IH (Items.Table (Items.next_id t + 1)
                     (Items.rows t ++ [Items.bound_row (Items.next_id t) item])))
      as (added & -> & Hlen).
    simpl. eexists (_ :: added). rewrite <- app_assoc. simpl. split; [done|].
    simpl. by rewrite Hlen.
Qed.

Lemma seed_items_twice (items : list Items.payload) (t : Items.table) :
  seed_items items (seed_items items t) = seed_items items t.
Proof.
  destruct (Items.rows t) as [|r l] eqn:E.
  - destruct items as [|item items].
    + unfold seed_items. rewrite E. simpl. by rewrite E.
    + unfold seed_items at 2. rewrite E.
      unfold seed_items at 1.
      destruct (seed_rows (item :: items) t) as (added & -> & Hlen).
      rewrite E. destruct added; [discriminate|]. simpl.
      unfold seed_items. rewrite E. simpl. by rewrite E.
  - unfold seed_items. rewrite E. by rewrite E.
Qed.

Lemma insert_pair_twice (m : gmap string (option string)) (a b : option string) :
  <["admin_salt" := a]> (<["admin_hash" := b]>
    (<["admin_salt" := a]> (<["admin_hash" := b]> m)))
  = <["admin_salt" := a]> (<["admin_hash" := b]> m).
Proof.
  apply map_eq. intros i.
  destruct (decide (i = "admin_salt")) as [->|Hs]; [by rewrite !lookup_insert_eq|].
  rewrite lookup_insert_ne by congruence.
  rewrite (lookup_insert_ne (<["admin_hash" := b]> m)) by congruence.
  destruct (decide (i = "admin_hash")) as [->|Hh]; [by rewrite !lookup_insert_eq|].
  rewrite lookup_insert_ne by congruence.
  by rewrite lookup_insert_ne by congruence.
Qed.

Lemma upsert_twice (hash salt : string) (st : Admin.cred_store) :
  upsert_text "admin_salt" salt
    (upsert_text "admin_hash" hash
       (upsert_text "admin_salt" salt (upsert_text "admin_hash" hash st)))
  = upsert_text "admin_salt" salt (upsert_text "admin_hash" hash st).
Proof.
  unfold upsert_text. simpl. do 2 f_equal. apply insert_pair_twice.
Qed.

Lemma seed_credentials_twice (e : env) (st st' : Admin.cred_store) :
  seed_credentials pbkdf2Sync e st = Ok st' ->
  seed_credentials pbkdf2Sync e st' = Ok st'.
Proof.
  unfold seed_credentials.
  destruct (ADMIN_PASSWORD e) as [[|c p]|]; try (by intros [= <-]).
  destruct (ADMIN_SALT e) as [[|c' s]|]; try (by intros [= <-]).
  destruct (pbkdf2Sync _ _ _ _ _); [|discriminate].
  intros [= <-]. by rewrite upsert_twice.
Qed.

End BootFacts.

(** X19. [initializeDatabase] keeps what is there: the orders and the
    transactions are never touched, a counter row that exists keeps its
    count (one that is missing starts at 0), and an items table that has a
    row is not seeded. When no attempt reaches the database it throws and
    changes nothing. Run again on its own result, with the same
    environment, it ends the same way and changes nothing more. *)
Theorem initializeDatabase_keeps_data (seedItems : list Items.payload)
    (pbkdf2Sync : string -> string -> Z -> Z -> string -> option (list Byte.byte))
    (reachable : nat -> bool) (e : Boot.env) (db : Boot.database) :
  let r := (Boot.initializeDatabase seedItems pbkdf2Sync reachable e db).1 in
  let db' := (Boot.initializeDatabase seedItems pbkdf2Sync reachable e db).2 in
  Maria.orders (Boot.ledger db') = Maria.orders (Boot.ledger db) /\
  Maria.transactions (Boot.ledger db') = Maria.transactions (Boot.ledger db) /\
  Maria.counter (Boot.ledger db')
    = (if r is Js.Throw Boot.Unreachable then Maria.counter (Boot.ledger db)
       else Some (default 0 (Maria.counter (Boot.ledger db)))) /\
  (Items.rows (Boot.items db) <> [] -> Boot.items db' = Boot.items db) /\
  ((forall j : nat, (1 <= j <= Boot.MAX_RETRIES)%nat -> reachable j = false) ->
   r = Js.Throw Boot.Unreachable /\ db' = db) /\
  Boot.initializeDatabase seedItems pbkdf2Sync reachable e db' = (r, db').
Proof.
  intros r db'. subst r db'. unfold Boot.initializeDatabase.
  destruct (Boot.testConnection reachable) as [k w|k w|] eqn:Ec.
  - assert (Hsome : ~ (forall j : nat, (1 <= j <= Boot.MAX_RETRIES)%nat ->
                                       reachable j = false)).
    { intros Hj. rewrite (testConnection_gave_up reachable Hj) in Ec. discriminate. }
    assert (Hcount : Maria.counter (Boot.seed_counter (Boot.ledger db))
                     = Some (default 0 (Maria.counter (Boot.ledger db)))).
    { unfold Boot.seed_counter.
      destruct (Maria.counter (Boot.ledger db)) eqn:E; simpl; by rewrite ?E. }
    assert (Horders : Maria.orders (Boot.seed_counter (Boot.ledger db))
                      = Maria.orders (Boot.ledger db))
      by (unfold Boot.seed_counter; by destruct (Maria.counter (Boot.ledger db))).
    assert (Htx : Maria.transactions (Boot.seed_counter (Boot.ledger db))
                  = Maria.transactions (Boot.ledger db))
      by (unfold Boot.seed_counter; by destruct (Maria.counter (Boot.ledger db))).
    assert (Hitems : Items.rows (Boot.items db) <> [] ->
                     Boot.seed_items seedItems (Boot.items db) = Boot.items db)
      by (unfold Boot.seed_items; by destruct (Items.rows (Boot.items db))).
    destruct (Boot.seed_credentials pbkdf2Sync e (Boot.credentials db))
      as [creds|err] eqn:Es; simpl.
    + split_and!; try done.
      rewrite seed_counter_twice, seed_items_twice.
      by rewrite (seed_credentials_twice pbkdf2Sync e _ _ Es).
    + assert (err = Boot.DerivationFailed) as ->.
      { unfold Boot.seed_credentials in Es.
        repeat (case_match; try discriminate). by injection Es as <-. }
      split_and!; try done.
      rewrite seed_counter_twice, seed_items_twice. simpl. by rewrite Es.
  - simpl. by split_and!.
  - simpl. by split_and!.
Qed.

Lemma testConnection_some (reachable : nat -> bool) (k : nat) :
  (1 <= k <= Boot.MAX_RETRIES)%nat -> reachable k = true ->
  exists attempt waited, Boot.testConnection reachable = Boot.Connected attempt waited.
Proof.
  unfold Boot.testConnection, Boot.MAX_RETRIES. intros Hk Hr. simpl.
  destruct (reachable 1%nat) eqn:E1; [by eexists _, _|].
  destruct (reachable 2%nat) eqn:E2; [by eexists _, _|].
  destruct (reachable 3%nat) eqn:E3; [by eexists _, _|].
  destruct (reachable 4%nat) eqn:E4; [by eexists _, _|].
  destruct (reachable 5%nat) eqn:E5; [by eexists _, _|].
  destruct k as [|[|[|[|[|[|k]]]]]]; try lia; congruence.
Qed.

Lemma toString_hex_nonempty (buf : list Byte.byte) :
  buf <> [] -> Admin.toString_hex buf <> "".
Proof. destruct buf as [|b buf]; [done|]. intros _. discriminate. Qed.

(** X20. Credentials seeded at start-up are the ones the login checks:
    with [ADMIN_PASSWORD] and [ADMIN_SALT] set and a key derivation that
    returns bytes, [initializeDatabase]'s seeding stores a hash and a salt
    under which the admin is configured, the password of the environment
    validates, and a password with another derived key does not. With
    either variable unset or empty the credential table is not written. *)
Theorem seeded_password_validates
    (pbkdf2Sync : string -> string -> Z -> Z -> string -> option (list Byte.byte))
    (password salt : string) (buf : list Byte.byte) (st : Admin.cred_store) :
  password <> "" -> salt <> "" ->
  pbkdf2Sync password salt Admin.ITERATIONS Admin.KEYLEN Admin.DIGEST = Some buf ->
  buf <> [] ->
  (exists st',
     Boot.seed_credentials pbkdf2Sync (Boot.Env (Some password) (Some salt)) st
       = Js.Ok st' /\
     Gate.isAdminConfigured st' = true /\
     Admin.validateAdminPassword pbkdf2Sync password st' = true /\
     forall other buf',
       pbkdf2Sync other salt Admin.ITERATIONS Admin.KEYLEN Admin.DIGEST = Some buf' ->
       buf' <> buf ->
       Admin.validateAdminPassword pbkdf2Sync other st' = false) /\
  (forall p, Boot.seed_credentials pbkdf2Sync (Boot.Env p None) st = Js.Ok st) /\
  (forall s, Boot.seed_credentials pbkdf2Sync (Boot.Env None s) st = Js.Ok st) /\
  (forall s, Boot.seed_credentials pbkdf2Sync (Boot.Env (Some "") s) st = Js.Ok st) /\
  (forall p, Boot.seed_credentials pbkdf2Sync (Boot.Env p (Some "")) st = Js.Ok st).
Proof.
  intros Hp Hs Hkdf Hbuf. split.
  - set (m := default ∅ (Admin.meta_text st)).
    set (t := <["admin_salt" := Some salt]>
                (<["admin_hash" := Some (Admin.toString_hex buf)]> m)).
    assert (Hhash : t !! "admin_hash" = Some (Some (Admin.toString_hex buf))).
    { subst t. rewrite lookup_insert_ne by done. apply lookup_insert_eq. }
    assert (Hsalt : t !! "admin_salt" = Some (Some salt)).
    { subst t. apply lookup_insert_eq. }
    exists (Admin.CredStore (Some t)). split; [|split; [|split]].
    + unfold Boot.seed_credentials. simpl.
      destruct password as [|c p]; [done|]. destruct salt as [|c' s]; [done|].
      by rewrite Hkdf.
    + unfold Gate.isAdminConfigured. simpl. apply bool_decide_eq_true.
      rewrite Hhash. by eexists.
    + apply validateAdminPassword_true.
      exists t, (Admin.toString_hex buf), salt, buf.
      split_and!; try done.
      * by apply toString_hex_nonempty.
      * apply Buffer_from_hex_toString_hex.
    + intros other buf' Hother Hne.
      destruct (Admin.validateAdminPassword pbkdf2Sync other (Admin.CredStore (Some t)))
        eqn:Hv; [|done].
      apply validateAdminPassword_true in Hv
        as (t' & hash' & salt' & buf'' & [= <-] & Hh & _ & Hsl & _ & Hk & Hb).
      rewrite Hhash in Hh. rewrite Hsalt in Hsl.
      injection Hh as <-. injection Hsl as <-.
      rewrite Buffer_from_hex_toString_hex in Hb. subst buf''.
      unfold Admin.ITERATIONS, Admin.KEYLEN, Admin.DIGEST in Hother. congruence.
  - split_and!.
    + by intros [[|c p]|].
    + done.
    + done.
    + by intros [[|c p]|].
Qed.

Lemma seeded_password_validates_witness :
  exists st',
    Boot.seed_credentials Samples.toy_kdf (Boot.Env (Some "hunter2") (Some "NaCl"))
      (Admin.CredStore None) = Js.Ok st' /\
    Gate.isAdminConfigured st' = true /\
    Admin.validateAdminPassword Samples.toy_kdf "hunter2" st' = true.
Proof.
  destruct (seeded_password_validates Samples.toy_kdf "hunter2" "NaCl" _
              (Admin.CredStore None) ltac:(discriminate) ltac:(discriminate)
              eq_refl ltac:(discriminate))
    as [(st' & H1 & H2 & H3 & _) _].
  by exists st'.
Defined.

(** X21. On a database without counter row and without orders, start-up
    that reaches the database makes the first order "0001", also when the
    credential seeding throws afterwards; before start-up the same
    submission throws. *)
Theorem first_order_after_start (seedItems : list Items.payload)
    (pbkdf2Sync : string -> string -> Z -> Z -> string -> option (list Byte.byte))
    (reachable : nat -> bool) (e : Boot.env) (db : Boot.database)
    (k : nat) (now : Z) (od : Order.order_data) (its : list Order.item) :
  (1 <= k <= Boot.MAX_RETRIES)%nat -> reachable k = true ->
  Maria.counter (Boot.ledger db) = None ->
  Maria.orders (Boot.ledger db) = [] ->
  Order.items od = Some its ->
  let db' := (Boot.initializeDatabase seedItems pbkdf2Sync reachable e db).2 in
  (exists err, (Maria.submitOrder Maria.no_fault now od (Boot.ledger db)).1
               = Js.Throw err) /\
  exists d',
    Maria.submitOrder Maria.no_fault now od (Boot.ledger db')
      = (Js.Ok (Order.MkOrder od "0001"), d') /\
    Maria.counter d' = Some 1 /\
    Maria.o_orderId <$> Maria.orders d' = ["0001"].
Proof.
  intros Hk Hr Hc Ho Hits db'. split.
  - destruct (Boot.ledger db) as [c os ts]. simpl in Hc. subst c.
    eexists. reflexivity.
  - assert (Hl : Boot.ledger db'
                 = Maria.Db (Some 0) [] (Maria.transactions (Boot.ledger db))).
    { subst db'. unfold Boot.initializeDatabase.
      destruct (testConnection_some reachable k Hk Hr) as (a & w & ->).
      destruct (Boot.seed_credentials _ _ _); simpl;
        unfold Boot.seed_counter; by rewrite Hc, Ho. }
    rewrite Hl. eexists. split.
    + apply (maria_submit_succeeds now od _ 0 its); [done|done|].
      simpl. apply not_elem_of_nil.
    + simpl. split; reflexivity.
Qed.

Lemma first_order_after_start_witness :
  exists d',
    Maria.submitOrder Maria.no_fault 0
      (Order.OrderData 8 "Cash" (Some [Order.Item "Water" 4 2]))
      (Boot.ledger
         (Boot.initializeDatabase [] Samples.toy_kdf (fun _ => true)
            (Boot.Env None None)
            (Boot.Database (Maria.Db None [] []) (Items.Table 1 [])
               (Admin.CredStore None))).2)
      = (Js.Ok (Order.MkOrder (Order.OrderData 8 "Cash" (Some [Order.Item "Water" 4 2]))
                  "0001"), d').
Proof.
  destruct (first_order_after_start [] Samples.toy_kdf (fun _ => true)
              (Boot.Env None None)
              (Boot.Database (Maria.Db None [] []) (Items.Table 1 [])
                 (Admin.CredStore None))
              1 0 (Order.OrderData 8 "Cash" (Some [Order.Item "Water" 4 2]))
              [Order.Item "Water" 4 2])
    as [_ (d' & H & _)].
  - unfold Boot.MAX_RETRIES. lia.
  - reflexivity.
  - reflexivity.
  - reflexivity.
  - reflexivity.
  - by exists d'.
Defined.

(** ** The login throttle beyond five failures *)

Section LoginMore.
Import Login.
Variable validateAdminPassword : string -> bool.
Variables (token ip : string).

(** A failed verification after the window has passed starts a new
    window. *)
Lemma login_failure_reset (now : Z) (pw : string) (st : state) (c first locked : Z) :
  loginAttempts st !! ip = Some (Attempt c first locked) ->
  (locked = 0 \/ locked <= now) ->
  now - first > ATTEMPT_WINDOW_MS ->
  pw <> "" -> validateAdminPassword pw = false ->
  exists st',
    login validateAdminPassword now token ip (Some pw) st = (InvalidPassword, st') /\
    loginAttempts st' !! ip = Some (Attempt 1 now locked) /\
    adminTokens st' = adminTokens st /\
    guardCalls st' = guardCalls st ++ [pw].
Proof.
  intros Hrec Hlock Hwin Hpw Hbad. unfold login. rewrite Hrec. simpl.
  assert (Hl : is_locked now (Attempt c first locked) = false).
  { destruct (is_locked now (Attempt c first locked)) eqn:E; [|done].
    apply is_locked_spec in E. simpl in E. lia. }
  rewrite Hl. destruct pw as [|ch pw]; [done|]. rewrite Hbad. simpl.
  eexists. split; [reflexivity|]. simpl. rewrite lookup_insert_eq.
  split; [|done]. f_equal. unfold record_failure. simpl.
  destruct (Z.gtb_spec (now - first) ATTEMPT_WINDOW_MS); [reflexivity|lia].
Qed.

Lemma spaced_failures (reqs : list (Z * string)) (st : state) :
  (loginAttempts st !! ip = None \/
   exists prev, loginAttempts st !! ip = Some (Attempt 1 prev 0) /\
                forall a, reqs !! 0%nat = Some a -> a.1 - prev > ATTEMPT_WINDOW_MS) ->
  (forall i a b, reqs !! i = Some a -> reqs !! S i = Some b ->
                 b.1 - a.1 > ATTEMPT_WINDOW_MS) ->
  Forall (fun a => a.2 <> "" /\ validateAdminPassword a.2 = false) reqs ->
  exists st',
    login_all validateAdminPassword token ip ((fun a => (a.1, Some a.2)) <$> reqs) st
      = (replicate (length reqs) InvalidPassword, st') /\
    guardCalls st' = guardCalls st ++ reqs.*2 /\
    adminTokens st' = adminTokens st.
Proof.
  revert st. induction reqs as [|[t p] reqs IH]; intros st Hst Hgap Hall.
  - exists st. simpl. by rewrite app_nil_r.
  - apply Forall_cons in Hall as [[Hp Hbad] Hall]. simpl in Hp, Hbad.
    assert (Hstep : exists st1,
      login validateAdminPassword t token ip (Some p) st = (InvalidPassword, st1) /\
      loginAttempts st1 !! ip = Some (Attempt 1 t 0) /\
      adminTokens st1 = adminTokens st /\
      guardCalls st1 = guardCalls st ++ [p]).
    { destruct Hst as [Hnone|(prev & Hprev & Hfar)].
      - destruct (login_failure_step validateAdminPassword token ip t p st 0 t)
          as (st1 & H1 & H2 & H3 & H4); try done.
        + right. done.
        + unfold ATTEMPT_WINDOW_MS. lia.
        + by exists st1.
      - specialize (Hfar (t, p) eq_refl). simpl in Hfar.
        destruct (login_failure_reset t p st 1 prev 0 Hprev) as (st1 & H); try done.
        + by left.
        + by exists st1. }
    destruct Hstep as (st1 & E1 & Hrec & Htok & Hcalls).
    destruct (IH st1) as (st' & E' & Hc' & Ht'); [| |done|].
    + right. exists t. split; [done|]. intros a Ha.
      apply (Hgap 0%nat (t, p) a); done.
    + intros i a b Ha Hb. apply (Hgap (S i) a b); done.
    + exists st'. rewrite fmap_cons. cbn [login_all fst snd].
      rewrite E1, E'. split; [done|]. simpl.
      rewrite Hc', Hcalls, Ht', Htok. by rewrite <- app_assoc.
Qed.

End LoginMore.

(** X22. The lock-out is a limit on the rate only: a client that lets more
    than ten minutes pass between two failed logins is answered 401 every
    time and never 429, however many passwords it tries; each of them is
    checked against the credentials, and no token is issued. *)
Theorem spaced_failures_never_lock (verify : string -> bool) (token ip : string)
    (reqs : list (Z * string)) (st : Login.state) :
  Login.loginAttempts st !! ip = None ->
  (forall i a b, reqs !! i = Some a -> reqs !! S i = Some b ->
                 b.1 - a.1 > Login.ATTEMPT_WINDOW_MS) ->
  Forall (fun a => a.2 <> "" /\ verify a.2 = false) reqs ->
  exists st',
    Login.login_all verify token ip ((fun a => (a.1, Some a.2)) <$> reqs) st
      = (replicate (length reqs) Login.InvalidPassword, st') /\
    Login.guardCalls st' = Login.guardCalls st ++ reqs.*2 /\
    Login.adminTokens st' = Login.adminTokens st.
Proof.
  intros Hnone Hgap Hall. apply spaced_failures; [by left|done|done].
Qed.

Lemma spaced_failures_never_lock_witness :
  exists st',
    Login.login_all (fun _ => false) "5f2a" "10.0.0.7"
      ((fun a => (a.1, Some a.2)) <$>
         [(0, "a"); (600001, "b"); (1200002, "c"); (1800003, "d");
          (2400004, "e"); (3000005, "f")])
      (Login.State ∅ ∅ [])
    = (replicate 6 Login.InvalidPassword, st').
Proof.
  destruct (spaced_failures_never_lock (fun _ => false) "5f2a" "10.0.0.7"
              [(0, "a"); (600001, "b"); (1200002, "c"); (1800003, "d");
               (2400004, "e"); (3000005, "f")]
              (Login.State ∅ ∅ [])) as (st' & H & _).
  - apply lookup_empty.
  - intros i a b Ha Hb. unfold Login.ATTEMPT_WINDOW_MS.
    do 6 (destruct i as [|i];
          [simpl in Ha, Hb;
           first [discriminate | injection Ha as <-; injection Hb as <-; simpl; lia]|]).
    discriminate.
  - repeat (apply Forall_cons; split; [split; [discriminate|reflexivity]|]).
    apply Forall_nil_2.
  - by exists st'.
Defined.

(** X23. After a lock-out has run out the count starts again: for a record
    locked at a time not before its window began, the first failed login
    at or after the end of the lock is answered 401, sets the count to 1
    and the window start to now, and keeps the old [lockedUntil], which
    locks nobody any more. *)
Theorem lockout_expires_into_new_window (verify : string -> bool) (token ip : string)
    (st : Login.state) (c first lockedAt now : Z) (pw : string) :
  Login.loginAttempts st !! ip
    = Some (Login.Attempt c first (lockedAt + Login.LOCK_TIME_MS)) ->
  first <= lockedAt -> lockedAt + Login.LOCK_TIME_MS <= now ->
  pw <> "" -> verify pw = false ->
  exists st',
    Login.login verify now token ip (Some pw) st = (Login.InvalidPassword, st') /\
    Login.loginAttempts st' !! ip
      = Some (Login.Attempt 1 now (lockedAt + Login.LOCK_TIME_MS)) /\
    forall later,
      now <= later ->
      Login.is_locked later (Login.Attempt 1 now (lockedAt + Login.LOCK_TIME_MS)) = false.
Proof.
  intros Hrec Hfirst Hnow Hpw Hbad.
  destruct (login_failure_reset verify token ip now pw st c first _ Hrec)
    as (st' & E & Hr & _); try done.
  - by right.
  - unfold Login.LOCK_TIME_MS, Login.ATTEMPT_WINDOW_MS in *. lia.
  - exists st'. split; [done|]. split; [done|]. intros later Hlater.
    destruct (Login.is_locked later _) eqn:El; [|done].
    apply is_locked_spec in El. simpl in El. lia.
Qed.

Lemma lockout_expires_into_new_window_witness :
  exists st',
    Login.login (fun _ => false) 900004 "5f2a" "10.0.0.7" (Some "g")
      (Login.State (<["10.0.0.7" := Login.Attempt 5 0 (4 + Login.LOCK_TIME_MS)]> ∅) ∅ [])
    = (Login.InvalidPassword, st').
Proof.
  destruct (lockout_expires_into_new_window (fun _ => false) "5f2a" "10.0.0.7"
              (Login.State (<["10.0.0.7" := Login.Attempt 5 0 (4 + Login.LOCK_TIME_MS)]> ∅) ∅ [])
              5 0 4 900004 "g") as (st' & H & _).
  - apply lookup_insert_eq.
  - lia.
  - unfold Login.LOCK_TIME_MS. lia.
  - discriminate.
  - reflexivity.
  - by exists st'.
Defined.

(** X24. A login request touches its own client only: the attempt records
    of every other client are as before, whatever the answer; a request
    without password from a client that is not locked is answered 400
    and changes nothing, the credentials not being consulted; and the
    token store changes on a successful login only, by the new token. *)
Theorem login_touches_one_client (verify : string -> bool) (token ip : string)
    (now : Z) (password : option string) (st : Login.state) :
  let r := (Login.login verify now token ip password st).1 in
  let st' := (Login.login verify now token ip password st).2 in
  (forall other, other <> ip ->
     Login.loginAttempts st' !! other = Login.loginAttempts st !! other) /\
  (Login.adminTokens st'
     = if r is Login.LoggedIn _
       then <[token := now + Admin.ADMIN_TOKEN_TTL]> (Login.adminTokens st)
       else Login.adminTokens st) /\
  ((password = None \/ password = Some "") ->
   Login.is_locked now
     (default (Login.Attempt 0 now 0) (Login.loginAttempts st !! ip)) = false ->
   r = Login.MissingPassword /\ st' = st).
Proof.
  intros r st'. subst r st'. unfold Login.login.
  destruct (Login.is_locked now _) eqn:El.
  - simpl. split_and!; try done.
  - destruct password as [[|ch pw]|]; simpl.
    + by split_and!.
    + destruct (verify (String ch pw)); simpl.
      * split_and!; try done.
        -- intros other Hne. by rewrite lookup_delete_ne.
        -- by intros [|].
      * split_and!; try done.
        -- intros other Hne. by rewrite lookup_insert_ne.
        -- by intros [|].
    + by split_and!.
Qed.

(** ** Concurrent submissions at every moment *)

Lemma assigned_ids_length (ts : list Sequencer.task) :
  (length (Sequencer.assigned_ids ts) <= length ts)%nat.
Proof.
  unfold Sequencer.assigned_ids. induction ts as [|t ts IH]; [done|].
  change (omap Sequencer.assigned_id (t :: ts))
    with (match Sequencer.assigned_id t with
          | Some y => y :: omap Sequencer.assigned_id ts
          | None => omap Sequencer.assigned_id ts
          end).
  destruct (Sequencer.assigned_id t); cbn [length]; lia.
Qed.

(** X25. At every moment of every interleaving of [n] submissions, not
    only when all have returned: the ids handed out so far are the first
    ones after the counter, in order and without gap; no two submissions
    hold the same id; the counter has advanced once per id. On MariaDB at
    most one submission is inside its transaction, and the row lock is
    held exactly when there is one. *)
Theorem ids_distinct_at_every_moment (b : Sequencer.backend) (c : Z) (n : nat)
    (schedule : list nat) :
  0 <= c ->
  c + Z.of_nat n <= Js.MAX_SAFE_INTEGER ->
  let w := Sequencer.run b schedule (Sequencer.init c n) in
  let k := length (Sequencer.issued w) in
  (k <= n)%nat /\
  Sequencer.counter w = Some (c + Z.of_nat k) /\
  Sequencer.issued w = Order.newOrderId <$> seqZ (c + 1) (Z.of_nat k) /\
  Sequencer.assigned_ids (Sequencer.tasks w) ≡ₚ Sequencer.issued w /\
  NoDup (Sequencer.assigned_ids (Sequencer.tasks w)) /\
  (b = Sequencer.MariaDB ->
   (forall i j ci cj,
      Sequencer.tasks w !! i = Some (Sequencer.InTx ci) ->
      Sequencer.tasks w !! j = Some (Sequencer.InTx cj) -> i = j) /\
   (Sequencer.locked w = true <->
    exists j cur, Sequencer.tasks w !! j = Some (Sequencer.InTx cur))).
Proof.
  intros Hc Hmax w k.
  pose proof (run_invariant b c n schedule _ (init_invariant b c n)) as Hinv.
  fold w in Hinv. destruct Hinv as [Hcount Hissued Hperm Hlen Hintx Hholder].
  fold k in Hcount, Hissued.
  assert (Hnd : NoDup (Sequencer.issued w)).
  { rewrite Hissued. by apply issued_NoDup. }
  split_and!; try done.
  - subst k. rewrite <- (Permutation_length Hperm), <- Hlen.
    apply assigned_ids_length.
  - by rewrite Hperm.
  - intros Hb. split.
    + intros i j ci cj Hi Hj.
      destruct (Hintx Hb j cj Hj) as (_ & _ & Huniq). by apply (Huniq i ci).
    + split.
      * intros Hl. by destruct (Hholder Hl) as [_ ?].
      * intros (j & cur & Hj). by destruct (Hintx Hb j cur Hj) as [? _].
Qed.

Lemma ids_distinct_at_every_moment_witness :
  NoDup (Sequencer.assigned_ids
           (Sequencer.tasks
              (Sequencer.run Sequencer.Firestore [0; 1; 1; 0; 2]%nat
                 (Sequencer.init 41 3)))).
Proof.
  apply (ids_distinct_at_every_moment Sequencer.Firestore 41 3 [0; 1; 1; 0; 2]%nat).
  - lia.
  - unfold Js.MAX_SAFE_INTEGER. simpl. lia.
Defined.

(** X26. Submissions never block each other for good: in every world
    reached by an interleaving, if some submission has neither returned
    nor failed then some submission can take a step; and serving the
    submissions one after the other gives every one of them an id. *)
Theorem submissions_make_progress (b : Sequencer.backend) (c : Z) (n : nat) :
  (forall schedule,
     let w := Sequencer.run b schedule (Sequencer.init c n) in
     existsb Sequencer.unfinished (Sequencer.tasks w) = true ->
     exists i w', Sequencer.fire b i w = Some w') /\
  Sequencer.all_assigned
    (Sequencer.tasks (Sequencer.run b (Sequencer.one_by_one n) (Sequencer.init c n)))
    = true.
Proof.
  split.
  - intros schedule. apply no_deadlock.
  - apply one_by_one_completes.
Qed.

(** ** Reading back from the document backend *)

Section FirestoreList.
Import Js Order Firestore.

Lemma doc_set_elem (id : string) (d : gmap string value) (c : collection) :
  (id, d) ∈ doc_set id d c.
Proof.
  induction c as [|[k v] r IH]; simpl.
  - apply list_elem_of_here.
  - destruct (String.compare id k).
    + apply list_elem_of_here.
    + apply list_elem_of_here.
    + by apply list_elem_of_further.
Qed.

Lemma doc_set_others (id : string) (d : gmap string value) (c : collection)
    (x : string * gmap string value) :
  x ∈ doc_set id d c -> x = (id, d) \/ x ∈ c.
Proof.
  induction c as [|[k v] r IH]; simpl.
  - intros ->%list_elem_of_singleton. by left.
  - destruct (String.compare id k).
    + intros [->|H]%elem_of_cons; [by left|right]. by apply list_elem_of_further.
    + intros [->|H]%elem_of_cons; [by left|by right].
    + intros [->|H]%elem_of_cons; [right; apply list_elem_of_here|].
      destruct (IH H) as [->|H']; [by left|right]. by apply list_elem_of_further.
Qed.

End FirestoreList.

(** X27. Listing on the document backend, for a counter below 2^53:
    after a submission that returned, [getOrders] holds the new order's
    document and otherwise only documents that were there before. That
    document carries the id, the total as sent, the payment type and the
    status, and has no [items] field: the line items are in
    [transactions] only, which [getOrders] does not read. *)
Theorem firestore_submit_then_list (ids : Firestore.auto_ids) (ts : string)
    (od : Order.order_data) (s : Firestore.store) (its : list Order.item) :
  Order.items od = Some its ->
  0 <= default 0 (Firestore.count s) < Js.MAX_SAFE_INTEGER ->
  let id := Order.newOrderId (default 0 (Firestore.count s) + 1) in
  let doc := Firestore.order_doc ts od id in
  exists s',
    Firestore.submitOrder Firestore.no_fault ids ts od s
      = (Js.Ok (Order.MkOrder od id), s') /\
    doc ∈ Firestore.getOrders s' /\
    (forall d, d ∈ Firestore.getOrders s' -> d = doc \/ d ∈ Firestore.getOrders s) /\
    doc !! "orderId" = Some (Firestore.VStr id) /\
    doc !! "totalAmount" = Some (Firestore.VNum (Order.totalAmount od)) /\
    doc !! "paymentType" = Some (Firestore.VStr (Order.paymentType od)) /\
    doc !! "status"
      = Some (Firestore.VStr (Order.status_of (Order.paymentType od))) /\
    doc !! "items" = None.
Proof.
  intros Hits Hc id doc.
  eexists. split.
  { rewrite (firestore_submit_succeeds ids ts od s its Hits). cbv zeta.
    rewrite (firestore_new_count s Hc). reflexivity. }
  unfold Firestore.getOrders. cbn [Firestore.orders].
  split_and!.
  - apply list_elem_of_fmap. exists (Firestore.order_doc_id ids, doc).
    split; [done|]. apply doc_set_elem.
  - intros d ([k v] & -> & Hin)%list_elem_of_fmap.
    apply doc_set_others in Hin as [[= -> ->]|Hin]; [by left|right].
    apply list_elem_of_fmap. by exists (k, v).
  - subst doc. unfold Firestore.order_doc. apply lookup_insert_eq.
  - subst doc. unfold Firestore.order_doc.
    rewrite lookup_insert_ne by done. apply lookup_insert_eq.
  - subst doc. unfold Firestore.order_doc.
    do 2 (rewrite lookup_insert_ne by done). apply lookup_insert_eq.
  - subst doc. unfold Firestore.order_doc.
    do 4 (rewrite lookup_insert_ne by done). apply lookup_insert_eq.
  - subst doc. unfold Firestore.order_doc.
    do 5 (rewrite lookup_insert_ne by done). apply lookup_empty.
Qed.

Lemma firestore_submit_then_list_witness :
  exists s',
    Firestore.submitOrder Firestore.no_fault
      (Firestore.AutoIds "o1" (fun _ => "t1")) "2024-01-01T00:00:00.000Z"
      (Order.OrderData 8 "Cash" (Some [Order.Item "Water" 4 2]))
      (Firestore.Store (Some 41) [] [])
    = (Js.Ok (Order.MkOrder (Order.OrderData 8 "Cash" (Some [Order.Item "Water" 4 2]))
                "0042"), s') /\
    Firestore.order_doc "2024-01-01T00:00:00.000Z"
      (Order.OrderData 8 "Cash" (Some [Order.Item "Water" 4 2])) "0042"
      ∈ Firestore.getOrders s'.
Proof.
  assert (Hc : 0 <= default 0 (Firestore.count (Firestore.Store (Some 41) [] []))
               < Js.MAX_SAFE_INTEGER)
    by (unfold Js.MAX_SAFE_INTEGER; simpl; lia).
  destruct (firestore_submit_then_list (Firestore.AutoIds "o1" (fun _ => "t1"))
              "2024-01-01T00:00:00.000Z"
              (Order.OrderData 8 "Cash" (Some [Order.Item "Water" 4 2]))
              (Firestore.Store (Some 41) [] []) [Order.Item "Water" 4 2] eq_refl Hc)
    as (s' & H & Hin & _).
  exists s'. split; [exact H|exact Hin].
Defined.
